(** * stat_boards.py: the keystring accessor and the table builder

    A shallow embedding of [access] and [tablefy] from [src/stat_boards.py]
    (Python 2), together with the part of the Python object model they touch:
    byte strings, immutable values, and a store of mutable lists and
    dictionaries addressed by reference. *)

From Stdlib Require Import ZArith String Ascii Lia.
From stdpp Require Import base list strings.

Set Warnings "-register-all".
Local Open Scope Z_scope.

(** ** Byte strings (Python 2 [str]) *)

Module PyStr.

(** [s.rstrip(ch)]: drop every trailing occurrence of [ch]. *)
Fixpoint rstrip (ch : ascii) (s : string) : string :=
  match s with
  | EmptyString => EmptyString
  | String c t =>
      match rstrip ch t with
      | EmptyString => if Ascii.eqb c ch then EmptyString else String c EmptyString
      | t' => String c t'
      end
  end.

(** [s.split(sep)] for a one-character separator: always at least one
    piece, empty pieces are kept. *)
Fixpoint split (sep : ascii) (s : string) : list string :=
  match s with
  | EmptyString => [EmptyString]
  | String c t =>
      if Ascii.eqb c sep then EmptyString :: split sep t
      else match split sep t with
           | [] => [String c EmptyString]
           | w :: ws => String c w :: ws
           end
  end.

Definition is_digit (c : ascii) : bool :=
  let n := nat_of_ascii c in (48 <=? n)%nat && (n <=? 57)%nat.

Definition is_alpha (c : ascii) : bool :=
  let n := nat_of_ascii c in
  ((65 <=? n)%nat && (n <=? 90)%nat) || ((97 <=? n)%nat && (n <=? 122)%nat).

(** The characters [str.strip()] removes: space, \t, \n, \v, \f, \r. *)
Definition is_space (c : ascii) : bool :=
  let n := nat_of_ascii c in (n =? 32)%nat || ((9 <=? n)%nat && (n <=? 13)%nat).

Fixpoint all_chars (p : ascii -> bool) (s : string) : bool :=
  match s with
  | EmptyString => true
  | String c t => p c && all_chars p t
  end.

(** [s.isdigit()]: non-empty and made of decimal digits only. *)
Definition isdigit (s : string) : bool :=
  match s with
  | EmptyString => false
  | _ => all_chars is_digit s
  end.

(** [int(s)] on a string of decimal digits. *)
Fixpoint int_acc (acc : Z) (s : string) : Z :=
  match s with
  | EmptyString => acc
  | String c t => int_acc (10 * acc + (Z.of_nat (nat_of_ascii c) - 48)) t
  end.

Definition int (s : string) : Z := int_acc 0 s.

Fixpoint lstrip_ws (s : string) : string :=
  match s with
  | EmptyString => EmptyString
  | String c t => if is_space c then lstrip_ws t else s
  end.

Fixpoint rstrip_ws (s : string) : string :=
  match s with
  | EmptyString => EmptyString
  | String c t =>
      match rstrip_ws t with
      | EmptyString => if is_space c then EmptyString else String c EmptyString
      | t' => String c t'
      end
  end.

(** [s.strip()] *)
Definition strip (s : string) : string := rstrip_ws (lstrip_ws s).

(** The prefix of [s] before the first character satisfying [p]. *)
Fixpoint take_until (p : ascii -> bool) (s : string) : string :=
  match s with
  | EmptyString => EmptyString
  | String c t => if p c then EmptyString else String c (take_until p t)
  end.

Definition is_newline (c : ascii) : bool := (nat_of_ascii c =? 10)%nat.
Definition is_colon (c : ascii) : bool := (nat_of_ascii c =? 58)%nat.

(** [re.search] for a letter followed by any characters: the leftmost
    letter and everything after it up to the end of its line (the dot
    does not match a newline); [None] when [s] has no letter. *)
Fixpoint search_alpha (s : string) : option string :=
  match s with
  | EmptyString => None
  | String c t =>
      if is_alpha c then Some (String c (take_until is_newline t))
      else search_alpha t
  end.

(** [re.sub] of a colon followed by any characters with the empty
    string: every colon is deleted together with the rest of its line. *)
Fixpoint skip_line (s : string) : string :=
  match s with
  | EmptyString => EmptyString
  | String c t => if is_newline c then s else skip_line t
  end.

Fixpoint sub_colon_fuel (fuel : nat) (s : string) : string :=
  match fuel with
  | O => EmptyString
  | S fuel' =>
      match s with
      | EmptyString => EmptyString
      | String c t =>
          if is_colon c then sub_colon_fuel fuel' (skip_line t)
          else String c (sub_colon_fuel fuel' t)
      end
  end.

Definition sub_colon (s : string) : string := sub_colon_fuel (S (String.length s)) s.

Fixpoint chars (s : string) : list string :=
  match s with
  | EmptyString => []
  | String c t => String c EmptyString :: chars t
  end.

(** [x in s] for strings: [x] occurs in [s] as a substring. *)
Fixpoint is_prefix (x s : string) : bool :=
  match x, s with
  | EmptyString, _ => true
  | String a x', String b s' => Ascii.eqb a b && is_prefix x' s'
  | String _ _, EmptyString => false
  end.

Fixpoint contains (x s : string) : bool :=
  is_prefix x s ||
  match s with
  | EmptyString => false
  | String _ t => contains x t
  end.

End PyStr.

(** ** Values, objects and the store *)

Abbreviation loc := nat.

(** Immutable values are carried by value; lists and dictionaries are
    mutable objects and are carried by reference. *)
Inductive val : Type :=
| VNone
| VBool (b : bool)
| VInt (z : Z)
| VStr (s : string)
| VTuple (items : list val)
| VRef (r : loc).

(** A parsed keystring segment, and also a dictionary key: an integer or a
    string.  The empty string is the wildcard segment. *)
Inductive key : Type :=
| KInt (z : Z)
| KStr (s : string).

Inductive obj : Type :=
| OList (items : list val)
| ODict (entries : list (key * val)).

(** The store: location [r] holds the [r]-th object. *)
Abbreviation heap := (list obj).

(** The exceptions the two functions can meet.  [SystemError] stands for
    following a reference that points outside the store; no Python state
    has one, and no store without dangling references raises it. *)
Inductive exn : Type :=
| TypeError | KeyError | IndexError | ValueError | AssertionError
| AttributeError | RuntimeError
| SystemError.

Inductive result (A : Type) : Type :=
| Ok (a : A)
| Raise (e : exn).
Arguments Ok {A} a.
Arguments Raise {A} e.

(** Computations that read and write the store and may raise.  The store
    is returned in both cases: what was written before an exception stays
    written. *)
Definition M (A : Type) : Type := heap -> heap * result A.

Definition ret {A} (a : A) : M A := fun h => (h, Ok a).
Definition raise {A} (e : exn) : M A := fun h => (h, Raise e).
Definition bind {A B} (m : M A) (k : A -> M B) : M B :=
  fun h => match m h with
           | (h', Ok a) => k a h'
           | (h', Raise e) => (h', Raise e)
           end.

Notation "'let*' x ':=' m 'in' k" := (bind m (fun x => k))
  (at level 10, x pattern, m at level 100, k at level 200).

(** A computation that only reads the store. *)
Definition reading {A} (f : heap -> result A) : M A := fun h => (h, f h).

(** A new object is placed at the end of the store. *)
Definition alloc (o : obj) : M val := fun h => (h ++ [o], Ok (VRef (length h))).

Definition mapM {A B} (f : A -> M B) : list A -> M (list B) :=
  fix go (l : list A) : M (list B) :=
    match l with
    | [] => ret []
    | x :: xs => let* y := f x in let* ys := go xs in ret (y :: ys)
    end.

Definition key_eqb (a b : key) : bool :=
  match a, b with
  | KInt x, KInt y => Z.eqb x y
  | KStr x, KStr y => String.eqb x y
  | _, _ => false
  end.

Definition val_of_key (k : key) : val :=
  match k with
  | KInt z => VInt z
  | KStr s => VStr s
  end.

Fixpoint dict_get (d : list (key * val)) (k : key) : option val :=
  match d with
  | [] => None
  | (k', v) :: d' => if key_eqb k' k then Some v else dict_get d' k
  end.

(** [k in d] *)
Definition dict_mem (d : list (key * val)) (k : key) : bool :=
  match dict_get d k with Some _ => true | None => false end.

(** [l[z]] on a sequence: a negative index counts from the end. *)
Definition seq_index {A} (l : list A) (z : Z) : result A :=
  let i := if z <? 0 then z + Z.of_nat (length l) else z in
  if i <? 0 then Raise IndexError
  else match l !! Z.to_nat i with
       | Some x => Ok x
       | None => Raise IndexError
       end.

(** [container[k]] *)
Definition getitem (h : heap) (container : val) (k : key) : result val :=
  match container with
  | VNone | VBool _ | VInt _ => Raise TypeError
  | VStr s =>
      match k with
      | KInt z => seq_index (map VStr (PyStr.chars s)) z
      | KStr _ => Raise TypeError
      end
  | VTuple l =>
      match k with
      | KInt z => seq_index l z
      | KStr _ => Raise TypeError
      end
  | VRef r =>
      match h !! r with
      | Some (OList l) =>
          match k with
          | KInt z => seq_index l z
          | KStr _ => Raise TypeError
          end
      | Some (ODict d) =>
          match dict_get d k with
          | Some v => Ok v
          | None => Raise KeyError
          end
      | None => Raise SystemError
      end
  end.

(** [len(v)] *)
Definition py_len (h : heap) (v : val) : result nat :=
  match v with
  | VNone | VBool _ | VInt _ => Raise TypeError
  | VStr s => Ok (String.length s)
  | VTuple l => Ok (length l)
  | VRef r =>
      match h !! r with
      | Some (OList l) => Ok (length l)
      | Some (ODict d) => Ok (length d)
      | None => Raise SystemError
      end
  end.

(** [isinstance(v, dict)] *)
Definition is_dict (h : heap) (v : val) : bool :=
  match v with
  | VRef r => match h !! r with Some (ODict _) => true | _ => false end
  | _ => false
  end.

(** [hasattr(v, '__iter__')]: tuples, lists and dictionaries have the
    attribute; in Python 2 a [str] does not, nor do numbers and [None]. *)
Definition has_iter (v : val) : bool :=
  match v with
  | VTuple _ | VRef _ => true
  | _ => false
  end.

(** [for x in v]: the values the iteration yields. *)
Definition iterate (h : heap) (v : val) : result (list val) :=
  match v with
  | VNone | VBool _ | VInt _ => Raise TypeError
  | VStr s => Ok (map VStr (PyStr.chars s))
  | VTuple l => Ok l
  | VRef r =>
      match h !! r with
      | Some (OList l) => Ok l
      | Some (ODict d) => Ok (map (fun kv => val_of_key (fst kv)) d)
      | None => Raise SystemError
      end
  end.

(** ** access *)

Definition parse_segment (seg : string) : key :=
  if PyStr.isdigit seg then KInt (PyStr.int seg) else KStr seg.

Definition key_sequence (keystring : string) : list key :=
  map parse_segment (PyStr.split ":" (PyStr.rstrip ":" keystring)).

(** [key[0] == ''] *)
Definition is_wildcard (k : key) : bool :=
  match k with
  | KStr EmptyString => true
  | _ => false
  end.

(** [key[0] < len(container)]: in Python 2 a [str] never compares below
    an [int]. *)
Definition key_lt_len (k : key) (n : nat) : bool :=
  match k with
  | KInt z => z <? Z.of_nat n
  | KStr _ => false
  end.

Definition dict_entries (h : heap) (container : val) : list (key * val) :=
  match container with
  | VRef r => match h !! r with Some (ODict d) => d | _ => [] end
  | _ => []
  end.

(** The wildcard case: [items], the list collected over the elements of
    [container].  [descend] is [use_key] on the remaining segments and
    [more] is [len(key) > 1]. *)
Definition fan_out (descend : val -> M val) (more : bool) (container : val)
    : M (list val) :=
  fun h =>
    (if is_dict h container then
       mapM (fun k =>
               let* v := reading (fun h' => getitem h' container k) in
               if more then descend v else ret v)
            (map fst (dict_entries h container))
     else if has_iter container then
       let* elems := reading (fun h' => iterate h' container) in
       mapM descend elems
     else ret []) h.

(** The case of a single index or key. *)
Definition lookup_last (k0 : key) (container : val) : M val :=
  fun h =>
    (let* found :=
       if is_dict h container && dict_mem (dict_entries h container) k0 then ret true
       else if has_iter container then
         let* n := reading (fun h' => py_len h' container) in
         ret (key_lt_len k0 n)
       else ret false
     in
     if found : bool then reading (fun h' => getitem h' container k0)
     else ret VNone) h.

(** [use_key].  With no segment left, [key[0]] raises [IndexError].  The
    list [items] of the wildcard case is written to the store once it is
    complete: until the case returns nothing else can reach it. *)
Fixpoint use_key (key : list key) (container : val) {struct key} : M val :=
  match key with
  | [] => raise IndexError
  | k0 :: rest =>
      if is_wildcard k0 then
        let* items := fan_out (use_key rest) (1 <? length key)%nat container in
        alloc (OList items)
      else if (1 <? length key)%nat then
        let* v := reading (fun h => getitem h container k0) in
        use_key rest v
      else lookup_last k0 container
  end.

Definition access (keystring : string) (container : val) : M val :=
  use_key (key_sequence keystring) container.

(** ** Equality, hashing and ordering of values *)

Definition num_of (v : val) : option Z :=
  match v with
  | VBool b => Some (if b then 1 else 0)
  | VInt z => Some z
  | _ => None
  end.

(** [a == b].  [True == 1] and [False == 0] hold in Python; two references
    are compared by identity here, which is exact whenever one side holds
    no reference (a hashable value is never equal to a list or a
    dictionary). *)
Fixpoint py_eq (a b : val) {struct a} : bool :=
  match a, b with
  | VNone, VNone => true
  | VStr x, VStr y => String.eqb x y
  | VTuple la, VTuple lb =>
      (fix go (la lb : list val) {struct la} : bool :=
         match la, lb with
         | [], [] => true
         | x :: xs, y :: ys => py_eq x y && go xs ys
         | _, _ => false
         end) la lb
  | VRef r1, VRef r2 => Nat.eqb r1 r2
  | _, _ =>
      match num_of a, num_of b with
      | Some x, Some y => Z.eqb x y
      | _, _ => false
      end
  end.

(** [hash(v)] succeeds: lists and dictionaries are unhashable, and so is a
    tuple that holds one. *)
Fixpoint hashable (v : val) : bool :=
  match v with
  | VTuple l => forallb hashable l
  | VRef _ => false
  | _ => true
  end.

(** Python 2 orders values of different types: [None] first, then numbers,
    then by type name ([str] before [tuple]). *)
Definition type_rank (v : val) : nat :=
  match v with
  | VNone => 0
  | VBool _ | VInt _ => 1
  | VStr _ => 2
  | VTuple _ => 3
  | VRef _ => 4
  end.

(** [a < b] on hashable values. *)
Fixpoint py_lt (a b : val) {struct a} : bool :=
  match a, b with
  | VStr x, VStr y => String.ltb x y
  | VTuple la, VTuple lb =>
      (fix go (la lb : list val) {struct la} : bool :=
         match la, lb with
         | [], [] => false
         | [], _ :: _ => true
         | _ :: _, [] => false
         | x :: xs, y :: ys => if py_eq x y then go xs ys else py_lt x y
         end) la lb
  | _, _ =>
      match num_of a, num_of b with
      | Some x, Some y => Z.ltb x y
      | _, _ => Nat.ltb (type_rank a) (type_rank b)
      end
  end.

Fixpoint sort_insert (x : val) (l : list val) : list val :=
  match l with
  | [] => [x]
  | y :: l' => if py_lt x y then x :: y :: l' else y :: sort_insert x l'
  end.

(** [l.sort()], on values that are pairwise different: any stable
    sort gives the same list. *)
Definition py_sort (l : list val) : list val :=
  fold_left (fun acc x => sort_insert x acc) l [].

(** The elements a set built from [l] holds: a value equal to one already
    present is not added.  The order in which a set yields them is not
    fixed; [tablefy] sorts them before any use. *)
Definition py_set (l : list val) : list val :=
  fold_left (fun acc x => if existsb (fun y => py_eq y x) acc then acc else acc ++ [x]) l [].

(** Comparisons nest as deep as the structure does; Python gives up with a
    [RuntimeError] at its recursion limit. *)
Definition recursion_limit : nat := 1000.

(** [a == b] through the store: lists element by element, dictionaries
    entry by entry, an object always equal to itself. *)
Fixpoint py_eq_deep (fuel : nat) (h : heap) (a b : val) {struct fuel} : result bool :=
  match fuel with
  | O => Raise RuntimeError
  | S fuel' =>
      let all2 :=
        fix go (la lb : list val) {struct la} : result bool :=
          match la, lb with
          | [], [] => Ok true
          | x :: xs, y :: ys =>
              match py_eq_deep fuel' h x y with
              | Ok true => go xs ys
              | r => r
              end
          | _, _ => Ok false
          end in
      match a, b with
      | VTuple la, VTuple lb => all2 la lb
      | VRef r1, VRef r2 =>
          if Nat.eqb r1 r2 then Ok true
          else match h !! r1, h !! r2 with
               | Some (OList la), Some (OList lb) =>
                   if Nat.eqb (length la) (length lb) then all2 la lb else Ok false
               | Some (ODict da), Some (ODict db) =>
                   if Nat.eqb (length da) (length db) then
                     (fix go (da : list (key * val)) : result bool :=
                        match da with
                        | [] => Ok true
                        | (k, x) :: da' =>
                            match dict_get db k with
                            | None => Ok false
                            | Some y =>
                                match py_eq_deep fuel' h x y with
                                | Ok true => go da'
                                | r => r
                                end
                            end
                        end) da
                   else Ok false
               | None, _ | _, None => Raise SystemError
               | _, _ => Ok false
               end
      | _, _ => Ok (py_eq a b)
      end
  end.

(** [l.index(x)]: the first position holding a value equal to [x]. *)
Fixpoint py_index (h : heap) (l : list val) (x : val) : result nat :=
  match l with
  | [] => Raise ValueError
  | y :: l' =>
      match py_eq_deep recursion_limit h y x with
      | Ok true => Ok O
      | Ok false =>
          match py_index h l' x with
          | Ok i => Ok (S i)
          | Raise e => Raise e
          end
      | Raise e => Raise e
      end
  end.

(** [x in container] *)
Definition py_contains (h : heap) (x container : val) : result bool :=
  match container with
  | VNone | VBool _ | VInt _ => Raise TypeError
  | VStr s =>
      match x with
      | VStr t => Ok (PyStr.contains t s)
      | _ => Raise TypeError
      end
  | VTuple l => Ok (existsb (fun y => py_eq y x) l)
  | VRef r =>
      match h !! r with
      | Some (OList l) => Ok (existsb (fun y => py_eq y x) l)
      | Some (ODict d) => Ok (existsb (fun kv => py_eq (val_of_key (fst kv)) x) d)
      | None => Raise SystemError
      end
  end.

Fixpoint dict_set (d : list (key * val)) (k : key) (v : val) : list (key * val) :=
  match d with
  | [] => [(k, v)]
  | (k', v') :: d' => if key_eqb k' k then (k', v) :: d' else (k', v') :: dict_set d' k v
  end.

(** [container[k] = v] *)
Definition setitem (container : val) (k : key) (v : val) : M unit :=
  fun h =>
    match container with
    | VRef r =>
        match h !! r with
        | Some (OList l) =>
            match k with
            | KInt z =>
                let i := if z <? 0 then z + Z.of_nat (length l) else z in
                if (i <? 0) || (Z.of_nat (length l) <=? i) then (h, Raise IndexError)
                else (<[r := OList (<[Z.to_nat i := v]> l)]> h, Ok tt)
            | KStr _ => (h, Raise TypeError)
            end
        | Some (ODict d) => (<[r := ODict (dict_set d k v)]> h, Ok tt)
        | None => (h, Raise SystemError)
        end
    | _ => (h, Raise TypeError)
    end.

(** ** tablefy *)

(** [[expr.strip() for expr in keystring.split(',')]] *)
Definition keystrings_of (keystring : string) : list string :=
  map PyStr.strip (PyStr.split "," keystring).

(** [cols = [access(keystring_, struct) for keystring_ in keystrings]] *)
Definition get_columns (keystrings : list string) (struct : val) : M (list val) :=
  mapM (fun keystring_ => access keystring_ struct) keystrings.

(** [assert len(col)==len(cols[0])] *)
Definition check_length (cols : list val) (col : val) : M unit :=
  let* n := reading (fun h => py_len h col) in
  let* n0 := reading (fun h =>
                        match cols with
                        | c0 :: _ => py_len h c0
                        | [] => Raise IndexError
                        end) in
  if Nat.eqb n n0 then ret tt else raise AssertionError.

(** [for col in cols: assert len(col)==len(cols[0])] *)
Definition assert_same_length (cols : list val) : M unit :=
  let* _ := mapM (check_length cols) cols in
  ret tt.

(** The values of one set comprehension over a column: every entry is
    iterated and every item hashed. *)
Definition collect_items (col : val) : M (list val) :=
  let* entries := reading (fun h => iterate h col) in
  let* per_entry :=
    mapM (fun entry =>
            let* items := reading (fun h => iterate h entry) in
            if forallb hashable items then ret items else raise TypeError)
         entries in
  ret (concat per_entry).

(** [col[i] = map(lambda x: x in col[i], bool_names)] *)
Definition expand_entry (col : val) (bool_names : list val) (i : nat) : M unit :=
  let* flags :=
    mapM (fun x =>
            let* entry := reading (fun h => getitem h col (KInt (Z.of_nat i))) in
            let* b := reading (fun h => py_contains h x entry) in
            ret (VBool b))
         bool_names in
  let* fresh := alloc (OList flags) in
  setitem col (KInt (Z.of_nat i)) fresh.

(** One turn of the loop over [cols]: the entry added to [cols_expanded],
    if any. *)
Definition expand_column (cols : list val) (col : val) : M (option (nat * val)) :=
  let* first := reading (fun h => getitem h col (KInt 0)) in
  if has_iter first then
    let* items := collect_items col in
    let bool_names := py_sort (py_set items) in
    let* names := alloc (OList bool_names) in
    let* idx := reading (fun h => py_index h cols col) in
    let* n := reading (fun h => py_len h col) in
    let* _ := mapM (expand_entry col bool_names) (seq 0 n) in
    ret (Some (idx, names))
  else ret None.

Definition expand_columns (cols : list val) : M (list (nat * val)) :=
  let* found := mapM (expand_column cols) cols in
  ret (omap id found).

(** [for i, expansion in cols_expanded: header[i] = expansion] *)
Definition update_header (header : list val) (cols_expanded : list (nat * val)) : list val :=
  fold_left (fun hd ie => <[fst ie := snd ie]> hd) cols_expanded header.

Definition prettify_one (h : val) : result val :=
  match h with
  | VStr s =>
      match PyStr.search_alpha s with
      | None => Raise AttributeError
      | Some lstripped => Ok (VStr (PyStr.sub_colon lstripped))
      end
  | _ => Ok h
  end.

Definition prettify (header : list val) : M (list val) :=
  mapM (fun h => reading (fun _ => prettify_one h)) header.

(** [zip] applied to the unpacked [cols], on the sequences the columns
    yield: as many rows as the shortest column has entries. *)
Fixpoint heads (cols : list (list val)) : option (list val) :=
  match cols with
  | [] => Some []
  | c :: cs =>
      match c, heads cs with
      | x :: _, Some row => Some (x :: row)
      | _, _ => None
      end
  end.

Fixpoint zip_rows (n : nat) (cols : list (list val)) : list (list val) :=
  match n with
  | O => []
  | S n' =>
      match heads cols with
      | Some row => row :: zip_rows n' (map tail cols)
      | None => []
      end
  end.

Definition py_zip (cols : list (list val)) : list (list val) :=
  match cols with
  | [] => []
  | c :: _ => zip_rows (length c) cols
  end.

Definition flatten_row (row : list val) : M (list val) :=
  let* cells :=
    mapM (fun cell =>
            if has_iter cell then reading (fun h => iterate h cell)
            else ret [cell])
         row in
  ret (concat cells).

(** The table is returned as the list of its rows, each row as the
    sequence of its cells: the row containers are built by the call and
    nothing else refers to them. *)
Definition tablefy (keystring : string) (struct : val)
    (expand_lists_to_bool flatten_lists : bool) : M (list (list val)) :=
  let keystrings := keystrings_of keystring in
  let header := map VStr keystrings in
  let* cols := get_columns keystrings struct in
  let* _ := assert_same_length cols in
  let* cols_expanded :=
    if expand_lists_to_bool then expand_columns cols else ret [] in
  let header := update_header header cols_expanded in
  let* header := prettify header in
  let* data := let* seqs := mapM (fun col => reading (fun h => iterate h col)) cols in
               ret (py_zip seqs) in
  let rows := header :: data in
  if flatten_lists then mapM flatten_row rows else ret rows.

(** ** The device list: get_usb_devices, diff_lists, print_devices *)

(** [a + b]: numbers add, strings and tuples are joined by value, two
    lists give a new list. *)
Definition py_add (a b : val) : M val :=
  fun h =>
    match a, b with
    | VStr x, VStr y => (h, Ok (VStr (x ++ y)))
    | VTuple x, VTuple y => (h, Ok (VTuple (x ++ y)))
    | VRef r1, VRef r2 =>
        match h !! r1, h !! r2 with
        | Some (OList x), Some (OList y) => alloc (OList (x ++ y)) h
        | None, _ | _, None => (h, Raise SystemError)
        | _, _ => (h, Raise TypeError)
        end
    | _, _ =>
        match num_of a, num_of b with
        | Some x, Some y => (h, Ok (VInt (x + y)))
        | _, _ => (h, Raise TypeError)
        end
    end.

Definition foldM {A B} (f : B -> A -> M B) : list A -> B -> M B :=
  fix go (l : list A) (acc : B) : M B :=
    match l with
    | [] => ret acc
    | x :: xs => let* acc' := f acc x in go xs acc'
    end.

(** [reduce(f, seq)] without an initial value: an empty sequence is a
    [TypeError], a single item is returned as it is. *)
Definition py_reduce (f : val -> val -> M val) (seq : val) : M val :=
  let* items := reading (fun h => iterate h seq) in
  match items with
  | [] => raise TypeError
  | x :: xs => foldM f xs x
  end.

(** One turn of the loop of [get_usb_devices], on the description [dev]
    that [get_dev_info] gave: whether [dev] goes into [devices]. *)
Definition is_nonhub (dev : val) : M bool :=
  let* listed := reading (fun h => getitem h dev (KStr "classes")) in
  let* classes := py_reduce py_add listed in
  let* hub := reading (fun h => py_contains h (VStr "Hub") classes) in
  ret (negb hub).

Definition filterM {A} (keep : A -> M bool) : list A -> M (list A) :=
  fix go (l : list A) : M (list A) :=
    match l with
    | [] => ret []
    | x :: xs =>
        let* b := keep x in
        let* ys := go xs in
        ret (if b then x :: ys else ys)
    end.

(** [get_usb_devices].  What [lsusb] prints is outside the model: the
    argument is the list of the descriptions [get_dev_info] returns for
    the devices listed, in the order listed.  The answer is the new list
    [devices]. *)
Definition get_usb_devices (infos : list val) : M val :=
  let* devices := filterM is_nonhub infos in
  alloc (OList devices).

(** [x in container] with the comparison made through the store, as it is
    when [x] is itself a list or a dictionary. *)
Definition py_contains_deep (h : heap) (x container : val) : result bool :=
  let among :=
    fix go (l : list val) : result bool :=
      match l with
      | [] => Ok false
      | y :: l' =>
          match py_eq_deep recursion_limit h x y with
          | Ok true => Ok true
          | Ok false => go l'
          | Raise e => Raise e
          end
      end in
  match container with
  | VNone | VBool _ | VInt _ => Raise TypeError
  | VStr s =>
      match x with
      | VStr t => Ok (PyStr.contains t s)
      | _ => Raise TypeError
      end
  | VTuple l => among l
  | VRef r =>
      match h !! r with
      | Some (OList l) => among l
      | Some (ODict d) =>
          if hashable x
          then Ok (existsb (fun kv => py_eq (val_of_key (fst kv)) x) d)
          else Raise TypeError
      | None => Raise SystemError
      end
  end.

(** [[i for i in source if not i in other]] *)
Definition not_in (other : val) (source : val) : M val :=
  let* items := reading (fun h => iterate h source) in
  let* kept :=
    filterM (fun i =>
               let* found := reading (fun h => py_contains_deep h i other) in
               ret (negb found))
            items in
  alloc (OList kept).

(** [diff_lists] *)
Definition diff_lists (l1 l2 : val) : M val :=
  let* n1 := reading (fun h => py_len h l1) in
  let* n2 := reading (fun h => py_len h l2) in
  if (n2 <? n1)%nat then not_in l2 l1 else not_in l1 l2.

Definition TABLE_FORMAT : string :=
  ":idVendor:0, :idProduct:0, :idVendor:1, :idProduct:1, :serial:1, :classes::1".

(** [print_devices]: the rows it prints, in order.  [save_as_csv] hands
    the rows of the same call to its writer. *)
Definition print_devices (devices : val) : M (list (list val)) :=
  tablefy TABLE_FORMAT devices true true.

(** The script after its set-up, run with neither [--json] nor [--csv]:
    the devices are listed, the user is prompted, the devices are listed
    again, and the difference of the two lists is printed.  [before] and
    [after] are the descriptions [get_dev_info] gives at the two
    listings; the prompt itself changes nothing in the store. *)
Definition main (before after : list val) : M (list (list val)) :=
  let* old_devices := get_usb_devices before in
  let* new_devices := get_usb_devices after in
  let* devices := diff_lists old_devices new_devices in
  print_devices devices.

(** ** Predicates used in the statements *)

(** What [isdigit] decides. *)
Definition all_digits (seg : string) : Prop :=
  seg <> EmptyString /\
  Forall (fun c => (48 <= nat_of_ascii c <= 57)%nat) (list_ascii_of_string seg).

(** The string holds no ASCII letter. *)
Definition no_letter (s : string) : Prop :=
  Forall (fun c => PyStr.is_alpha c = false) (list_ascii_of_string s).

(** The first segment of the expression is the wildcard. *)
Definition leading_wildcard (keystring : string) : bool :=
  match key_sequence keystring with
  | k :: _ => is_wildcard k
  | [] => false
  end.

(** Not a mapping and without the iteration attribute. *)
Definition is_scalar (v : val) : bool := negb (has_iter v).

(** Every object of [h0] is still in place, unchanged, after [m]: the
    computation may allocate and may write to objects outside [h0] only. *)
Definition keeps {A} (h0 : heap) (m : M A) : Prop :=
  forall h, h0 `prefix_of` h -> h0 `prefix_of` (m h).1.


(** Every reference inside the value points below [n]. *)
Fixpoint wf_val (n : nat) (v : val) : bool :=
  match v with
  | VRef l => (l <? n)%nat
  | VTuple items => forallb (wf_val n) items
  | _ => true
  end.

Definition wf_obj (n : nat) (o : obj) : bool :=
  match o with
  | OList items => forallb (wf_val n) items
  | ODict entries => forallb (fun kv => wf_val n (snd kv)) entries
  end.

(** No object of the store holds a dangling reference. *)
Definition wf_heap (h : heap) : bool := forallb (wf_obj (length h)) h.

(** What a step of the traversal guarantees on a store without dangling
    references: the store only grows, stays without dangling references,
    and the value handed back is one of its values. *)
Definition sound {A} (good : nat -> A -> Prop) (h : heap) (out : heap * result A) : Prop :=
  h `prefix_of` out.1 /\ wf_heap out.1 = true /\
  forall a, out.2 = Ok a -> good (length out.1) a.

Definition good_val (n : nat) (v : val) : Prop := wf_val n v = true.
Definition good_vals (n : nat) (l : list val) : Prop := forallb (wf_val n) l = true.

(** The string holds an ASCII letter. *)
Definition has_letter (s : string) : Prop :=
  Exists (fun c => PyStr.is_alpha c = true) (list_ascii_of_string s).

(** Unfold the store operations and use what is known of one location. *)
Ltac look_at H :=
  repeat (progress (simpl;
                    unfold bind, fan_out, lookup_last, reading, is_dict,
                      dict_entries, iterate, py_len, getitem;
                    rewrite ?H)).

(** The cells an entry of a row gives once the row is flattened: its
    elements if the entry is iterable, the entry itself otherwise. *)
Definition spliced (h : heap) (entry : val) (cells : list val) : Prop :=
  if has_iter entry then iterate h entry = Ok cells else cells = [entry].

(** Every list of [h] is still a list in [h'], with as many entries. *)
Definition same_sizes (h h' : heap) : Prop :=
  forall r l, h !! r = Some (OList l) ->
    exists l', h' !! r = Some (OList l') /\ length l' = length l.

(** The computation never changes the number of entries of a list. *)
Definition keeps_sizes {A} (m : M A) : Prop :=
  forall h, same_sizes h (m h).1.

(** The computation never changes the store. *)
Definition quiet {A} (m : M A) : Prop :=
  forall h, (m h).1 = h.

(** ** Predicates used in the further properties *)

(** Python's chained indexing [c[k1][k2]...]. *)
Fixpoint index_path (h : heap) (c : val) (keys : list key) : result val :=
  match keys with
  | [] => Ok c
  | k :: keys' =>
      match getitem h c k with
      | Ok v => index_path h v keys'
      | Raise e => Raise e
      end
  end.

(** The string holds no colon. *)
Definition colon_free (s : string) : Prop :=
  Forall (fun c => c <> ":"%char) (list_ascii_of_string s).

(** A segment that stays a string key: not empty, without colon, not made
    of digits only. *)
Definition plain_key (s : string) : Prop :=
  s <> EmptyString /\ colon_free s /\ ~ all_digits s.

(** The string holds no comma. *)
Definition comma_free (s : string) : Prop :=
  Forall (fun c => c <> ","%char) (list_ascii_of_string s).

(** The string holds neither a colon nor a newline. *)
Definition label_text (s : string) : Prop :=
  Forall (fun c => PyStr.is_colon c = false /\ PyStr.is_newline c = false)
         (list_ascii_of_string s).

(** [dev] is a description as [get_dev_info] builds it, as far as
    [get_usb_devices] looks: a dictionary whose entry ["classes"] is a
    list, here [classes], of tuples. *)
Definition device_with (h : heap) (dev : val) (classes : list (list val)) : Prop :=
  exists d entries c,
    dev = VRef d /\ h !! d = Some (ODict entries) /\
    dict_get entries (KStr "classes") = Some (VRef c) /\
    h !! c = Some (OList (map VTuple classes)).

(** Some interface of the device has the class code or the class name
    ["Hub"]. *)
Definition mentions_hub (classes : list (list val)) : bool :=
  existsb (fun t => existsb (fun y => py_eq y (VStr "Hub")) t) classes.

(** Every comparison [x == y] that [x in other] may need is decided. *)
Definition comparable (h : heap) (x : val) (others : list val) : Prop :=
  Forall (fun y => exists b, py_eq_deep recursion_limit h x y = Ok b) others.

(** [x == y] is decided and true. *)
Definition equal_in (h : heap) (x y : val) : bool :=
  match py_eq_deep recursion_limit h x y with
  | Ok true => true
  | _ => false
  end.

(** What [diff_lists] keeps: the elements of [source] equal to no element
    of [others]. *)
Definition left_over (h : heap) (source others : list val) : list val :=
  List.filter (fun x => negb (existsb (equal_in h x) others)) source.

(** Two values with the same content: equal scalars, tuples and lists
    with the same content position by position, dictionaries with the
    same keys in the same order and the same content under each key. *)
Inductive same_value (h : heap) : val -> val -> Prop :=
| same_scalar (v : val) :
    is_scalar v = true -> same_value h v v
| same_tuple (l1 l2 : list val) :
    Forall2 (same_value h) l1 l2 -> same_value h (VTuple l1) (VTuple l2)
| same_list (r1 r2 : loc) (l1 l2 : list val) :
    h !! r1 = Some (OList l1) -> h !! r2 = Some (OList l2) ->
    Forall2 (same_value h) l1 l2 -> same_value h (VRef r1) (VRef r2)
| same_dict (r1 r2 : loc) (d1 d2 : list (key * val)) :
    h !! r1 = Some (ODict d1) -> h !! r2 = Some (ODict d2) ->
    map fst d1 = map fst d2 -> NoDup (map fst d2) ->
    Forall2 (same_value h) (map snd d1) (map snd d2) ->
    same_value h (VRef r1) (VRef r2).

(** The booleans that stand for an entry holding [items]: for each name,
    whether it is among the items. *)
Definition flags_for (names items : list val) : list val :=
  map (fun x => VBool (existsb (fun y => py_eq y x) items)) names.

(** [entry] is a tuple, or a list other than the column at [l], and it
    holds [items], all of them hashable. *)
Definition entry_holds (h : heap) (l : loc) (entry : val) (items : list val) : Prop :=
  forallb hashable items = true /\
  (entry = VTuple items \/
   exists m, entry = VRef m /\ m <> l /\ h !! m = Some (OList items)).

(** The store after [i] turns of the loop that rewrites the entries of
    the column at [l]: [h0] is the store the loop started from. *)
Definition rewritten (h0 : heap) (l : loc) (entries : list val)
    (itemss : list (list val)) (names : list val) (i : nat) (hi : heap) : Prop :=
  length hi = (length h0 + i)%nat /\
  hi !! l = Some (OList (map VRef (seq (length h0) i) ++ drop i entries)) /\
  (forall m, (m < length h0)%nat -> m <> l -> hi !! m = h0 !! m) /\
  (forall j items, (j < i)%nat -> itemss !! j = Some items ->
                   hi !! (length h0 + j)%nat = Some (OList (flags_for names items))).

(** The entries at position [j] of the columns [seqs]. *)
Definition row_of (seqs : list (list val)) (j : nat) : list val :=
  omap (fun c => c !! j) seqs.

(** The column at [lc] holds the [n] entries [entries], all scalar. *)
Definition scalar_column (h : heap) (n : nat) (lc : loc) (entries : list val) : Prop :=
  h !! lc = Some (OList entries) /\ length entries = n /\
  Forall (fun v => is_scalar v = true) entries.

(** What [get_dev_info] records of a device: vendor, product and serial
    as pairs of a code and a name, and the interface classes as pairs
    of a code and a name. *)
Record device := Device {
  vendor : string * string;
  product : string * string;
  serial : string * string;
  classes : list (string * string)
}.

Definition pair_val (p : string * string) : val := VTuple [VStr (fst p); VStr (snd p)].

(** [dev] is the dictionary [get_dev_info] builds for [d]. *)
Definition describes (h : heap) (dev : val) (d : device) : Prop :=
  exists r entries c,
    dev = VRef r /\ h !! r = Some (ODict entries) /\
    dict_get entries (KStr "idVendor") = Some (pair_val (vendor d)) /\
    dict_get entries (KStr "idProduct") = Some (pair_val (product d)) /\
    dict_get entries (KStr "serial") = Some (pair_val (serial d)) /\
    dict_get entries (KStr "classes") = Some (VRef c) /\
    h !! c = Some (OList (map pair_val (classes d))).

(** The names of the interface classes of a device. *)
Definition class_names (d : device) : list val :=
  map (fun p => VStr (snd p)) (classes d).

(** The cells of a device before the class columns: vendor code,
    product code, vendor name, product name, serial. *)
Definition device_cells (d : device) : list val :=
  [VStr (fst (vendor d)); VStr (fst (product d));
   VStr (snd (vendor d)); VStr (snd (product d)); VStr (snd (serial d))].

(** The class columns of the table of [ds]: the distinct class names of
    all the devices, in sorted order. *)
Definition class_header (ds : list device) : list val :=
  py_sort (py_set (concat (map class_names ds))).

(** [dev] is exactly the dictionary [get_dev_info] builds for [d], its
    four entries in the order they are set. *)
Definition built (h : heap) (dev : val) (d : device) : Prop :=
  exists r c,
    dev = VRef r /\
    h !! r = Some (ODict [(KStr "idVendor", pair_val (vendor d));
                          (KStr "idProduct", pair_val (product d));
                          (KStr "classes", VRef c);
                          (KStr "serial", pair_val (serial d))]) /\
    h !! c = Some (OList (map pair_val (classes d))).

(** Some interface of the device has the class code or name ["Hub"]. *)
Definition is_hub (d : device) : bool :=
  mentions_hub (map (fun p => [VStr (fst p); VStr (snd p)]) (classes d)).

#[global] Instance device_eq_dec : EqDecision device.
Proof. solve_decision. Defined.

(** The devices of [ds1] or of [ds2] that the other list does not have:
    taken from [ds1] if it is the longer list, from [ds2] otherwise. *)
Definition changed (ds1 ds2 : list device) : list device :=
  if (length ds2 <? length ds1)%nat
  then List.filter (fun d => negb (bool_decide (elem_of d ds2))) ds1
  else List.filter (fun d => negb (bool_decide (elem_of d ds1))) ds2.

(** The table of the devices [ds]: the header, then one row per device. *)
Definition device_table (ds : list device) : list (list val) :=
  (map VStr ["idVendor"; "idProduct"; "idVendor"; "idProduct"; "serial"]%string
   ++ class_header ds)
  :: map (fun d => device_cells d ++ flags_for (class_header ds) (class_names d)) ds.

(** ** Example inputs *)

Module Ex.

(** [[{"x": 1}, {"x": 2}, {}]] at location 3. *)
Definition three_records : heap :=
  [ODict [(KStr "x", VInt 1)]; ODict [(KStr "x", VInt 2)]; ODict [];
   OList [VRef 0%nat; VRef 1%nat; VRef 2%nat]].

(** [[1, 2]] at location 0. *)
Definition two_ints : heap := [OList [VInt 1; VInt 2]].

(** [{"a": 1, "b": 2}] at location 0. *)
Definition two_entries : heap := [ODict [(KStr "a", VInt 1); (KStr "b", VInt 2)]].

(** [{"a": 1}] at location 0. *)
Definition one_entry : heap := [ODict [(KStr "a", VInt 1)]].

(** [{}] at location 0. *)
Definition empty_dict : heap := [ODict []].

(** [[{"n": "x", "c": (1, 2)}, {"n": "y", "c": (1,)}]] at location 2. *)
Definition ragged_records : heap :=
  [ODict [(KStr "n", VStr "x"); (KStr "c", VTuple [VInt 1; VInt 2])];
   ODict [(KStr "n", VStr "y"); (KStr "c", VTuple [VInt 1])];
   OList [VRef 0%nat; VRef 1%nat]].

(** [[{"c": 1}, {"c": (1, 2)}]] at location 2. *)
Definition late_tuple : heap :=
  [ODict [(KStr "c", VInt 1)];
   ODict [(KStr "c", VTuple [VInt 1; VInt 2])];
   OList [VRef 0%nat; VRef 1%nat]].

(** [[{"n": "x", "m": 1}, {"n": "y", "m": 2}, {"n": "z"}]] at location 3. *)
Definition flat_records : heap :=
  [ODict [(KStr "n", VStr "x"); (KStr "m", VInt 1)];
   ODict [(KStr "n", VStr "y"); (KStr "m", VInt 2)];
   ODict [(KStr "n", VStr "z")];
   OList [VRef 0%nat; VRef 1%nat; VRef 2%nat]].

(** [[{"c": ["A", "B"]}, {"c": ["B"]}]] at location 4. *)
Definition class_records : heap :=
  [OList [VStr "A"; VStr "B"]; OList [VStr "B"];
   ODict [(KStr "c", VRef 0%nat)]; ODict [(KStr "c", VRef 1%nat)];
   OList [VRef 2%nat; VRef 3%nat]].

(** [[{"c": [True]}]] at location 2. *)
Definition flag_record : heap :=
  [OList [VBool true]; ODict [(KStr "c", VRef 0%nat)]; OList [VRef 1%nat]].

(** [[[[1, 2], [2]]]] at location 3: one record holding a list of lists. *)
Definition nested_lists : heap :=
  [OList [VInt 1; VInt 2]; OList [VInt 2];
   OList [VRef 0%nat; VRef 1%nat]; OList [VRef 2%nat]].

(** [[{"a": [1, 2], "b": [1, 2, 3]}]] at location 3. *)
Definition uneven : heap :=
  [OList [VInt 1; VInt 2]; OList [VInt 1; VInt 2; VInt 3];
   ODict [(KStr "a", VRef 0%nat); (KStr "b", VRef 1%nat)]; OList [VRef 2%nat]].

(** Two devices as [get_dev_info] describes them, a board at location 1
    and a hub at location 3, and at location 5 a device without any
    interface class. *)
Definition usb : heap :=
  [OList [VTuple [VStr "8"; VStr "Mass Storage"];
          VTuple [VStr "3"; VStr "Human Interface Device"]];
   ODict [(KStr "idVendor", VTuple [VStr "0x0d28"; VStr "NXP"]);
          (KStr "idProduct", VTuple [VStr "0x0204"; VStr "LPC1768"]);
          (KStr "classes", VRef 0%nat);
          (KStr "serial", VTuple [VStr "3"; VStr "10105a42"])];
   OList [VTuple [VStr "9"; VStr "Hub"]];
   ODict [(KStr "idVendor", VTuple [VStr "0x1d6b"; VStr "Linux Foundation"]);
          (KStr "idProduct", VTuple [VStr "0x0002"; VStr "2.0 root hub"]);
          (KStr "classes", VRef 2%nat);
          (KStr "serial", VTuple [VStr "1"; VStr "0000:00:14.0"])];
   OList [];
   ODict [(KStr "classes", VRef 4%nat)]].

(** The interface classes of the devices of [usb]. *)
Definition usb_classes (dev : val) : list (list val) :=
  match dev with
  | VRef 1%nat => [[VStr "8"; VStr "Mass Storage"]; [VStr "3"; VStr "Human Interface Device"]]
  | VRef 3%nat => [[VStr "9"; VStr "Hub"]]
  | _ => []
  end.

(** [usb] with two more lists: [[board, hub]] at location 6 and [[hub]]
    at location 7. *)
Definition usb_lists : heap :=
  usb ++ [OList [VRef 1%nat; VRef 3%nat]; OList [VRef 3%nat]].

(** One board described twice by different objects with the same
    content, at locations 1 and 5, the list of the first at location 6
    and the list of the second at location 7. *)
Definition same_devices : heap :=
  [OList [VTuple [VStr "8"; VStr "Mass Storage"]];
   ODict [(KStr "serial", VTuple [VStr "3"; VStr "10105a42"]);
          (KStr "classes", VRef 0%nat)];
   OList []; OList [];
   OList [VTuple [VStr "8"; VStr "Mass Storage"]];
   ODict [(KStr "serial", VTuple [VStr "3"; VStr "10105a42"]);
          (KStr "classes", VRef 4%nat)];
   OList [VRef 1%nat];
   OList [VRef 5%nat]].

(** [[]] at location 0: no device. *)
Definition no_device : heap := [OList []].

(** [{"0": 7}] at location 0. *)
Definition digit_key : heap := [ODict [(KStr "0", VInt 7)]].

(** [{"a": {"b": 5}}] at location 1. *)
Definition nested_dict : heap :=
  [ODict [(KStr "b", VInt 5)]; ODict [(KStr "a", VRef 0%nat)]].

(** The two devices of [usb] as [get_dev_info] records them. *)
Definition board : device :=
  Device ("0x0d28", "NXP") ("0x0204", "LPC1768") ("3", "10105a42")
         [("8", "Mass Storage"); ("3", "Human Interface Device")]%string.

Definition root_hub : device :=
  Device ("0x1d6b", "Linux Foundation") ("0x0002", "2.0 root hub")
         ("1", "0000:00:14.0") [("9", "Hub")]%string.

End Ex.

(** * Properties *)

(** ** Keystring parsing *)

Section Parsing.

Lemma rstrip_snoc (ch : ascii) (s : string) :
  PyStr.rstrip ch (s ++ String ch EmptyString) = PyStr.rstrip ch s.
Proof.
  induction s as [|c t IH]; simpl.
  - now rewrite Ascii.eqb_refl.
  - now rewrite IH.
Qed.

Lemma rstrip_nonempty_app (ch : ascii) (a b : string) :
  PyStr.rstrip ch b <> EmptyString ->
  PyStr.rstrip ch (a ++ b) = (a ++ PyStr.rstrip ch b)%string.
Proof.
  intros Hb. induction a as [|c t IH]; [reflexivity|].
  change (String c t ++ b)%string with (String c (t ++ b)%string).
  change (String c t ++ PyStr.rstrip ch b)%string
    with (String c (t ++ PyStr.rstrip ch b)%string).
  simpl. rewrite IH.
  destruct (t ++ PyStr.rstrip ch b)%string eqn:E; [|reflexivity].
  destruct t; [contradiction | discriminate].
Qed.

Lemma split_nonempty (sep : ascii) (s : string) : PyStr.split sep s <> [].
Proof.
  induction s as [|c t IH]; simpl; [discriminate|].
  destruct (Ascii.eqb c sep); [discriminate|].
  destruct (PyStr.split sep t); discriminate.
Qed.

Lemma split_app_sep (sep : ascii) (a b : string) :
  PyStr.split sep (a ++ String sep b) = PyStr.split sep a ++ PyStr.split sep b.
Proof.
  induction a as [|c t IH]; simpl.
  - now rewrite Ascii.eqb_refl.
  - destruct (Ascii.eqb c sep); [now rewrite IH|].
    rewrite IH. pose proof (split_nonempty sep t) as Hne.
    destruct (PyStr.split sep t); [contradiction | reflexivity].
Qed.

Lemma all_chars_digit (s : string) :
  PyStr.all_chars PyStr.is_digit s = true <->
  Forall (fun c => (48 <= nat_of_ascii c <= 57)%nat) (list_ascii_of_string s).
Proof.
  induction s as [|c t IH]; simpl.
  - split; [constructor | reflexivity].
  - rewrite andb_true_iff, IH. unfold PyStr.is_digit.
    rewrite andb_true_iff, !Nat.leb_le. split.
    + intros [Hc Ht]. now constructor.
    + intros H. inversion H; subst. now split.
Qed.

Lemma isdigit_spec (seg : string) : PyStr.isdigit seg = true <-> all_digits seg.
Proof.
  unfold all_digits. destruct seg as [|c t].
  - simpl. split; [discriminate | intros [H _]; contradiction].
  - unfold PyStr.isdigit. rewrite all_chars_digit. split.
    + intros H. split; [discriminate | exact H].
    + intros [_ H]. exact H.
Qed.

Lemma parse_segment_digits (seg : string) :
  all_digits seg -> parse_segment seg = KInt (PyStr.int seg).
Proof.
  intros H. apply isdigit_spec in H. unfold parse_segment. now rewrite H.
Qed.

Lemma parse_segment_other (seg : string) :
  ~ all_digits seg -> parse_segment seg = KStr seg.
Proof.
  intros H. unfold parse_segment.
  destruct (PyStr.isdigit seg) eqn:E; [|reflexivity].
  apply isdigit_spec in E. contradiction.
Qed.

Lemma key_sequence_snoc_colon (p : string) :
  key_sequence (p ++ ":") = key_sequence p.
Proof. unfold key_sequence. now rewrite rstrip_snoc. Qed.

Lemma key_sequence_inner_empty (a b : string) :
  PyStr.rstrip ":" b <> EmptyString ->
  key_sequence (a ++ String ":" (String ":" b))
  = map parse_segment (PyStr.split ":" a) ++ KStr "" :: key_sequence b.
Proof.
  intros Hb. unfold key_sequence.
  assert (R : PyStr.rstrip ":" (String ":" (String ":" b))
              = String ":" (String ":" (PyStr.rstrip ":" b))).
  { simpl. destruct (PyStr.rstrip ":" b); [contradiction | reflexivity]. }
  rewrite rstrip_nonempty_app by (rewrite R; discriminate).
  rewrite R, split_app_sep, map_app. reflexivity.
Qed.

Lemma split_last_tail (sep c : ascii) (s : string) :
  last (PyStr.split sep (String c s)) = Some EmptyString ->
  last (PyStr.split sep s) = Some EmptyString.
Proof.
  simpl. pose proof (split_nonempty sep s) as Hne.
  destruct (Ascii.eqb c sep);
    destruct (PyStr.split sep s) as [|w ws]; try contradiction.
  - simpl. auto.
  - destruct ws as [|w' ws]; simpl; [discriminate | auto].
Qed.

Lemma split_last_empty (s : string) :
  last (PyStr.split ":" (PyStr.rstrip ":" s)) = Some EmptyString ->
  PyStr.rstrip ":" s = EmptyString.
Proof.
  induction s as [|c t IH]; simpl; [reflexivity|].
  destruct (PyStr.rstrip ":" t) as [|a b] eqn:Et.
  - destruct (Ascii.eqb c ":") eqn:Ec; [reflexivity|].
    simpl. rewrite Ec. simpl. discriminate.
  - intros Hlast%split_last_tail. specialize (IH Hlast). discriminate.
Qed.

Lemma parse_segment_wildcard (seg : string) :
  is_wildcard (parse_segment seg) = true -> seg = EmptyString.
Proof.
  unfold parse_segment. destruct (PyStr.isdigit seg); [discriminate|].
  destruct seg; [reflexivity | discriminate].
Qed.

Lemma key_sequence_final_wildcard (p : string) (ks : list key) (k : key) :
  key_sequence p = ks ++ [k] -> is_wildcard k = true -> ks = [].
Proof.
  unfold key_sequence. intros E Hk.
  assert (Hlast : last (PyStr.split ":" (PyStr.rstrip ":" p)) = Some EmptyString).
  { assert (Hl : last (map parse_segment (PyStr.split ":" (PyStr.rstrip ":" p))) = Some k)
      by (rewrite E; apply last_snoc).
    rewrite fmap_last in Hl.
    destruct (last (PyStr.split ":" (PyStr.rstrip ":" p))) as [seg|]; [|discriminate].
    simpl in Hl. injection Hl as <-. now rewrite (parse_segment_wildcard seg Hk). }
  apply split_last_empty in Hlast. rewrite Hlast in E. simpl in E.
  destruct ks as [|k' ks]; [reflexivity|].
  destruct ks; discriminate.
Qed.

End Parsing.

(** ** Computations that leave a store in place *)

Section Keeps.
Context (h0 : heap).

Lemma keeps_ret {A} (a : A) : keeps h0 (ret a).
Proof. intros h Hh. exact Hh. Qed.

Lemma keeps_raise {A} (e : exn) : keeps h0 (raise e : M A).
Proof. intros h Hh. exact Hh. Qed.

Lemma keeps_reading {A} (f : heap -> result A) : keeps h0 (reading f).
Proof. intros h Hh. exact Hh. Qed.

Lemma keeps_alloc (o : obj) : keeps h0 (alloc o).
Proof. intros h Hh. simpl. now apply prefix_app_r. Qed.

Lemma keeps_bind {A B} (m : M A) (k : A -> M B) :
  keeps h0 m -> (forall a, keeps h0 (k a)) -> keeps h0 (bind m k).
Proof.
  intros Hm Hk h Hh. unfold bind. specialize (Hm h Hh).
  destruct (m h) as [h' [a|e]]; simpl in *; [now apply Hk | exact Hm].
Qed.


Lemma keeps_mapM {A B} (f : A -> M B) (l : list A) :
  (forall x, In x l -> keeps h0 (f x)) -> keeps h0 (mapM f l).
Proof.
  induction l as [|x xs IH]; intros Hf; simpl.
  - apply keeps_ret.
  - apply keeps_bind; [apply Hf; now left|].
    intros y. apply keeps_bind; [|intros ys; apply keeps_ret].
    apply IH. intros x' Hx'. apply Hf. now right.
Qed.

(** A computation chosen by looking at the current store. *)
Lemma keeps_peek {A} (F : heap -> M A) :
  (forall h', keeps h0 (F h')) -> keeps h0 (fun h => F h h).
Proof. intros HF h Hh. exact (HF h h Hh). Qed.

Lemma fan_out_keeps (descend : val -> M val) (more : bool) (container : val) :
  (forall v, keeps h0 (descend v)) -> keeps h0 (fan_out descend more container).
Proof.
  intros Hd. apply (keeps_peek (fun h' => if is_dict h' container then _ else _)).
  intros h'. destruct (is_dict h' container).
  - apply keeps_mapM. intros k _.
    apply keeps_bind; [apply keeps_reading|]. intros v.
    destruct more; [apply Hd | apply keeps_ret].
  - destruct (has_iter container); [|apply keeps_ret].
    apply keeps_bind; [apply keeps_reading|]. intros elems.
    apply keeps_mapM. intros x _. apply Hd.
Qed.

Lemma lookup_last_keeps (k0 : key) (container : val) :
  keeps h0 (lookup_last k0 container).
Proof.
  apply (keeps_peek (fun h' => bind _ _)). intros h'.
  apply keeps_bind.
  - destruct (_ && _); [apply keeps_ret|].
    destruct (has_iter container); [|apply keeps_ret].
    apply keeps_bind; [apply keeps_reading|]. intros n. apply keeps_ret.
  - intros [|]; [apply keeps_reading | apply keeps_ret].
Qed.

Lemma use_key_keeps (key : list key) :
  forall container, keeps h0 (use_key key container).
Proof.
  induction key as [|k0 rest IH]; intros container; simpl.
  - apply keeps_raise.
  - destruct (is_wildcard k0).
    + apply keeps_bind; [now apply fan_out_keeps|].
      intros items. apply keeps_alloc.
    + destruct (1 <? _)%nat.
      * apply keeps_bind; [apply keeps_reading|]. intros v. apply IH.
      * apply lookup_last_keeps.
Qed.

Lemma access_keeps (keystring : string) (container : val) :
  keeps h0 (access keystring container).
Proof. apply use_key_keeps. Qed.

End Keeps.

Section KeepsTable.
Context (h0 : heap).

Lemma get_columns_keeps (keystrings : list string) (struct : val) :
  keeps h0 (get_columns keystrings struct).
Proof. apply keeps_mapM. intros ks _. apply access_keeps. Qed.











End KeepsTable.

Lemma bind_ok {A B} (m : M A) (k : A -> M B) (h h' : heap) (a : A) :
  m h = (h', Ok a) -> bind m k h = k a h'.
Proof. intros E. unfold bind. now rewrite E. Qed.

Lemma bind_raise {A B} (m : M A) (k : A -> M B) (h h' : heap) (e : exn) :
  m h = (h', Raise e) -> bind m k h = (h', Raise e).
Proof. intros E. unfold bind. now rewrite E. Qed.

Lemma mapM_length {A B} (f : A -> M B) (l : list A) :
  forall h h' ys, mapM f l h = (h', Ok ys) -> length ys = length l.
Proof.
  induction l as [|x xs IH]; intros h h' ys; simpl.
  - intros [= _ <-]. reflexivity.
  - unfold bind at 1. destruct (f x h) as [h1 [y|e]]; [|discriminate].
    unfold bind at 1. destruct (mapM f xs h1) as [h2 [ys'|e]] eqn:E; [|discriminate].
    intros [= _ <-]. simpl. f_equal. eapply IH, E.
Qed.

Lemma mapM_pure {A B} (f : A -> M B) (g : A -> B) (h : heap) (l : list A) :
  Forall (fun x => f x h = (h, Ok (g x))) l ->
  mapM f l h = (h, Ok (map g l)).
Proof.
  induction 1 as [|x l Hx Hl IH]; simpl; [reflexivity|].
  now rewrite (bind_ok _ _ _ _ _ Hx), (bind_ok _ _ _ _ _ IH).
Qed.

Lemma mapM_each {A B} (f : A -> M B) (h : heap) (xs : list A) (ys : list B) :
  Forall2 (fun x y => f x h = (h, Ok y)) xs ys ->
  mapM f xs h = (h, Ok ys).
Proof.
  induction 1 as [|x y xs ys Hx _ IH]; simpl; [reflexivity|].
  now rewrite (bind_ok _ _ _ _ _ Hx), (bind_ok _ _ _ _ _ IH).
Qed.

Section FreshColumns.
Context (h0 : heap).




End FreshColumns.

(** ** access *)

Section AccessCases.

Lemma fan_out_scalar (descend : val -> M val) (more : bool) (container : val) (h : heap) :
  is_scalar container = true -> fan_out descend more container h = (h, Ok []).
Proof.
  unfold is_scalar, fan_out. intros Hs.
  destruct container; try discriminate; reflexivity.
Qed.

(** A wildcard that is the only segment left, on a list that is not
    empty: the element is handed to [use_key] with no segment at all. *)
Lemma trailing_wildcard_on_list (r : loc) (x : val) (l : list val) (h : heap) :
  h !! r = Some (OList (x :: l)) ->
  use_key [KStr ""] (VRef r) h = (h, Raise IndexError).
Proof.
  intros Hr. look_at Hr. reflexivity.
Qed.

(** The last segment is a string that is not a key of the dictionary. *)
Lemma absent_string_key (r : loc) (d : list (key * val)) (s : string) (h : heap) :
  h !! r = Some (ODict d) -> s <> EmptyString -> dict_mem d (KStr s) = false ->
  use_key [KStr s] (VRef r) h = (h, Ok VNone).
Proof.
  intros Hr Hs Hm. destruct s as [|c t]; [contradiction|].
  look_at Hr. rewrite Hm. look_at Hr. reflexivity.
Qed.

(** The last segment is an index past the end of the list. *)
Lemma index_past_the_end (r : loc) (l : list val) (z : Z) (h : heap) :
  h !! r = Some (OList l) -> Z.of_nat (length l) <= z ->
  use_key [KInt z] (VRef r) h = (h, Ok VNone).
Proof.
  intros Hr Hz. look_at Hr.
  destruct (Z.ltb_spec z (Z.of_nat (length l))); [lia | reflexivity].
Qed.

(** The last segment is an integer that is not a key of the dictionary
    but is smaller than its size: the lookup is attempted. *)
Lemma absent_small_int_key (r : loc) (d : list (key * val)) (z : Z) (h : heap) :
  h !! r = Some (ODict d) -> dict_mem d (KInt z) = false -> z < Z.of_nat (length d) ->
  use_key [KInt z] (VRef r) h = (h, Raise KeyError).
Proof.
  intros Hr Hm Hz. look_at Hr. rewrite Hm. look_at Hr.
  destruct (Z.ltb_spec z (Z.of_nat (length d))); [|lia].
  look_at Hr. unfold dict_mem in Hm.
  destruct (dict_get d (KInt z)); [discriminate | reflexivity].
Qed.

End AccessCases.

(** C2 (as the code has it).  When evaluation reaches a wildcard segment
    with a scalar as the current container ([None], a boolean, a number
    or a string), [use_key] raises nothing: it answers with a new, empty
    list, whatever segments follow. *)
Theorem C2_wildcard_on_scalar_gives_empty_list
    (k0 : key) (rest : list key) (container : val) (h : heap) :
  is_wildcard k0 = true -> is_scalar container = true ->
  use_key (k0 :: rest) container h = (h ++ [OList []], Ok (VRef (length h))).
Proof.
  intros Hw Hs. simpl. rewrite Hw. unfold bind.
  now rewrite fan_out_scalar.
Qed.

Lemma C2_witness :
  use_key (KStr "" :: [KStr "x"]) (VInt 5) [] = ([] ++ [OList []], Ok (VRef (length (@nil obj)))).
Proof. apply C2_wildcard_on_scalar_gives_empty_list; reflexivity. Defined.

(** C2 as stated fails: a wildcard applied to the number 5 returns an
    empty list and is no type error. *)
Lemma C2_counterexample :
  access ":x" (VInt 5) [] = ([OList []], Ok (VRef 0%nat)) /\
  (access ":x" (VInt 5) []).2 <> Raise TypeError.
Proof. split; [reflexivity | discriminate]. Qed.

(** C3 at the failing input.  [access("", [1, 2])]: the wildcard is the
    only segment and the container is a list; the call raises
    [IndexError] where the claim promises [[1, 2]].  The same keystring on
    a dictionary does return its values. *)
Theorem C3_trailing_wildcard_on_list_raises :
  access "" (VRef 0%nat) Ex.two_ints = (Ex.two_ints, Raise IndexError) /\
  access "" (VRef 0%nat) Ex.two_entries
  = (Ex.two_entries ++ [OList [VInt 1; VInt 2]], Ok (VRef 1%nat)).
Proof. split; reflexivity. Qed.

(** C4 (as the code has it).  A key that is not the last segment and is
    absent from the current dictionary makes [use_key] raise [KeyError];
    the store is untouched. *)
Theorem C4_absent_key_mid_path_raises
    (k0 : key) (rest : list key) (r : loc) (d : list (key * val)) (h : heap) :
  h !! r = Some (ODict d) -> is_wildcard k0 = false -> rest <> [] ->
  dict_mem d k0 = false ->
  use_key (k0 :: rest) (VRef r) h = (h, Raise KeyError).
Proof.
  intros Hr Hw Hrest Hm.
  destruct rest as [|k1 rest']; [contradiction|].
  cbn [use_key]. rewrite Hw.
  change (1 <? length (k0 :: k1 :: rest'))%nat with true. cbv iota.
  unfold bind, reading, getitem. rewrite Hr.
  unfold dict_mem in Hm. destruct (dict_get d k0); [discriminate | reflexivity].
Qed.

Lemma C4_witness :
  use_key (KStr "a" :: [KStr "b"]) (VRef 0%nat) Ex.empty_dict = (Ex.empty_dict, Raise KeyError).
Proof.
  apply (C4_absent_key_mid_path_raises (KStr "a") [KStr "b"] 0%nat []);
    [reflexivity | reflexivity | discriminate | reflexivity].
Defined.

(** C4 as stated fails: [access("a:b", {})] raises [KeyError]; it does
    not come back with [None]. *)
Lemma C4_counterexample :
  access "a:b" (VRef 0%nat) Ex.empty_dict = (Ex.empty_dict, Raise KeyError) /\
  (access "a:b" (VRef 0%nat) Ex.empty_dict).2 <> Ok VNone.
Proof. split; [reflexivity | discriminate]. Qed.

(** C5 at the failing input.  [access("0", {"a": 1})]: the key [0] is not
    in the dictionary, yet [0 < len(container)] holds, so the lookup is
    made and raises [KeyError] where the claim promises [None].  The
    example of the claim, [access(":x", [{"x": 1}, {"x": 2}, {}])], does
    give [[1, 2, None]]. *)
Theorem C5_absent_int_key_raises :
  access "0" (VRef 0%nat) Ex.one_entry = (Ex.one_entry, Raise KeyError) /\
  access ":x" (VRef 3%nat) Ex.three_records
  = (Ex.three_records ++ [OList [VInt 1; VInt 2; VNone]], Ok (VRef 4%nat)).
Proof. split; reflexivity. Qed.

(** C6.  A trailing delimiter changes nothing: [access(p + ":", c)] and
    [access(p, c)] are the same computation, and the parsed sequence
    never ends with a wildcard that follows other segments.  An empty
    segment inside the keystring stays, as the wildcard between its
    neighbours.  A segment made of digits only becomes the integer it
    spells; any other segment stays a string. *)
Theorem C6_keystring_parsing :
  (forall (p : string) (c : val) (h : heap),
      access (p ++ ":") c h = access p c h) /\
  (forall (p : string) (ks : list key) (k : key),
      key_sequence p = ks ++ [k] -> is_wildcard k = true -> ks = []) /\
  (forall a b : string,
      PyStr.rstrip ":" b <> EmptyString ->
      key_sequence (a ++ String ":" (String ":" b))
      = map parse_segment (PyStr.split ":" a) ++ KStr "" :: key_sequence b) /\
  key_sequence "a::b" = [KStr "a"; KStr ""; KStr "b"] /\
  (forall p : string,
      Forall2 (fun seg k => (all_digits seg -> k = KInt (PyStr.int seg)) /\
                            (~ all_digits seg -> k = KStr seg))
              (PyStr.split ":" (PyStr.rstrip ":" p)) (key_sequence p)).
Proof.
  repeat split.
  - intros p c h. unfold access. now rewrite key_sequence_snoc_colon.
  - apply key_sequence_final_wildcard.
  - apply key_sequence_inner_empty.
  - intros p. unfold key_sequence.
    induction (PyStr.split ":" (PyStr.rstrip ":" p)) as [|seg segs IH]; simpl;
      constructor; [|exact IH].
    split; [apply parse_segment_digits | apply parse_segment_other].
Qed.

Lemma C6_witness :
  key_sequence ("squares" ++ String ":" (String ":" "0"))
  = map parse_segment (PyStr.split ":" "squares") ++ KStr "" :: key_sequence "0".
Proof.
  apply (proj1 (proj2 (proj2 C6_keystring_parsing)) "squares" "0"). discriminate.
Defined.

(** ** tablefy: the length check and the header *)

Section LengthCheck.
Context (h : heap) (c0 : val) (others : list val) (n0 : nat).
Hypothesis Hc0 : py_len h c0 = Ok n0.

Lemma check_length_same (col : val) :
  py_len h col = Ok n0 -> check_length (c0 :: others) col h = (h, Ok tt).
Proof.
  intros Hn. unfold check_length, bind, reading. rewrite Hn, Hc0.
  now rewrite Nat.eqb_refl.
Qed.

Lemma check_length_differs (col : val) (n : nat) :
  py_len h col = Ok n -> n <> n0 ->
  check_length (c0 :: others) col h = (h, Raise AssertionError).
Proof.
  intros Hn Hne. unfold check_length, bind, reading. rewrite Hn, Hc0.
  apply Nat.eqb_neq in Hne. now rewrite Hne.
Qed.

Lemma check_all_same (l : list val) :
  Forall (fun c => py_len h c = Ok n0) l ->
  mapM (check_length (c0 :: others)) l h = (h, Ok (map (fun _ => tt) l)).
Proof.
  induction 1 as [|c l Hc Hl IH]; simpl; [reflexivity|].
  rewrite (bind_ok _ _ _ _ _ (check_length_same c Hc)).
  now rewrite (bind_ok _ _ _ _ _ IH).
Qed.

Lemma check_some_differs (l : list val) :
  Forall (fun c => exists n, py_len h c = Ok n) l ->
  Exists (fun c => py_len h c <> Ok n0) l ->
  mapM (check_length (c0 :: others)) l h = (h, Raise AssertionError).
Proof.
  induction 1 as [|c l [n Hn] Hl IH]; intros Hex; simpl.
  - inversion Hex.
  - destruct (Nat.eq_dec n n0) as [-> | Hne].
    + rewrite (bind_ok _ _ _ _ _ (check_length_same c Hn)).
      apply bind_raise, IH.
      inversion Hex as [? ? Hbad | ? ? Hbad]; subst; [contradiction | exact Hbad].
    + apply bind_raise. eapply check_length_differs; eauto.
Qed.

End LengthCheck.

Lemma assert_same_length_ok (h : heap) (cols : list val) (n0 : nat) :
  Forall (fun c => py_len h c = Ok n0) cols ->
  assert_same_length cols h = (h, Ok tt).
Proof.
  intros Hall. unfold assert_same_length.
  destruct cols as [|c0 others]; [reflexivity|].
  assert (Hc0 : py_len h c0 = Ok n0) by now inversion Hall.
  now rewrite (bind_ok _ _ _ _ _ (check_all_same h c0 others n0 Hc0 _ Hall)).
Qed.

Lemma assert_same_length_fails (h : heap) (cols : list val)
    (i j : nat) (ci cj : val) (ni nj : nat) :
  Forall (fun c => exists n, py_len h c = Ok n) cols ->
  cols !! i = Some ci -> cols !! j = Some cj ->
  py_len h ci = Ok ni -> py_len h cj = Ok nj -> ni <> nj ->
  assert_same_length cols h = (h, Raise AssertionError).
Proof.
  intros Hall Hi Hj Hni Hnj Hne. unfold assert_same_length.
  destruct cols as [|c0 others]; [discriminate|].
  assert (Hc0 : exists n0, py_len h c0 = Ok n0) by now inversion Hall.
  destruct Hc0 as [n0 Hc0].
  apply bind_raise. apply (check_some_differs h c0 others n0 Hc0 _ Hall).
  apply Exists_exists.
  destruct (Nat.eq_dec ni n0) as [-> | Hni0].
  - exists cj. split; [eapply list_elem_of_lookup_2; eauto|].
    rewrite Hnj. intros [= ->]. contradiction.
  - exists ci. split; [eapply list_elem_of_lookup_2; eauto|].
    rewrite Hni. intros [= ->]. contradiction.
Qed.

Lemma assert_same_length_store (h : heap) (cols : list val) :
  (assert_same_length cols h).1 = h.
Proof.
  unfold assert_same_length.
  assert (Hloop : forall l, (mapM (check_length cols) l h).1 = h).
  { induction l as [|c l IH]; simpl; [reflexivity|].
    unfold bind at 1.
    assert (Hc : (check_length cols c h).1 = h).
    { unfold check_length, bind, reading.
      destruct (py_len h c); simpl; [|reflexivity].
      destruct cols as [|c0 ?]; simpl; [reflexivity|].
      destruct (py_len h c0); simpl; [|reflexivity].
      destruct (Nat.eqb _ _); reflexivity. }
    destruct (check_length cols c h) as [h1 [[]|e]]; simpl in Hc; subst h1;
      [|reflexivity].
    unfold bind. destruct (mapM (check_length cols) l h) as [h2 [us|e]];
      simpl in *; exact IH. }
  unfold bind. specialize (Hloop cols).
  destruct (mapM (check_length cols) cols h) as [h1 [us|e]]; exact Hloop.
Qed.

Section Header.

Lemma search_alpha_no_letter (s : string) :
  no_letter s -> PyStr.search_alpha s = None.
Proof.
  unfold no_letter. induction s as [|c t IH]; simpl; [reflexivity|].
  intros H. inversion H as [|? ? Hc Ht]; subst. rewrite Hc. now apply IH.
Qed.

Lemma prettify_one_error (v : val) (e : exn) :
  prettify_one v = Raise e -> e = AttributeError.
Proof.
  destruct v as [| | |s| |]; simpl; try discriminate.
  destruct (PyStr.search_alpha s); [discriminate | now intros [= <-]].
Qed.

Lemma prettify_fails (header : list val) (h : heap) :
  forall (i : nat) (s : string),
    header !! i = Some (VStr s) -> no_letter s ->
    prettify header h = (h, Raise AttributeError).
Proof.
  unfold prettify.
  induction header as [|v header IH]; intros i s Hi Hs; [discriminate|].
  simpl. unfold bind at 1. unfold reading at 1.
  destruct (prettify_one v) as [v'|e] eqn:Ev.
  - destruct i as [|i].
    + simpl in Hi. injection Hi as ->. simpl in Ev.
      rewrite (search_alpha_no_letter s Hs) in Ev. discriminate.
    + apply bind_raise. eapply IH; eauto.
  - now rewrite (prettify_one_error v e Ev).
Qed.

Lemma update_header_other (cols_expanded : list (nat * val)) (i : nat) :
  Forall (fun ie => ie.1 <> i) cols_expanded ->
  forall header : list val, update_header header cols_expanded !! i = header !! i.
Proof.
  unfold update_header.
  induction 1 as [|[j names] ce Hj Hce IH]; intros header; simpl; [reflexivity|].
  rewrite IH. now apply list_lookup_insert_ne.
Qed.

End Header.

(** C8.  When the columns built for the expressions do not all have the
    same length, [tablefy] raises [AssertionError].  It does so right
    after the columns are built: the store is the one the column step
    left, in which every object of the input is in place; no expansion
    was made and no row was assembled, padded or cut. *)
Theorem C8_unequal_columns_fail_the_assertion
    (keystring : string) (struct : val) (expand_lists_to_bool flatten_lists : bool)
    (h h1 : heap) (cols : list val) (i j : nat) (ci cj : val) (ni nj : nat) :
  get_columns (keystrings_of keystring) struct h = (h1, Ok cols) ->
  Forall (fun c => exists n, py_len h1 c = Ok n) cols ->
  cols !! i = Some ci -> cols !! j = Some cj ->
  py_len h1 ci = Ok ni -> py_len h1 cj = Ok nj -> ni <> nj ->
  tablefy keystring struct expand_lists_to_bool flatten_lists h
  = (h1, Raise AssertionError)
  /\ h `prefix_of` h1.
Proof.
  intros Hcols Hall Hi Hj Hni Hnj Hne. split.
  - unfold tablefy. cbv zeta.
    rewrite (bind_ok _ _ _ _ _ Hcols).
    apply bind_raise.
    exact (assert_same_length_fails h1 cols i j ci cj ni nj Hall Hi Hj Hni Hnj Hne).
  - pose proof (get_columns_keeps h (keystrings_of keystring) struct h
                  (reflexivity h)) as Hk.
    now rewrite Hcols in Hk.
Qed.

Lemma C8_witness :
  tablefy "0:a, 0:b" (VRef 3%nat) true true Ex.uneven
  = (Ex.uneven, Raise AssertionError)
  /\ Ex.uneven `prefix_of` Ex.uneven.
Proof.
  apply (C8_unequal_columns_fail_the_assertion "0:a, 0:b" (VRef 3%nat) true true
           Ex.uneven Ex.uneven [VRef 0%nat; VRef 1%nat] 0 1
           (VRef 0%nat) (VRef 1%nat) 2 3).
  - reflexivity.
  - constructor; [eexists; reflexivity|].
    constructor; [eexists; reflexivity|]. constructor.
  - reflexivity.
  - reflexivity.
  - reflexivity.
  - reflexivity.
  - lia.
Defined.

(** C9.  Take an expression whose text holds no ASCII letter and whose
    header entry no expansion has replaced.  Once the columns are built,
    pass the length check and the expansion step has run, [tablefy]
    raises [AttributeError] while it prettifies the header: the search
    for a letter finds nothing. *)
Theorem C9_label_without_letter_fails
    (keystring : string) (struct : val) (expand_lists_to_bool flatten_lists : bool)
    (h h1 h2 : heap) (cols : list val) (cols_expanded : list (nat * val))
    (i : nat) (s : string) :
  get_columns (keystrings_of keystring) struct h = (h1, Ok cols) ->
  (assert_same_length cols h1).2 = Ok tt ->
  (if expand_lists_to_bool then expand_columns cols else ret []) h1
  = (h2, Ok cols_expanded) ->
  keystrings_of keystring !! i = Some s -> no_letter s ->
  Forall (fun ie => ie.1 <> i) cols_expanded ->
  tablefy keystring struct expand_lists_to_bool flatten_lists h
  = (h2, Raise AttributeError).
Proof.
  intros Hcols Hassert Hexp Hi Hs Hkept.
  unfold tablefy. cbv zeta.
  rewrite (bind_ok _ _ _ _ _ Hcols).
  assert (Ha : assert_same_length cols h1 = (h1, Ok tt)).
  { pose proof (assert_same_length_store h1 cols) as Hst.
    destruct (assert_same_length cols h1) as [h' r]. simpl in *. now subst. }
  rewrite (bind_ok _ _ _ _ _ Ha).
  rewrite (bind_ok _ _ _ _ _ Hexp).
  apply bind_raise. apply (prettify_fails _ h2 i s); [|exact Hs].
  rewrite (update_header_other cols_expanded i Hkept).
  rewrite list_lookup_fmap, Hi. reflexivity.
Qed.

Lemma C9_witness :
  tablefy "0:1" (VRef 3%nat) false true Ex.nested_lists
  = (Ex.nested_lists, Raise AttributeError).
Proof.
  apply (C9_label_without_letter_fails "0:1" (VRef 3%nat) false true
           Ex.nested_lists Ex.nested_lists Ex.nested_lists [VRef 1%nat] [] 0 "0:1").
  - reflexivity.
  - reflexivity.
  - reflexivity.
  - reflexivity.
  - repeat constructor.
  - constructor.
Defined.




(** C7 at the failing input.  [tablefy(":c, :c", [{"c": [True]}],
    expand_lists_to_bool=True)]: both columns have an iterable first
    entry, but [cols.index(col)] finds, for the second column, the first
    one, which by then is equal to it.  The header of the second column
    stays ["c"] where the claim promises the sorted value list.  The
    example of the claim, one column over [["A", "B"], ["B"]], comes out
    as stated. *)
Theorem C7_second_equal_column_keeps_its_label :
  (tablefy ":c, :c" (VRef 2%nat) true true Ex.flag_record).2
  = Ok [[VBool true; VStr "c"]; [VBool true; VBool true]] /\
  (tablefy ":c" (VRef 4%nat) true true Ex.class_records).2
  = Ok [[VStr "A"; VStr "B"]; [VBool true; VBool true]; [VBool false; VBool true]].
Proof. split; vm_compute; reflexivity. Qed.

(** ** Stores without dangling references *)

Section WellFormed.

Lemma val_ind_nested (P : val -> Prop) :
  P VNone -> (forall b, P (VBool b)) -> (forall z, P (VInt z)) ->
  (forall s, P (VStr s)) -> (forall items, Forall P items -> P (VTuple items)) ->
  (forall r, P (VRef r)) -> forall v, P v.
Proof.
  intros Hnone Hbool Hint Hstr Htuple Href.
  fix IH 1. intros [| b | z | s | items | r].
  - exact Hnone.
  - apply Hbool.
  - apply Hint.
  - apply Hstr.
  - apply Htuple.
    induction items as [|x xs IHxs]; constructor; [apply IH | exact IHxs].
  - apply Href.
Qed.

Lemma wf_val_mono (n m : nat) (v : val) :
  (n <= m)%nat -> wf_val n v = true -> wf_val m v = true.
Proof.
  intros Hnm. induction v as [| | | | items IH | r] using val_ind_nested;
    simpl; auto.
  - rewrite !forallb_forall. intros Hall x Hx.
    rewrite Forall_forall in IH. apply IH; [now apply list_elem_of_In | now apply Hall].
  - rewrite !Nat.ltb_lt. lia.
Qed.

Lemma wf_vals_mono (n m : nat) (l : list val) :
  (n <= m)%nat -> forallb (wf_val n) l = true -> forallb (wf_val m) l = true.
Proof.
  intros Hnm. rewrite !forallb_forall. intros H x Hx.
  eapply wf_val_mono; eauto.
Qed.

Lemma wf_obj_mono (n m : nat) (o : obj) :
  (n <= m)%nat -> wf_obj n o = true -> wf_obj m o = true.
Proof.
  intros Hnm. destruct o as [items|entries]; simpl.
  - now apply wf_vals_mono.
  - rewrite !forallb_forall. intros H x Hx. eapply wf_val_mono; eauto.
Qed.

Lemma wf_heap_lookup (h : heap) (r : loc) (o : obj) :
  wf_heap h = true -> h !! r = Some o -> wf_obj (length h) o = true.
Proof.
  unfold wf_heap. rewrite forallb_forall. intros Hwf Hr. apply Hwf.
  apply list_elem_of_In. eapply list_elem_of_lookup_2; eauto.
Qed.

Lemma wf_heap_alloc (h : heap) (items : list val) :
  wf_heap h = true -> forallb (wf_val (length h)) items = true ->
  wf_heap (h ++ [OList items]) = true.
Proof.
  unfold wf_heap. intros Hwf Hitems.
  rewrite length_app. simpl length.
  rewrite forallb_app. apply andb_true_iff. split.
  - rewrite forallb_forall in *. intros o Ho.
    eapply wf_obj_mono; [|apply Hwf, Ho]. lia.
  - simpl. rewrite andb_true_r. eapply wf_vals_mono; [|exact Hitems]. lia.
Qed.

Lemma seq_index_In {A} (l : list A) (z : Z) (x : A) :
  seq_index l z = Ok x -> In x l.
Proof.
  unfold seq_index. destruct (_ <? 0); [discriminate|].
  destruct (l !! _) as [y|] eqn:E; [|discriminate].
  intros [= <-]. apply list_elem_of_In. eapply list_elem_of_lookup_2; eauto.
Qed.

Lemma chars_wf (n : nat) (s : string) :
  forallb (wf_val n) (map VStr (PyStr.chars s)) = true.
Proof. induction s as [|c t IH]; simpl; auto. Qed.

Lemma iterate_wf (h : heap) (c : val) (l : list val) :
  wf_heap h = true -> wf_val (length h) c = true -> iterate h c = Ok l ->
  forallb (wf_val (length h)) l = true.
Proof.
  intros Hwf Hc. destruct c as [| | | s | items | r]; simpl; try discriminate.
  - intros [= <-]. apply chars_wf.
  - intros [= <-]. exact Hc.
  - destruct (h !! r) as [[items|entries]|] eqn:Hr; [| |discriminate]; intros [= <-].
    + exact (wf_heap_lookup h r _ Hwf Hr).
    + apply forallb_forall. intros v Hv.
      apply in_map_iff in Hv. destruct Hv as [[k x] [<- _]].
      destruct k; reflexivity.
Qed.

Lemma getitem_wf (h : heap) (c : val) (k : key) (v : val) :
  wf_heap h = true -> wf_val (length h) c = true -> getitem h c k = Ok v ->
  wf_val (length h) v = true.
Proof.
  intros Hwf Hc. destruct c as [| | | s | items | r]; simpl; try discriminate.
  - destruct k as [z|?]; [|discriminate]. intros Hv%seq_index_In.
    pose proof (chars_wf (length h) s) as Hall.
    rewrite forallb_forall in Hall. now apply Hall.
  - destruct k as [z|?]; [|discriminate]. intros Hv%seq_index_In.
    simpl in Hc. rewrite forallb_forall in Hc. now apply Hc.
  - destruct (h !! r) as [[items|entries]|] eqn:Hr; [| |discriminate].
    + destruct k as [z|?]; [|discriminate]. intros Hv%seq_index_In.
      pose proof (wf_heap_lookup h r _ Hwf Hr) as Hall. simpl in Hall.
      rewrite forallb_forall in Hall. now apply Hall.
    + pose proof (wf_heap_lookup h r _ Hwf Hr) as Hall. simpl in Hall.
      destruct (dict_get entries k) as [x|] eqn:Hk; [|discriminate].
      intros [= <-]. clear Hr. induction entries as [|[k' v'] entries IH];
        [discriminate|].
      simpl in Hk, Hall. apply andb_true_iff in Hall as [Hv' Hall].
      destruct (key_eqb k' k); [now injection Hk as <- | now apply IH].
Qed.

(** On a store without dangling references everything that has the
    iteration attribute can be iterated. *)
Lemma iterate_total (h : heap) (c : val) :
  wf_val (length h) c = true -> has_iter c = true -> exists l, iterate h c = Ok l.
Proof.
  destruct c as [| | | s | items | r]; simpl; try discriminate.
  - intros _ _. eauto.
  - intros Hr%Nat.ltb_lt _. apply lookup_lt_is_Some in Hr as [o Ho].
    destruct o as [items|entries]; eexists; rewrite Ho; reflexivity.
Qed.

Lemma mapM_wf {A} (f : A -> M val) (pre : A -> nat -> Prop) :
  (forall x n m, (n <= m)%nat -> pre x n -> pre x m) ->
  (forall x h h' r,
      wf_heap h = true -> pre x (length h) -> f x h = (h', r) ->
      h `prefix_of` h' /\ wf_heap h' = true /\
      forall v, r = Ok v -> wf_val (length h') v = true) ->
  forall l h h' r,
    wf_heap h = true -> Forall (fun x => pre x (length h)) l ->
    mapM f l h = (h', r) ->
    h `prefix_of` h' /\ wf_heap h' = true /\
    forall vs, r = Ok vs -> forallb (wf_val (length h')) vs = true.
Proof.
  intros Hmono Hf. induction l as [|x xs IH]; intros h h' r Hwf Hpre; simpl.
  - intros [= <- <-]. repeat split; auto. now intros vs [= <-].
  - inversion Hpre as [|? ? Hx Hxs]; subst.
    unfold bind at 1. destruct (f x h) as [h1 [y|e]] eqn:Ex.
    + destruct (Hf x h h1 (Ok y) Hwf Hx Ex) as (Hp1 & Hwf1 & Hy).
      specialize (Hy y eq_refl).
      assert (Hxs1 : Forall (fun x => pre x (length h1)) xs).
      { eapply Forall_impl; [exact Hxs|]. intros a Ha.
        eapply Hmono; [|exact Ha]. now apply prefix_length. }
      unfold bind at 1. destruct (mapM f xs h1) as [h2 [ys|e]] eqn:Exs.
      * destruct (IH h1 h2 (Ok ys) Hwf1 Hxs1 Exs) as (Hp2 & Hwf2 & Hys).
        intros [= <- <-]. repeat split; [now transitivity h1 | exact Hwf2|].
        intros vs [= <-]. simpl. rewrite (Hys ys eq_refl), andb_true_r.
        eapply wf_val_mono; [|exact Hy]. now apply prefix_length.
      * destruct (IH h1 h2 (Raise e) Hwf1 Hxs1 Exs) as (Hp2 & Hwf2 & _).
        intros [= <- <-]. repeat split; [now transitivity h1 | exact Hwf2|].
        discriminate.
    + destruct (Hf x h h1 (Raise e) Hwf Hx Ex) as (Hp1 & Hwf1 & _).
      intros [= <- <-]. repeat split; auto. discriminate.
Qed.

End WellFormed.

Section AccessWellFormed.

Lemma fan_out_wf (descend : val -> M val) (more : bool) :
  (forall c h, wf_heap h = true -> wf_val (length h) c = true ->
               sound good_val h (descend c h)) ->
  forall c h, wf_heap h = true -> wf_val (length h) c = true ->
              sound good_vals h (fan_out descend more c h).
Proof.
  intros Hd c h Hwf Hc. unfold fan_out.
  destruct (is_dict h c).
  - pose proof (mapM_wf
      (fun k => let* v := reading (fun h' => getitem h' c k) in
                if more then descend v else ret v)
      (fun _ n => wf_val n c = true)) as HM.
    destruct (mapM _ (map fst (dict_entries h c)) h) as [h' r] eqn:E.
    eapply HM in E; [exact E | | | exact Hwf |].
    + intros _ n m Hnm. now apply wf_val_mono.
    + intros k h1 h1' r1 Hwf1 Hc1. unfold bind, reading.
      destruct (getitem h1 c k) as [v|e] eqn:Eg.
      * pose proof (getitem_wf h1 c k v Hwf1 Hc1 Eg) as Hv.
        destruct more.
        -- intros E1. pose proof (Hd v h1 Hwf1 Hv) as Hs. rewrite E1 in Hs.
           exact Hs.
        -- intros [= <- <-]. repeat split; auto. now intros ? [= <-].
      * intros [= <- <-]. repeat split; auto. discriminate.
    + apply Forall_forall. intros; exact Hc.
  - destruct (has_iter c).
    + unfold bind at 1, reading at 1.
      destruct (iterate h c) as [elems|e] eqn:Ei.
      * pose proof (iterate_wf h c elems Hwf Hc Ei) as Helems.
        pose proof (mapM_wf descend (fun x n => wf_val n x = true)) as HM.
        destruct (mapM descend elems h) as [h' r] eqn:E.
        eapply HM in E; [exact E | | | exact Hwf |].
        -- intros x n m Hnm. now apply wf_val_mono.
        -- intros x h1 h1' r1 Hwf1 Hx E1.
           pose proof (Hd x h1 Hwf1 Hx) as Hs. rewrite E1 in Hs. exact Hs.
        -- apply Forall_forall. intros x Hx.
           rewrite forallb_forall in Helems. apply Helems.
           now apply list_elem_of_In.
      * repeat split; auto. discriminate.
    + repeat split; auto. now intros ? [= <-].
Qed.

Lemma lookup_last_wf (k0 : key) (c : val) (h : heap) :
  wf_heap h = true -> wf_val (length h) c = true ->
  sound good_val h (lookup_last k0 c h).
Proof.
  intros Hwf Hc. unfold lookup_last, bind.
  assert (Hfound : forall b : bool,
             sound good_val h
               ((if b then reading (fun h' => getitem h' c k0) else ret VNone) h)).
  { intros [|]; unfold reading, ret; repeat split; auto; simpl.
    - intros v Hv. eapply getitem_wf; eauto.
    - now intros ? [= <-]. }
  destruct (_ && _); [apply (Hfound true)|].
  destruct (has_iter c); [|apply (Hfound false)].
  unfold reading. destruct (py_len h c) as [n|e]; [apply Hfound|].
  repeat split; auto. discriminate.
Qed.

Lemma use_key_wf (key : list key) :
  forall c h, wf_heap h = true -> wf_val (length h) c = true ->
              sound good_val h (use_key key c h).
Proof.
  induction key as [|k0 rest IH]; intros c h Hwf Hc.
  - repeat split; auto. discriminate.
  - cbn [use_key]. destruct (is_wildcard k0).
    + pose proof (fan_out_wf (use_key rest) (1 <? length (k0 :: rest))%nat IH c h Hwf Hc)
        as (Hp & Hwf1 & Hitems).
      unfold bind. destruct (fan_out _ _ c h) as [h1 [items|e]]; simpl in *.
      * specialize (Hitems items eq_refl). repeat split.
        -- now apply prefix_app_r.
        -- now apply wf_heap_alloc.
        -- intros v [= <-]. simpl. apply Nat.ltb_lt.
           rewrite length_app. simpl. lia.
      * repeat split; auto. discriminate.
    + destruct (1 <? _)%nat.
      * unfold bind, reading. destruct (getitem h c k0) as [v|e] eqn:Eg.
        -- apply IH; [exact Hwf|]. eapply getitem_wf; eauto.
        -- repeat split; auto. discriminate.
      * now apply lookup_last_wf.
Qed.

(** A wildcard over a list of records: one entry per record, in a new
    list. *)
Lemma use_key_wildcard_on_list (k0 : key) (rest : list key) (r : loc)
    (recs : list val) (h h' : heap) (v : val) :
  is_wildcard k0 = true -> h !! r = Some (OList recs) ->
  use_key (k0 :: rest) (VRef r) h = (h', Ok v) ->
  exists l items,
    v = VRef l /\ h' !! l = Some (OList items) /\ length items = length recs.
Proof.
  intros Hw Hr. cbn [use_key]. rewrite Hw. unfold bind at 1.
  destruct (fan_out _ _ _ h) as [h1 [items|e]] eqn:E; [|discriminate].
  intros [= <- <-]. exists (length h1), items. repeat split.
  - now rewrite list_lookup_middle.
  - unfold fan_out, is_dict in E. rewrite Hr in E. simpl in E.
    unfold bind, reading, iterate in E. rewrite Hr in E.
    eapply mapM_length, E.
Qed.

Lemma get_columns_shape (r : loc) (recs : list val) (keystrings : list string) :
  Forall (fun ks => leading_wildcard ks = true) keystrings ->
  forall h h1 cols,
    wf_heap h = true -> h !! r = Some (OList recs) ->
    get_columns keystrings (VRef r) h = (h1, Ok cols) ->
    h `prefix_of` h1 /\ wf_heap h1 = true /\
    length cols = length keystrings /\
    Forall (fun col => exists l items,
                col = VRef l /\ h1 !! l = Some (OList items) /\
                length items = length recs) cols.
Proof.
  unfold get_columns.
  induction 1 as [|ks kss Hks Hkss IH]; intros h h1 cols Hwf Hr; simpl.
  - intros [= <- <-]. repeat split; auto.
  - unfold bind at 1. destruct (access ks (VRef r) h) as [h2 [v|e]] eqn:Ea;
      [|discriminate].
    unfold bind at 1. destruct (mapM _ kss h2) as [h3 [vs|e]] eqn:Em;
      [|discriminate].
    intros [= <- <-].
    assert (Hrwf : wf_val (length h) (VRef r) = true).
    { simpl. apply Nat.ltb_lt. eapply lookup_lt_Some; eauto. }
    pose proof (use_key_wf (key_sequence ks) (VRef r) h Hwf Hrwf) as Hs.
    unfold access in Ea. rewrite Ea in Hs. destruct Hs as (Hp2 & Hwf2 & _).
    simpl in Hp2, Hwf2.
    assert (Hr2 : h2 !! r = Some (OList recs))
      by (eapply prefix_lookup_Some; eauto).
    destruct (IH h2 h3 vs Hwf2 Hr2 Em) as (Hp3 & Hwf3 & Hlen & Hall).
    repeat split.
    + now transitivity h2.
    + exact Hwf3.
    + simpl. now rewrite Hlen.
    + constructor; [|exact Hall].
      unfold leading_wildcard in Hks.
      destruct (key_sequence ks) as [|k0 rest]; [discriminate|].
      destruct (use_key_wildcard_on_list k0 rest r recs h h2 v Hks Hr Ea)
        as (l & items & -> & Hl & Hlen').
      exists l, items. repeat split; auto.
      eapply prefix_lookup_Some; eauto.
Qed.

End AccessWellFormed.

(** ** tablefy: rows *)

Section Rows.

Lemma prettify_labels (h : heap) (keystrings : list string) (header : list val) :
  Forall2 (fun ks label => prettify_one (VStr ks) = Ok label) keystrings header ->
  prettify (map VStr keystrings) h = (h, Ok header) /\
  Forall (fun v => is_scalar v = true) header.
Proof.
  unfold prettify.
  induction 1 as [|ks label kss header Hks Hrest [IH Hsc]]; cbn -[prettify_one].
  - split; [reflexivity | constructor].
  - unfold bind at 1, reading at 1. rewrite Hks.
    unfold reading in IH. rewrite IH.
    split; [reflexivity|]. constructor; [|exact Hsc].
    simpl in Hks. destruct (PyStr.search_alpha ks); [|discriminate].
    now injection Hks as <-.
Qed.

Lemma expand_scalar_column (cols : list val) (h : heap) (lc : loc)
    (x : val) (xs : list val) :
  h !! lc = Some (OList (x :: xs)) -> is_scalar x = true ->
  expand_column cols (VRef lc) h = (h, Ok None).
Proof.
  intros Hlc Hx. unfold expand_column, bind at 1, reading at 1, getitem.
  rewrite Hlc. change (seq_index (x :: xs) 0) with (@Ok val x). cbv beta iota.
  unfold is_scalar in Hx. apply negb_true_iff in Hx. now rewrite Hx.
Qed.

Lemma row_of_cons (c : list val) (seqs : list (list val)) (j : nat) :
  row_of (c :: seqs) j
  = match c !! j with Some y => y :: row_of seqs j | None => row_of seqs j end.
Proof. reflexivity. Qed.

Lemma heads_row (cols : list (list val)) (n : nat) :
  Forall (fun c => length c = S n) cols -> heads cols = Some (row_of cols 0).
Proof.
  induction 1 as [|c cols Hc _ IH]; [reflexivity|].
  destruct c as [|x c]; [discriminate|]. simpl. rewrite IH. reflexivity.
Qed.

Lemma row_of_tails (cols : list (list val)) (j : nat) :
  row_of (map tail cols) j = row_of cols (S j).
Proof.
  induction cols as [|c cols IH]; [reflexivity|].
  cbn [map]. rewrite !row_of_cons, IH. destruct c; reflexivity.
Qed.

Lemma zip_rows_row_of (n : nat) :
  forall cols : list (list val),
    Forall (fun c => length c = n) cols ->
    zip_rows n cols = map (row_of cols) (seq 0 n).
Proof.
  induction n as [|n IH]; intros cols Hlen; [reflexivity|].
  cbn [zip_rows seq map]. rewrite (heads_row cols n Hlen). f_equal.
  rewrite IH.
  - rewrite <- seq_shift, map_map. apply map_ext. intros j. apply row_of_tails.
  - apply Forall_forall. intros c Hc.
    apply list_elem_of_In, in_map_iff in Hc as (c' & <- & Hc').
    pose proof (proj1 (Forall_forall _ _) Hlen c' (proj2 (list_elem_of_In _ _) Hc')) as E.
    destruct c'; simpl in *; lia.
Qed.

Lemma search_alpha_has_letter (s : string) :
  has_letter s -> exists l, PyStr.search_alpha s = Some l.
Proof.
  unfold has_letter. induction s as [|c t IH]; simpl; intros H.
  - inversion H.
  - destruct (PyStr.is_alpha c) eqn:Ec; [eauto|].
    apply IH. apply Exists_cons in H as [Hc | Ht]; [congruence | exact Ht].
Qed.

Lemma iterate_columns (h : heap) (cols : list val) (seqs : list (list val)) :
  Forall2 (fun col items => iterate h col = Ok items) cols seqs ->
  mapM (fun col => reading (fun h' => iterate h' col)) cols h = (h, Ok seqs).
Proof.
  induction 1 as [|col items cols seqs Hcol Hrest IH]; simpl; [reflexivity|].
  unfold bind at 1, reading at 1. rewrite Hcol. now rewrite (bind_ok _ _ _ _ _ IH).
Qed.

Lemma flatten_row_ok (h : heap) (row : list val) :
  Forall (fun v => wf_val (length h) v = true) row ->
  exists row',
    flatten_row row h = (h, Ok row') /\
    (Forall (fun v => is_scalar v = true) row -> row' = row).
Proof.
  unfold flatten_row. intros Hwf.
  assert (Hcells : exists cells,
             mapM (fun cell => if has_iter cell
                               then reading (fun h' => iterate h' cell)
                               else ret [cell]) row h = (h, Ok cells) /\
             (Forall (fun v => is_scalar v = true) row -> concat cells = row)).
  { induction Hwf as [|v row Hv Hrow IH]; simpl.
    - exists []. split; [reflexivity | reflexivity].
    - destruct IH as (cells & E & Hsame).
      destruct (has_iter v) eqn:Hi.
      + destruct (iterate_total h v Hv Hi) as [l Hl].
        exists (l :: cells). unfold bind at 1, reading at 1. rewrite Hl.
        rewrite (bind_ok _ _ _ _ _ E). split; [reflexivity|].
        intros Hsc. inversion Hsc as [|? ? Hv' _]; subst.
        unfold is_scalar in Hv'. rewrite Hi in Hv'. discriminate.
      + exists ([v] :: cells). unfold bind at 1, ret at 1.
        rewrite (bind_ok _ _ _ _ _ E). split; [reflexivity|].
        intros Hsc. inversion Hsc; subst. simpl. f_equal. now apply Hsame. }
  destruct Hcells as (cells & E & Hsame).
  exists (concat cells). now rewrite (bind_ok _ _ _ _ _ E).
Qed.

Lemma flatten_rows_ok (h : heap) (rows : list (list val)) :
  Forall (Forall (fun v => wf_val (length h) v = true)) rows ->
  exists rows',
    mapM flatten_row rows h = (h, Ok rows') /\
    length rows' = length rows /\
    (Forall (Forall (fun v => is_scalar v = true)) rows -> rows' = rows).
Proof.
  induction 1 as [|row rows Hrow Hrows IH]; simpl.
  - exists []. repeat split; reflexivity.
  - destruct IH as (rows' & E & Hlen & Hsame).
    destruct (flatten_row_ok h row Hrow) as (row' & Er & Hrsame).
    exists (row' :: rows').
    rewrite (bind_ok _ _ _ _ _ Er), (bind_ok _ _ _ _ _ E).
    repeat split; simpl; [now rewrite Hlen|].
    intros Hsc. inversion Hsc; subst. f_equal; auto.
Qed.

End Rows.

Lemma scalar_wf (n : nat) (v : val) : is_scalar v = true -> wf_val n v = true.
Proof. destruct v; simpl; auto; discriminate. Qed.

Lemma columns_as_sequences (h : heap) (n : nat) (cols : list val) :
  wf_heap h = true ->
  Forall (fun col => exists l items,
              col = VRef l /\ h !! l = Some (OList items) /\ length items = n) cols ->
  exists seqs,
    Forall2 (fun col items => iterate h col = Ok items) cols seqs /\
    Forall (fun col => py_len h col = Ok n) cols /\
    Forall (fun items => length items = n) seqs /\
    Forall (Forall (fun v => wf_val (length h) v = true)) seqs.
Proof.
  intros Hwf. induction 1 as [|col cols (l & items & -> & Hl & Hn) Hcols IH].
  - exists []. repeat split; constructor.
  - destruct IH as (seqs & H2 & Hlen & Hn' & Hwf').
    exists (items :: seqs). repeat split; constructor; auto.
    + simpl. now rewrite Hl.
    + simpl. rewrite Hl. now rewrite Hn.
    + pose proof (wf_heap_lookup h l _ Hwf Hl) as Hitems. simpl in Hitems.
      rewrite forallb_forall in Hitems. apply Forall_forall.
      intros v Hv. apply Hitems. now apply list_elem_of_In.
Qed.

(** ** tablefy: what a row is made of *)

Section Splicing.

Lemma quiet_ret {A} (a : A) : quiet (ret a).
Proof. intros h. reflexivity. Qed.

Lemma quiet_raise {A} (e : exn) : quiet (raise e : M A).
Proof. intros h. reflexivity. Qed.

Lemma quiet_reading {A} (f : heap -> result A) : quiet (reading f).
Proof. intros h. unfold reading. now destruct (f h). Qed.

Lemma quiet_bind {A B} (m : M A) (k : A -> M B) :
  quiet m -> (forall a, quiet (k a)) -> quiet (bind m k).
Proof.
  intros Hm Hk h. unfold bind. specialize (Hm h).
  destruct (m h) as [h1 [a|e]]; simpl in *; subst; [apply Hk | reflexivity].
Qed.

Lemma quiet_mapM {A B} (f : A -> M B) (l : list A) :
  (forall x, quiet (f x)) -> quiet (mapM f l).
Proof.
  intros Hf. induction l as [|x xs IH]; [apply quiet_ret|].
  cbn [mapM]. apply quiet_bind; [apply Hf|]. intros y.
  apply quiet_bind; [exact IH|]. intros ys. apply quiet_ret.
Qed.

Lemma quiet_prettify (header : list val) : quiet (prettify header).
Proof. apply quiet_mapM. intros x. apply quiet_reading. Qed.

Lemma quiet_flatten_row (row : list val) : quiet (flatten_row row).
Proof.
  apply quiet_bind; [|intros; apply quiet_ret].
  apply quiet_mapM. intros cell.
  destruct (has_iter cell); [apply quiet_reading | apply quiet_ret].
Qed.

Lemma quiet_collect_items (col : val) : quiet (collect_items col).
Proof.
  apply quiet_bind; [apply quiet_reading|]. intros entries.
  apply quiet_bind; [|intros; apply quiet_ret].
  apply quiet_mapM. intros entry.
  apply quiet_bind; [apply quiet_reading|]. intros items.
  destruct (forallb hashable items); [apply quiet_ret | apply quiet_raise].
Qed.

Lemma same_sizes_refl (h : heap) : same_sizes h h.
Proof. intros r l Hr. eauto. Qed.

Lemma same_sizes_trans (h1 h2 h3 : heap) :
  same_sizes h1 h2 -> same_sizes h2 h3 -> same_sizes h1 h3.
Proof.
  intros H12 H23 r l Hr. destruct (H12 r l Hr) as (l2 & Hr2 & Hlen2).
  destruct (H23 r l2 Hr2) as (l3 & Hr3 & Hlen3). exists l3. split; [exact Hr3 | lia].
Qed.

Lemma quiet_keeps_sizes {A} (m : M A) : quiet m -> keeps_sizes m.
Proof. intros Hq h. rewrite Hq. apply same_sizes_refl. Qed.

Lemma keeps_sizes_bind {A B} (m : M A) (k : A -> M B) :
  keeps_sizes m -> (forall a, keeps_sizes (k a)) -> keeps_sizes (bind m k).
Proof.
  intros Hm Hk h. unfold bind. specialize (Hm h).
  destruct (m h) as [h1 [a|e]]; simpl in *; [|exact Hm].
  eapply same_sizes_trans; [exact Hm | apply Hk].
Qed.

Lemma keeps_sizes_mapM {A B} (f : A -> M B) (l : list A) :
  (forall x, keeps_sizes (f x)) -> keeps_sizes (mapM f l).
Proof.
  intros Hf. induction l as [|x xs IH]; [apply quiet_keeps_sizes, quiet_ret|].
  cbn [mapM]. apply keeps_sizes_bind; [apply Hf|]. intros y.
  apply keeps_sizes_bind; [exact IH|]. intros ys. apply quiet_keeps_sizes, quiet_ret.
Qed.

Lemma keeps_sizes_alloc (o : obj) : keeps_sizes (alloc o).
Proof.
  intros h r l Hr. exists l. split; [|reflexivity].
  unfold alloc. simpl. now apply lookup_app_l_Some.
Qed.

Lemma keeps_sizes_setitem (col : val) (k : key) (v : val) :
  keeps_sizes (setitem col k v).
Proof.
  intros h. unfold setitem.
  destruct col as [| | | | |r]; try apply same_sizes_refl.
  destruct (h !! r) as [[l|d]|] eqn:Hr; [destruct k as [z|s]| |]; cbv zeta;
    try destruct (_ || _); simpl; try apply same_sizes_refl.
  - intros r' l' Hr'. destruct (decide (r' = r)) as [->|Hne].
    + rewrite Hr in Hr'. injection Hr' as <-.
      eexists. split.
      * apply list_lookup_insert_eq. eapply lookup_lt_Some; eauto.
      * apply length_insert.
    + exists l'. split; [|reflexivity]. now rewrite list_lookup_insert_ne.
  - intros r' l' Hr'. destruct (decide (r' = r)) as [->|Hne].
    + rewrite Hr in Hr'. discriminate.
    + exists l'. split; [|reflexivity]. now rewrite list_lookup_insert_ne.
Qed.

Lemma keeps_sizes_expand_entry (col : val) (bool_names : list val) (i : nat) :
  keeps_sizes (expand_entry col bool_names i).
Proof.
  apply keeps_sizes_bind.
  - apply quiet_keeps_sizes, quiet_mapM. intros x.
    apply quiet_bind; [apply quiet_reading|]. intros entry.
    apply quiet_bind; [apply quiet_reading|]. intros b. apply quiet_ret.
  - intros flags. apply keeps_sizes_bind; [apply keeps_sizes_alloc|].
    intros fresh. apply keeps_sizes_setitem.
Qed.

Lemma keeps_sizes_expand_column (cols : list val) (col : val) :
  keeps_sizes (expand_column cols col).
Proof.
  apply keeps_sizes_bind; [apply quiet_keeps_sizes, quiet_reading|]. intros first.
  destruct (has_iter first); [|apply quiet_keeps_sizes, quiet_ret].
  apply keeps_sizes_bind; [apply quiet_keeps_sizes, quiet_collect_items|]. intros items.
  apply keeps_sizes_bind; [apply keeps_sizes_alloc|]. intros names.
  apply keeps_sizes_bind; [apply quiet_keeps_sizes, quiet_reading|]. intros idx.
  apply keeps_sizes_bind; [apply quiet_keeps_sizes, quiet_reading|]. intros n.
  apply keeps_sizes_bind; [|intros; apply quiet_keeps_sizes, quiet_ret].
  apply keeps_sizes_mapM. intros i. apply keeps_sizes_expand_entry.
Qed.

Lemma keeps_sizes_expand_columns (cols : list val) :
  keeps_sizes (expand_columns cols).
Proof.
  apply keeps_sizes_bind; [|intros; apply quiet_keeps_sizes, quiet_ret].
  apply keeps_sizes_mapM. intros col. apply keeps_sizes_expand_column.
Qed.

Lemma labels_exist (keystrings : list string) :
  Forall has_letter keystrings ->
  exists header,
    Forall2 (fun ks label => prettify_one (VStr ks) = Ok label) keystrings header.
Proof.
  induction 1 as [|ks kss Hks _ (header & IH)]; [exists []; constructor|].
  destruct (search_alpha_has_letter ks Hks) as [l Hl].
  exists (VStr (PyStr.sub_colon l) :: header). constructor; [|exact IH].
  simpl. now rewrite Hl.
Qed.

Lemma column_sequences (h : heap) (n : nat) (cols : list val) :
  Forall (fun col => exists l items,
              col = VRef l /\ h !! l = Some (OList items) /\ length items = n) cols ->
  exists seqs,
    Forall2 (fun col items => exists l, col = VRef l /\ h !! l = Some (OList items))
            cols seqs /\
    Forall (fun items => length items = n) seqs.
Proof.
  induction 1 as [|col cols (l & items & -> & Hl & Hn) _ (seqs & IH & Hlen)].
  - exists []. split; constructor.
  - exists (items :: seqs). split; constructor; eauto.
Qed.

Lemma row_entries (h : heap) (n j : nat) (cols : list val) (seqs : list (list val)) :
  Forall2 (fun col items => exists l, col = VRef l /\ h !! l = Some (OList items))
          cols seqs ->
  Forall (fun items => length items = n) seqs -> (j < n)%nat ->
  Forall2 (fun col entry => getitem h col (KInt (Z.of_nat j)) = Ok entry)
          cols (row_of seqs j).
Proof.
  intros Hcols Hlen Hj.
  induction Hcols as [|col items cols seqs (l & -> & Hl) _ IH].
  - constructor.
  - inversion Hlen as [|? ? Hitems Hrest]; subst. rewrite row_of_cons.
    destruct (lookup_lt_is_Some_2 items j Hj) as [e He]. rewrite He.
    constructor; [|now apply IH].
    unfold getitem. rewrite Hl. unfold seq_index.
    replace (Z.of_nat j <? 0) with false by (symmetry; apply Z.ltb_ge; lia).
    cbv zeta iota.
    replace (Z.of_nat j <? 0) with false by (symmetry; apply Z.ltb_ge; lia).
    now rewrite Nat2Z.id, He.
Qed.

Lemma row_of_Forall (P : val -> Prop) (seqs : list (list val)) (j : nat) :
  Forall (Forall P) seqs -> Forall P (row_of seqs j).
Proof.
  induction 1 as [|c seqs Hc _ IH]; [constructor|].
  rewrite row_of_cons. destruct (c !! j) as [v|] eqn:E; [|exact IH].
  constructor; [|exact IH].
  exact (proj1 (Forall_forall _ _) Hc v (list_elem_of_lookup_2 _ _ _ E)).
Qed.

Lemma row_of_length (n j : nat) (seqs : list (list val)) :
  Forall (fun items => length items = n) seqs -> (j < n)%nat ->
  length (row_of seqs j) = length seqs.
Proof.
  intros Hlen Hj. induction Hlen as [|c seqs Hc _ IH]; [reflexivity|].
  rewrite row_of_cons. subst n.
  destruct (lookup_lt_is_Some_2 c j Hj) as [e He]. rewrite He. simpl. now rewrite IH.
Qed.

Lemma flatten_row_spliced (h : heap) (row : list val) :
  Forall (fun v => wf_val (length h) v = true) row ->
  exists cellss,
    Forall2 (spliced h) row cellss /\
    flatten_row row h = (h, Ok (concat cellss)).
Proof.
  unfold flatten_row. intros Hwf.
  assert (Hcells : exists cellss,
             Forall2 (spliced h) row cellss /\
             mapM (fun cell => if has_iter cell
                               then reading (fun h' => iterate h' cell)
                               else ret [cell]) row h = (h, Ok cellss)).
  { induction Hwf as [|v row Hv _ (cellss & Hsp & E)].
    - exists []. split; [constructor | reflexivity].
    - cbn [mapM]. destruct (has_iter v) eqn:Hi.
      + destruct (iterate_total h v Hv Hi) as [l Hl].
        exists (l :: cellss). split.
        * constructor; [|exact Hsp]. unfold spliced. now rewrite Hi.
        * unfold bind at 1, reading at 1. rewrite Hl.
          now rewrite (bind_ok _ _ _ _ _ E).
      + exists ([v] :: cellss). split.
        * constructor; [|exact Hsp]. unfold spliced. now rewrite Hi.
        * unfold bind at 1, ret at 1. now rewrite (bind_ok _ _ _ _ _ E). }
  destruct Hcells as (cellss & Hsp & E).
  exists cellss. split; [exact Hsp|]. now rewrite (bind_ok _ _ _ _ _ E).
Qed.

Lemma flatten_rows_spliced (h : heap) (rows : list (list val)) :
  Forall (Forall (fun v => wf_val (length h) v = true)) rows ->
  exists data,
    mapM flatten_row rows h = (h, Ok data) /\
    Forall2 (fun row out => exists cellss,
                 Forall2 (spliced h) row cellss /\ out = concat cellss)
            rows data.
Proof.
  induction 1 as [|row rows Hrow _ (data & E & IH)].
  - exists []. split; [reflexivity | constructor].
  - destruct (flatten_row_spliced h row Hrow) as (cellss & Hsp & Er).
    exists (concat cellss :: data). split.
    + cbn [mapM]. now rewrite (bind_ok _ _ _ _ _ Er), (bind_ok _ _ _ _ _ E).
    + constructor; [eauto | exact IH].
Qed.

Lemma spliced_scalars (h : heap) (entries : list val) (cellss : list (list val)) :
  Forall (fun v => is_scalar v = true) entries ->
  Forall2 (spliced h) entries cellss -> concat cellss = entries.
Proof.
  intros Hsc Hsp. induction Hsp as [|e cells entries cellss He _ IH]; [reflexivity|].
  inversion Hsc as [|? ? Hes Hrest]; subst.
  unfold spliced, is_scalar in *. apply negb_true_iff in Hes. rewrite Hes in He.
  subst cells. simpl. now rewrite IH.
Qed.

End Splicing.

(** C1 (as the code has it).  Take [N] records in a store without
    dangling references and expressions that each start with a wildcard,
    hold a letter and resolve without error; flattening is on.

    With the expansion off [tablefy] returns a table: the header row
    followed by exactly [N] data rows, for any mix of scalar and
    list-valued columns.  The header row has one cell per expression,
    its label.  The data row at position [j] is made of the entry at
    position [j] of each column in turn: a scalar entry gives one cell,
    an iterable entry is spliced in as its elements.  So when no column
    entry is iterable every row has one cell per expression.

    With the expansion on, at least one record and no column whose
    first entry is iterable, no column is expanded and the call does
    what it does with the expansion off.

    With the expansion on in general the call can fail; whenever it
    returns a table there is at least one record and the table has the
    header row followed by exactly [N] data rows. *)
Theorem C1_header_and_one_row_per_record
    (keystring : string) (r : loc) (recs : list val) (h h1 : heap) (cols : list val) :
  wf_heap h = true ->
  h !! r = Some (OList recs) ->
  Forall (fun ks => leading_wildcard ks = true) (keystrings_of keystring) ->
  Forall has_letter (keystrings_of keystring) ->
  get_columns (keystrings_of keystring) (VRef r) h = (h1, Ok cols) ->
  (exists header data,
     tablefy keystring (VRef r) false true h = (h1, Ok (header :: data)) /\
     Forall2 (fun ks label => prettify_one (VStr ks) = Ok label)
             (keystrings_of keystring) header /\
     length data = length recs /\
     (forall j row, data !! j = Some row ->
        exists entries cellss,
          Forall2 (fun col entry => getitem h1 col (KInt (Z.of_nat j)) = Ok entry)
                  cols entries /\
          Forall2 (spliced h1) entries cellss /\
          row = concat cellss) /\
     (Forall (fun col => forall items, iterate h1 col = Ok items ->
                           Forall (fun v => is_scalar v = true) items) cols ->
      Forall (fun row => length row = length (keystrings_of keystring))
             (header :: data))) /\
  (recs <> [] ->
   Forall (fun col => forall first, getitem h1 col (KInt 0) = Ok first ->
                        is_scalar first = true) cols ->
   tablefy keystring (VRef r) true true h
   = tablefy keystring (VRef r) false true h) /\
  (forall h2 rows,
     tablefy keystring (VRef r) true true h = (h2, Ok rows) ->
     recs <> [] /\ length rows = S (length recs)).
Proof.
  intros Hwf Hr Hwild Hletters Hcols.
  set (n := length recs).
  destruct (get_columns_shape r recs _ Hwild h h1 cols Hwf Hr Hcols)
    as (Hp & Hwf1 & Hlen & Hshape).
  fold n in Hshape.
  destruct (columns_as_sequences h1 n cols Hwf1 Hshape)
    as (seqs0 & Hiter0 & Hlens & _ & _).
  assert (Hcne : cols <> []).
  { intros ->. simpl in Hlen. unfold keystrings_of in Hlen.
    rewrite length_map in Hlen.
    pose proof (split_nonempty "," keystring) as Hs.
    destruct (PyStr.split "," keystring); [contradiction | discriminate]. }
  (* What the rows are made of, in any store where the columns are
     lists of [n] entries. *)
  assert (Hzip : forall hx,
             Forall (fun col => exists l items,
                         col = VRef l /\ hx !! l = Some (OList items) /\
                         length items = n) cols ->
             exists seqs,
               Forall2 (fun col items => exists l,
                            col = VRef l /\ hx !! l = Some (OList items)) cols seqs /\
               Forall (fun items => length items = n) seqs /\
               (let* seqs1 := mapM (fun col => reading (fun h0 => iterate h0 col)) cols
                in ret (py_zip seqs1)) hx
               = (hx, Ok (map (row_of seqs) (seq 0 n)))).
  { intros hx Hsh. destruct (column_sequences hx n cols Hsh) as (seqs & Hcs & Hsl).
    exists seqs. split; [exact Hcs|]. split; [exact Hsl|].
    assert (Hit : Forall2 (fun col items => iterate hx col = Ok items) cols seqs).
    { eapply Forall2_impl; [exact Hcs|]. intros col items (l & -> & Hl).
      simpl. now rewrite Hl. }
    rewrite (bind_ok _ _ _ _ _ (iterate_columns hx cols seqs Hit)).
    unfold ret. do 2 f_equal. unfold py_zip.
    destruct seqs as [|c seqs']; [inversion Hcs; subst; contradiction|].
    assert (Hc : length c = n) by now inversion Hsl.
    rewrite Hc. now apply zip_rows_row_of. }
  split; [|split].
  - destruct (Hzip h1 Hshape) as (seqs & Hcs & Hsl & Hdata).
    destruct (labels_exist _ Hletters) as (header & Hlabels).
    destruct (prettify_labels h1 _ header Hlabels) as [Hpretty Hsc].
    assert (Hseqwf : Forall (Forall (fun v => wf_val (length h1) v = true)) seqs).
    { clear - Hcs Hwf1. induction Hcs as [|col items cols seqs (l & -> & Hl) _ IH];
        constructor; [|exact IH].
      pose proof (wf_heap_lookup h1 l _ Hwf1 Hl) as Hitems. simpl in Hitems.
      rewrite forallb_forall in Hitems. apply Forall_forall.
      intros v Hv. apply Hitems. now apply list_elem_of_In. }
    assert (Hrowswf : Forall (Forall (fun v => wf_val (length h1) v = true))
                        (map (row_of seqs) (seq 0 n))).
    { apply Forall_fmap, Forall_forall. intros j _. now apply row_of_Forall. }
    destruct (flatten_rows_spliced h1 _ Hrowswf) as (data & Hflat & Hspl).
    destruct (flatten_row_ok h1 header) as (header' & Hhead & Hsame).
    { eapply Forall_impl; [exact Hsc|]. intros v. apply scalar_wf. }
    rewrite (Hsame Hsc) in Hhead. clear header' Hsame.
    assert (Hdlen : length data = n).
    { rewrite <- (Forall2_length _ _ _ Hspl), length_map. apply length_seq. }
    assert (Hrow : forall j row, data !! j = Some row ->
               (j < n)%nat /\
               exists cellss, Forall2 (spliced h1) (row_of seqs j) cellss /\
                              row = concat cellss).
    { intros j row Hj.
      destruct (Forall2_lookup_r _ _ _ _ _ Hspl Hj) as (urow & Hu & cellss & Hsp & ->).
      rewrite list_lookup_fmap in Hu.
      destruct (seq 0 n !! j) as [j'|] eqn:Ej; [|discriminate].
      apply lookup_seq in Ej as [-> Hjn]. simpl in Hu. injection Hu as <-.
      split; [exact Hjn | eauto]. }
    exists header, data. split; [|split; [exact Hlabels|split; [exact Hdlen|split]]].
    + unfold tablefy. cbv zeta.
      rewrite (bind_ok _ _ _ _ _ Hcols).
      rewrite (bind_ok _ _ _ _ _ (assert_same_length_ok h1 cols _ Hlens)).
      unfold bind at 1, ret at 1. unfold update_header. simpl fold_left.
      rewrite (bind_ok _ _ _ _ _ Hpretty), (bind_ok _ _ _ _ _ Hdata).
      cbn [mapM]. now rewrite (bind_ok _ _ _ _ _ Hhead), (bind_ok _ _ _ _ _ Hflat).
    + intros j row Hj. destruct (Hrow j row Hj) as (Hjn & cellss & Hsp & ->).
      exists (row_of seqs j), cellss. split; [|split; [exact Hsp | reflexivity]].
      now apply (row_entries h1 n).
    + intros Hscalar. constructor.
      * rewrite <- (Forall2_length _ _ _ Hlabels). reflexivity.
      * apply Forall_forall. intros row Hin.
        apply list_elem_of_lookup_1 in Hin as [j Hj].
        destruct (Hrow j row Hj) as (Hjn & cellss & Hsp & ->).
        assert (Hssc : Forall (Forall (fun v => is_scalar v = true)) seqs).
        { clear - Hcs Hscalar.
          induction Hcs as [|col items cols seqs (l & -> & Hl) _ IH];
            inversion Hscalar as [|? ? Hc Hrest]; subst; constructor; auto.
          apply Hc. simpl. now rewrite Hl. }
        rewrite (spliced_scalars h1 _ _ (row_of_Forall _ seqs j Hssc) Hsp).
        rewrite (row_of_length n j seqs Hsl Hjn).
        rewrite <- (Forall2_length _ _ _ Hcs). exact Hlen.
  - intros Hne Hfirst.
    assert (Hnone : expand_columns cols h1 = (h1, Ok [])).
    { unfold expand_columns.
      assert (Hfound : mapM (expand_column cols) cols h1
                       = (h1, Ok (map (fun _ => None) cols))).
      { apply mapM_pure. generalize cols at 1. intros cols'.
        clear - Hshape Hfirst Hne. 
        induction Hshape as [|col cols (l & items & -> & Hl & Hn) _ IH];
          inversion Hfirst as [|? ? Hc Hrest]; subst; constructor; auto.
        destruct items as [|x xs].
        - destruct recs; [contradiction | discriminate].
        - apply (expand_scalar_column cols' h1 l x xs Hl).
          apply Hc. simpl. now rewrite Hl. }
      rewrite (bind_ok _ _ _ _ _ Hfound). unfold ret. do 2 f_equal.
      clear. induction cols as [|c cols IH]; [reflexivity | exact IH]. }
    unfold tablefy. cbv zeta.
    rewrite !(bind_ok _ _ _ _ _ Hcols).
    rewrite !(bind_ok _ _ _ _ _ (assert_same_length_ok h1 cols _ Hlens)).
    now rewrite (bind_ok _ _ _ _ _ Hnone).
  - intros h2 rows Hrun.
    unfold tablefy in Hrun. cbv zeta in Hrun.
    rewrite (bind_ok _ _ _ _ _ Hcols) in Hrun.
    rewrite (bind_ok _ _ _ _ _ (assert_same_length_ok h1 cols _ Hlens)) in Hrun.
    unfold bind at 1 in Hrun.
    pose proof (keeps_sizes_expand_columns cols h1) as Hsizes.
    destruct (expand_columns cols h1) as [hx [ce|e]] eqn:Eexp; [|discriminate].
    simpl in Hsizes.
    split.
    + intros ->.
      destruct cols as [|col cols']; [contradiction|].
      inversion Hshape as [|? ? (l & items & -> & Hl & Hn) _]; subst.
      destruct items; [|discriminate].
      unfold expand_columns in Eexp. cbn [mapM] in Eexp.
      unfold bind at 1 2 in Eexp. unfold expand_column at 1 in Eexp.
      unfold bind at 1, reading at 1, getitem in Eexp. rewrite Hl in Eexp.
      discriminate.
    + assert (Hshx : Forall (fun col => exists l items,
                                col = VRef l /\ hx !! l = Some (OList items) /\
                                length items = n) cols).
      { eapply Forall_impl; [exact Hshape|]. intros col (l & items & -> & Hl & Hn).
        destruct (Hsizes l items Hl) as (items' & Hl' & Hn').
        exists l, items'. repeat split; [exact Hl' | lia]. }
      destruct (Hzip hx Hshx) as (seqs & _ & _ & Hdata).
      unfold bind at 1 in Hrun.
      pose proof (quiet_prettify (update_header (map VStr (keystrings_of keystring)) ce) hx)
        as Hq.
      destruct (prettify _ hx) as [hy [header|e]]; [|discriminate].
      simpl in Hq. subst hy.
      rewrite (bind_ok _ _ _ _ _ Hdata) in Hrun.
      apply mapM_length in Hrun. rewrite Hrun. simpl.
      now rewrite length_map, length_seq.
Qed.

Lemma C1_witness :
  ((exists header data,
      tablefy ":c" (VRef 2%nat) false true Ex.late_tuple
      = (Ex.late_tuple ++ [OList [VInt 1; VTuple [VInt 1; VInt 2]]],
         Ok (header :: data)) /\
      Forall2 (fun ks label => prettify_one (VStr ks) = Ok label)
              (keystrings_of ":c") header /\
      length data = length [VRef 0%nat; VRef 1%nat] /\
      (forall j row, data !! j = Some row ->
         exists entries cellss,
           Forall2 (fun col entry =>
                      getitem (Ex.late_tuple ++ [OList [VInt 1; VTuple [VInt 1; VInt 2]]])
                              col (KInt (Z.of_nat j)) = Ok entry)
                   [VRef 3%nat] entries /\
           Forall2 (spliced (Ex.late_tuple ++ [OList [VInt 1; VTuple [VInt 1; VInt 2]]]))
                   entries cellss /\
           row = concat cellss)) /\
   tablefy ":c" (VRef 2%nat) true true Ex.late_tuple
   = tablefy ":c" (VRef 2%nat) false true Ex.late_tuple /\
   (forall h2 rows,
      tablefy ":c" (VRef 2%nat) true true Ex.late_tuple = (h2, Ok rows) ->
      length rows = 3%nat)) /\
  (exists h2 rows,
     tablefy ":c" (VRef 4%nat) true true Ex.class_records = (h2, Ok rows) /\
     length rows = S (length [VRef 2%nat; VRef 3%nat])) /\
  (exists header data,
     tablefy ":n, :m" (VRef 3%nat) false true Ex.flat_records
     = (Ex.flat_records ++ [OList [VStr "x"; VStr "y"; VStr "z"];
                            OList [VInt 1; VInt 2; VNone]],
        Ok (header :: data)) /\
     Forall (fun row => length row = 2%nat) (header :: data)).
Proof.
  split.
  - destruct (C1_header_and_one_row_per_record ":c" 2%nat
                [VRef 0%nat; VRef 1%nat] Ex.late_tuple
                (Ex.late_tuple ++ [OList [VInt 1; VTuple [VInt 1; VInt 2]]])
                [VRef 3%nat])
      as ((header & data & Hrun & Hlabels & Hlen & Hrows & _) & Hsame & Hon).
    + reflexivity.
    + reflexivity.
    + repeat constructor.
    + constructor; [|constructor]. apply Exists_cons_tl, Exists_cons_hd. reflexivity.
    + reflexivity.
    + split; [|split].
      * exists header, data. auto.
      * apply Hsame; [discriminate|]. constructor; [|constructor].
        intros first [= <-]. reflexivity.
      * intros h2 rows Hrun2. now destruct (Hon h2 rows Hrun2).
  - split.
    + destruct (C1_header_and_one_row_per_record ":c" 4%nat
                  [VRef 2%nat; VRef 3%nat] Ex.class_records
                  (Ex.class_records ++ [OList [VRef 0%nat; VRef 1%nat]])
                  [VRef 5%nat])
        as (_ & _ & Hon).
      * reflexivity.
      * reflexivity.
      * repeat constructor.
      * constructor; [|constructor]. apply Exists_cons_tl, Exists_cons_hd. reflexivity.
      * reflexivity.
      * assert (E : exists h2 rows,
                   tablefy ":c" (VRef 4%nat) true true Ex.class_records = (h2, Ok rows))
          by (eexists _, _; vm_compute; reflexivity).
        destruct E as (h2 & rows & E). exists h2, rows.
        split; [exact E | exact (proj2 (Hon h2 rows E))].
    + destruct (C1_header_and_one_row_per_record ":n, :m" 3%nat
                  [VRef 0%nat; VRef 1%nat; VRef 2%nat] Ex.flat_records
                  (Ex.flat_records ++ [OList [VStr "x"; VStr "y"; VStr "z"];
                                       OList [VInt 1; VInt 2; VNone]])
                  [VRef 4%nat; VRef 5%nat])
        as ((header & data & Hrun & _ & _ & _ & Hrect) & _ & _).
      * reflexivity.
      * reflexivity.
      * repeat constructor.
      * constructor; [|constructor; [|constructor]];
          apply Exists_cons_tl, Exists_cons_hd; reflexivity.
      * reflexivity.
      * exists header, data. split; [exact Hrun|]. apply Hrect.
        constructor; [|constructor; [|constructor]];
          intros items [= <-]; repeat constructor.
Defined.

(** C1 as stated fails, whether the expansion is on or off: with the
    records [[{"c": 1}, {"c": (1, 2)}]] and the expression [":c"] the
    column starts with a scalar, so it is never expanded, and
    flattening gives a header of 1 cell and data rows of 1 and 2 cells.
    With the expansion off a column of tuples of different lengths does
    the same: the records
    [[{"n": "x", "c": (1, 2)}, {"n": "y", "c": (1,)}]] and the expressions
    [":n, :c"] give a header of 2 cells and data rows of 3 and 2
    cells. *)
Lemma C1_counterexample :
  ((forall expand_lists_to_bool : bool,
      (tablefy ":c" (VRef 2%nat) expand_lists_to_bool true Ex.late_tuple).2
      = Ok [[VStr "c"]; [VInt 1]; [VInt 1; VInt 2]]) /\
   ~ (exists n : nat,
         Forall (fun row : list val => length row = n)
           [[VStr "c"]; [VInt 1]; [VInt 1; VInt 2]])) /\
  ((tablefy ":n, :c" (VRef 2%nat) false true Ex.ragged_records).2
   = Ok [[VStr "n"; VStr "c"]; [VStr "x"; VInt 1; VInt 2]; [VStr "y"; VInt 1]] /\
   ~ (exists n : nat,
         Forall (fun row : list val => length row = n)
           [[VStr "n"; VStr "c"]; [VStr "x"; VInt 1; VInt 2]; [VStr "y"; VInt 1]])).
Proof.
  split; split.
  - intros [|]; vm_compute; reflexivity.
  - intros [n Hn]. inversion Hn as [|? ? H1 Hn']; subst.
    inversion Hn' as [|? ? H2 Hn'']; subst.
    inversion Hn'' as [|? ? H3 _]; subst. simpl in H3. discriminate.
  - vm_compute; reflexivity.
  - intros [n Hn]. inversion Hn as [|? ? H1 Hn']; subst.
    inversion Hn' as [|? ? H2 _]; subst. simpl in H2. discriminate.
Qed.

(** * Further properties *)

(** ** access: direct addressing *)

Section DirectAddressing.

Lemma seq_index_below {A} (l : list A) (z : Z) (x : A) :
  seq_index l z = Ok x -> z < Z.of_nat (length l).
Proof.
  unfold seq_index. destruct (Z.ltb_spec z 0) as [Hneg|Hpos].
  - intros _. lia.
  - destruct (Z.ltb_spec z 0); [lia|].
    destruct (l !! Z.to_nat z) as [y|] eqn:E; [|discriminate].
    intros _. apply lookup_lt_Some in E. lia.
Qed.

Lemma lookup_last_found (h : heap) (c : val) (k : key) (v : val) :
  has_iter c = true -> getitem h c k = Ok v ->
  lookup_last k c h = (h, Ok v).
Proof.
  intros Hc Hv. unfold lookup_last.
  destruct c as [| | | | items | r]; try discriminate.
  - simpl in *. destruct k as [z|s]; [|discriminate].
    unfold bind, reading. simpl.
    pose proof (seq_index_below items z v Hv) as Hlt.
    destruct (Z.ltb_spec z (Z.of_nat (length items))); [|lia].
    simpl. now rewrite Hv.
  - unfold is_dict, dict_entries, bind, reading. simpl in *.
    destruct (h !! r) as [[items|d]|] eqn:Hr; [| |discriminate].
    + destruct k as [z|s]; [|discriminate]. simpl. rewrite Hr.
      pose proof (seq_index_below items z v Hv) as Hlt.
      simpl. destruct (Z.ltb_spec z (Z.of_nat (length items))); [|lia].
      rewrite Hr. now rewrite Hv.
    + unfold dict_mem. destruct (dict_get d k) as [x|] eqn:Hk; [|discriminate].
      simpl. rewrite Hr, Hk. exact (f_equal (pair h) Hv).
Qed.

Lemma use_key_direct (h : heap) (pre : list key) :
  forall (c c' : val) (k : key) (v : val),
    Forall (fun k' => is_wildcard k' = false) (pre ++ [k]) ->
    index_path h c pre = Ok c' -> has_iter c' = true -> getitem h c' k = Ok v ->
    use_key (pre ++ [k]) c h = (h, Ok v).
Proof.
  induction pre as [|k1 pre IH]; intros c c' k v Hkeys Hpath Hc' Hv.
  - simpl in Hpath. injection Hpath as <-.
    inversion Hkeys as [|? ? Hk _]; subst.
    simpl. rewrite Hk. now apply lookup_last_found.
  - inversion Hkeys as [|? ? Hk1 Hrest]; subst.
    simpl in Hpath. destruct (getitem h c k1) as [c1|e] eqn:E1; [|discriminate].
    change ((k1 :: pre) ++ [k]) with (k1 :: (pre ++ [k])).
    cbn [use_key]. rewrite Hk1.
    assert (Hlen : (1 <? length (k1 :: pre ++ [k]))%nat = true).
    { apply Nat.ltb_lt. simpl. rewrite length_app. simpl. lia. }
    rewrite Hlen. unfold bind, reading. rewrite E1.
    eapply IH; eauto.
Qed.

End DirectAddressing.

(** X1.  Direct addressing is Python's indexing: when no segment is a
    wildcard, the chained lookups [c[k1]...[kn]] all succeed and the
    last one is made on a list, a tuple or a dictionary, [use_key]
    returns the value they reach and leaves the store as it was. *)
Theorem X1_direct_addressing_is_indexing
    (h : heap) (pre : list key) (k : key) (c c' v : val) :
  Forall (fun k' => is_wildcard k' = false) (pre ++ [k]) ->
  index_path h c pre = Ok c' -> has_iter c' = true -> getitem h c' k = Ok v ->
  use_key (pre ++ [k]) c h = (h, Ok v)
  /\ index_path h c (pre ++ [k]) = Ok v.
Proof.
  intros Hkeys Hpath Hc' Hv. split; [eapply use_key_direct; eauto|].
  clear Hkeys Hc'. revert c Hpath.
  induction pre as [|k1 pre IH]; intros c Hpath; simpl in *.
  - injection Hpath as <-. now rewrite Hv.
  - destruct (getitem h c k1); [now apply IH | discriminate].
Qed.

Lemma X1_witness :
  use_key ([KStr "a"] ++ [KStr "b"]) (VRef 1%nat) Ex.nested_dict
  = (Ex.nested_dict, Ok (VInt 5))
  /\ index_path Ex.nested_dict (VRef 1%nat) ([KStr "a"] ++ [KStr "b"]) = Ok (VInt 5).
Proof.
  apply (X1_direct_addressing_is_indexing Ex.nested_dict [KStr "a"] (KStr "b")
           (VRef 1%nat) (VRef 0%nat) (VInt 5)).
  - repeat constructor.
  - reflexivity.
  - reflexivity.
  - reflexivity.
Defined.

(** ** access: parsing one segment, fanning out *)

Section Segments.

Lemma rstrip_colon_free (s : string) : colon_free s -> PyStr.rstrip ":" s = s.
Proof.
  unfold colon_free. induction s as [|c t IH]; simpl; [reflexivity|].
  intros H. inversion H as [|? ? Hc Ht]; subst. rewrite (IH Ht).
  destruct t; [|reflexivity].
  apply Ascii.eqb_neq in Hc. now rewrite Hc.
Qed.

Lemma split_colon_free (s : string) : colon_free s -> PyStr.split ":" s = [s].
Proof.
  unfold colon_free. induction s as [|c t IH]; simpl; [reflexivity|].
  intros H. inversion H as [|? ? Hc Ht]; subst. rewrite (IH Ht).
  apply Ascii.eqb_neq in Hc. now rewrite Hc.
Qed.

Lemma key_sequence_single (s : string) :
  colon_free s -> key_sequence s = [parse_segment s].
Proof.
  intros H. unfold key_sequence.
  now rewrite (rstrip_colon_free s H), (split_colon_free s H).
Qed.

Lemma all_digits_colon_free (s : string) : all_digits s -> colon_free s.
Proof.
  intros [_ H]. unfold colon_free. eapply Forall_impl; [exact H|].
  intros c Hc ->. change (nat_of_ascii ":") with 58%nat in Hc. lia.
Qed.

Lemma key_sequence_leading_colon (p : string) :
  PyStr.rstrip ":" p <> EmptyString ->
  key_sequence (String ":" p) = KStr "" :: key_sequence p.
Proof.
  intros Hp. unfold key_sequence. simpl PyStr.rstrip.
  destruct (PyStr.rstrip ":" p) as [|a b] eqn:E; [contradiction|].
  reflexivity.
Qed.

End Segments.

(** X2.  A leading wildcard maps the rest of the expression over a list:
    [access(":" + p, lst)] runs [access(p, x)] on every element [x] of
    [lst], in order, and answers with the new list of the results.  The
    first element on which [access(p, x)] raises ends the call with that
    exception. *)
Theorem X2_leading_wildcard_maps_over_list
    (p : string) (r : loc) (elems : list val) (h : heap) :
  h !! r = Some (OList elems) -> PyStr.rstrip ":" p <> EmptyString ->
  access (String ":" p) (VRef r) h
  = (let* items := mapM (access p) elems in alloc (OList items)) h.
Proof.
  intros Hr Hp. unfold access at 1. rewrite (key_sequence_leading_colon p Hp).
  cbn [use_key is_wildcard]. unfold bind at 1.
  unfold fan_out, is_dict. rewrite Hr. cbn [has_iter].
  unfold bind at 1, reading at 1, iterate. rewrite Hr. reflexivity.
Qed.

Lemma X2_witness :
  access (String ":" "x") (VRef 3%nat) Ex.three_records
  = (let* items := mapM (access "x") [VRef 0%nat; VRef 1%nat; VRef 2%nat] in
     alloc (OList items)) Ex.three_records.
Proof.
  apply (X2_leading_wildcard_maps_over_list "x" 3%nat
           [VRef 0%nat; VRef 1%nat; VRef 2%nat] Ex.three_records).
  - reflexivity.
  - discriminate.
Defined.

(** X3.  A keystring that is one plain string key never raises on a
    store without dangling references: on a dictionary that has the key
    it returns the value stored under it, and on anything else (a
    dictionary without the key, a list, a tuple, a string, a number,
    [None]) it returns [None].  The store is left as it was. *)
Theorem X3_string_key_never_raises (s : string) (c : val) (h : heap) :
  plain_key s -> wf_val (length h) c = true ->
  access s c h
  = (h, Ok (match dict_get (dict_entries h c) (KStr s) with
            | Some v => v
            | None => VNone
            end)).
Proof.
  intros (Hne & Hcf & Hnd) Hwf. unfold access.
  rewrite (key_sequence_single s Hcf), (parse_segment_other s Hnd).
  destruct s as [|a b]; [contradiction|]. cbn [use_key is_wildcard length].
  change (1 <? 1)%nat with false. cbv iota.
  unfold lookup_last, bind, dict_mem.
  destruct c as [| | | | items | r]; try reflexivity.
  simpl in Hwf. apply Nat.ltb_lt, lookup_lt_is_Some in Hwf as [o Ho].
  unfold is_dict, dict_entries, reading, py_len, getitem. rewrite Ho.
  destruct o as [items|d]; [simpl; rewrite Ho; reflexivity|].
  simpl. destruct (dict_get d (KStr (String a b))) as [v|] eqn:E; simpl.
  - rewrite Ho, E. reflexivity.
  - rewrite Ho. reflexivity.
Qed.

Lemma X3_witness :
  access "b" (VRef 0%nat) Ex.nested_dict
  = (Ex.nested_dict,
     Ok (match dict_get (dict_entries Ex.nested_dict (VRef 0%nat)) (KStr "b") with
         | Some v => v
         | None => VNone
         end)).
Proof.
  apply (X3_string_key_never_raises "b" (VRef 0%nat) Ex.nested_dict).
  - split; [discriminate|]. split.
    + repeat constructor; discriminate.
    + intros [_ H]. inversion H as [|? ? Hc _]; subst.
      change (nat_of_ascii "b") with 98%nat in Hc. lia.
  - reflexivity.
Defined.

(** X4.  A segment made of digits is always an integer, so it never finds
    an entry of a dictionary whose keys are all strings, not even one
    stored under the same digits: the result is [None] when the number is
    at least the size of the dictionary and [KeyError] when it is
    smaller. *)
Theorem X4_digits_never_match_string_keys
    (seg : string) (r : loc) (d : list (key * val)) (h : heap) :
  all_digits seg -> h !! r = Some (ODict d) ->
  Forall (fun kv => exists s, kv.1 = KStr s) d ->
  access seg (VRef r) h
  = (h, if PyStr.int seg <? Z.of_nat (length d) then Raise KeyError else Ok VNone).
Proof.
  intros Hd Hr Hkeys. unfold access.
  rewrite (key_sequence_single seg (all_digits_colon_free seg Hd)).
  rewrite (parse_segment_digits seg Hd).
  assert (Hget : dict_get d (KInt (PyStr.int seg)) = None).
  { clear Hr. induction Hkeys as [|[k v] d' [s Hs] _ IH]; [reflexivity|].
    simpl in Hs. subst k. simpl. exact IH. }
  cbn [use_key is_wildcard length]. change (1 <? 1)%nat with false. cbv iota.
  unfold lookup_last, bind, dict_mem, is_dict, dict_entries, reading, py_len.
  rewrite Hr, Hget. cbn [andb has_iter key_lt_len]. rewrite Hr. unfold ret.
  destruct (PyStr.int seg <? Z.of_nat (length d)); [|reflexivity].
  unfold getitem. now rewrite Hr, Hget.
Qed.

Lemma X4_witness :
  access "0" (VRef 0%nat) Ex.digit_key
  = (Ex.digit_key,
     if PyStr.int "0" <? Z.of_nat (length [(KStr "0", VInt 7)])
     then Raise KeyError else Ok VNone).
Proof.
  apply (X4_digits_never_match_string_keys "0" 0%nat [(KStr "0", VInt 7)] Ex.digit_key).
  - split; [discriminate|].
    constructor; [change (nat_of_ascii "0") with 48%nat; lia | constructor].
  - reflexivity.
  - constructor; [eexists; reflexivity | constructor].
Defined.

(** X5.  On a scalar container a final key gives [None] and no error,
    also an index into a string; a key that is not final raises
    [TypeError] on [None], a boolean or a number. *)
Theorem X5_keys_on_scalars (k : key) (c : val) (h : heap) :
  is_wildcard k = false -> is_scalar c = true ->
  use_key [k] c h = (h, Ok VNone) /\
  (forall rest : list key,
      rest <> [] -> (forall s, c <> VStr s) ->
      use_key (k :: rest) c h = (h, Raise TypeError)).
Proof.
  intros Hk Hc. split.
  - cbn [use_key length]. rewrite Hk. change (1 <? 1)%nat with false. cbv iota.
    destruct c; try discriminate; reflexivity.
  - intros rest Hrest Hstr. destruct rest as [|k1 rest]; [contradiction|].
    cbn [use_key]. rewrite Hk.
    change (1 <? length (k :: k1 :: rest))%nat with true. cbv iota.
    destruct c as [| | | s | |]; try discriminate; try reflexivity.
    now destruct (Hstr s).
Qed.

Lemma X5_witness :
  use_key [KStr "a"] VNone [] = ([], Ok VNone) /\
  use_key (KStr "a" :: [KStr "b"]) VNone [] = ([], Raise TypeError).
Proof.
  destruct (X5_keys_on_scalars (KStr "a") VNone [] eq_refl eq_refl) as [Hlast Hmid].
  split; [exact Hlast|]. apply Hmid; discriminate.
Defined.

(** ** tablefy: expressions and labels *)

Section Labels.

Lemma search_alpha_skip (pre s : string) :
  no_letter pre -> PyStr.search_alpha (pre ++ s) = PyStr.search_alpha s.
Proof.
  unfold no_letter. induction pre as [|c t IH]; intros H; [reflexivity|].
  inversion H as [|? ? Hc Ht]; subst.
  change (String c t ++ s)%string with (String c (t ++ s)%string).
  simpl. rewrite Hc. now apply IH.
Qed.

Lemma take_until_newline_app (t rest : string) :
  label_text t ->
  PyStr.take_until PyStr.is_newline (t ++ rest)
  = (t ++ PyStr.take_until PyStr.is_newline rest)%string.
Proof.
  unfold label_text. induction t as [|c t IH]; intros H; [reflexivity|].
  inversion H as [|? ? [_ Hc] Ht]; subst.
  change (String c t ++ rest)%string with (String c (t ++ rest)%string).
  change (String c t ++ PyStr.take_until PyStr.is_newline rest)%string
    with (String c (t ++ PyStr.take_until PyStr.is_newline rest)%string).
  simpl. rewrite Hc. now rewrite IH.
Qed.

Lemma skip_line_take_until (s : string) :
  PyStr.skip_line (PyStr.take_until PyStr.is_newline s) = EmptyString.
Proof.
  induction s as [|c t IH]; simpl; [reflexivity|].
  destruct (PyStr.is_newline c) eqn:E; [reflexivity|].
  simpl. now rewrite E.
Qed.

Lemma sub_colon_fuel_label (t tail : string) :
  label_text t ->
  (tail = EmptyString \/
   exists r, tail = String ":" (PyStr.take_until PyStr.is_newline r)) ->
  forall fuel, (String.length t < fuel)%nat ->
               PyStr.sub_colon_fuel fuel (t ++ tail) = t.
Proof.
  unfold label_text. induction t as [|c t IH]; intros H Htail fuel Hfuel.
  - change (EmptyString ++ tail)%string with tail.
    destruct fuel as [|fuel]; [simpl in Hfuel; lia|].
    destruct Htail as [-> | [r ->]]; [reflexivity|].
    simpl. rewrite skip_line_take_until. now destruct fuel.
  - inversion H as [|? ? [Hc _] Ht]; subst.
    destruct fuel as [|fuel]; [simpl in Hfuel; lia|].
    change (String c t ++ tail)%string with (String c (t ++ tail)%string).
    simpl. rewrite Hc. f_equal. apply IH; auto. simpl in Hfuel. lia.
Qed.

Lemma length_append (a b : string) :
  String.length (a ++ b) = (String.length a + String.length b)%nat.
Proof.
  induction a as [|c a IH]; [reflexivity|].
  change (String c a ++ b)%string with (String c (a ++ b)%string).
  simpl. now rewrite IH.
Qed.

End Labels.

(** X6.  The expression string is cut at every comma, and the white
    space around each expression is dropped: the expressions of
    [a + "," + b] are those of [a] followed by those of [b], and a
    string without comma is the one expression [a.strip()]. *)
Theorem X6_expressions_are_cut_at_commas :
  (forall a b : string,
      keystrings_of (a ++ String "," b) = keystrings_of a ++ keystrings_of b) /\
  (forall a : string, comma_free a -> keystrings_of a = [PyStr.strip a]).
Proof.
  split.
  - intros a b. unfold keystrings_of. now rewrite split_app_sep, map_app.
  - intros a Ha. unfold keystrings_of.
    assert (Hsplit : PyStr.split "," a = [a]).
    { unfold comma_free in Ha. induction a as [|c t IH]; [reflexivity|].
      inversion Ha as [|? ? Hc Ht]; subst. simpl.
      apply Ascii.eqb_neq in Hc. rewrite Hc. now rewrite (IH Ht). }
    now rewrite Hsplit.
Qed.

Lemma X6_witness : keystrings_of " :a:0 " = [PyStr.strip " :a:0 "].
Proof.
  apply (proj2 X6_expressions_are_cut_at_commas " :a:0 ").
  repeat constructor; discriminate.
Defined.

(** X7.  The label of a column is the run of text that starts at the
    first letter of its expression and stops before the next colon:
    whatever precedes the first letter and whatever follows that colon
    play no part, so [":idVendor:0"] and [":idVendor:1"] are both
    labelled ["idVendor"]. *)
Theorem X7_label_is_the_first_lettered_segment
    (pre : string) (c : ascii) (t rest : string) :
  no_letter pre -> PyStr.is_alpha c = true -> label_text t ->
  rest = EmptyString \/ (exists r, rest = String ":" r) ->
  prettify_one (VStr (pre ++ String c t ++ rest)) = Ok (VStr (String c t)).
Proof.
  intros Hpre Hc Ht Hrest. unfold prettify_one.
  rewrite (search_alpha_skip pre _ Hpre).
  change (String c t ++ rest)%string with (String c (t ++ rest)%string).
  simpl PyStr.search_alpha. rewrite Hc.
  rewrite (take_until_newline_app t rest Ht).
  do 2 f_equal. unfold PyStr.sub_colon.
  assert (Hlabel : label_text (String c t)).
  { constructor; [|exact Ht]. unfold PyStr.is_alpha in Hc.
    unfold PyStr.is_colon, PyStr.is_newline.
    split; apply Nat.eqb_neq; intros E; rewrite E in Hc; discriminate. }
  change (String c (t ++ PyStr.take_until PyStr.is_newline rest))%string
    with (String c t ++ PyStr.take_until PyStr.is_newline rest)%string.
  apply sub_colon_fuel_label; [exact Hlabel | |].
  - destruct Hrest as [-> | [r ->]]; [now left|]. right. exists r.
    simpl. reflexivity.
  - rewrite length_append. lia.
Qed.

Lemma X7_witness :
  prettify_one (VStr (":" ++ String "i" "dVendor" ++ ":0")) = Ok (VStr (String "i" "dVendor")).
Proof.
  apply (X7_label_is_the_first_lettered_segment ":" "i" "dVendor" ":0").
  - repeat constructor.
  - reflexivity.
  - repeat constructor.
  - right. eexists. reflexivity.
Defined.

(** ** tablefy: no record at all *)

Section NoRecord.

Lemma use_key_wildcard_empty (k0 : key) (rest : list key) (r : loc) (h : heap) :
  is_wildcard k0 = true -> h !! r = Some (OList []) ->
  use_key (k0 :: rest) (VRef r) h = (h ++ [OList []], Ok (VRef (length h))).
Proof.
  intros Hw Hr. cbn [use_key]. rewrite Hw. unfold bind at 1.
  unfold fan_out, is_dict. rewrite Hr. cbn [has_iter].
  unfold bind at 1, reading at 1, iterate. rewrite Hr. reflexivity.
Qed.

Lemma get_columns_empty (r : loc) (keystrings : list string) :
  Forall (fun ks => leading_wildcard ks = true) keystrings ->
  forall h, h !! r = Some (OList []) ->
    get_columns keystrings (VRef r) h
    = (h ++ replicate (length keystrings) (OList []),
       Ok (map VRef (seq (length h) (length keystrings)))).
Proof.
  unfold get_columns.
  induction 1 as [|ks kss Hks Hkss IH]; intros h Hr; simpl.
  - now rewrite app_nil_r.
  - unfold leading_wildcard in Hks. unfold access at 1.
    destruct (key_sequence ks) as [|k0 rest]; [discriminate|].
    rewrite (bind_ok _ _ _ _ _ (use_key_wildcard_empty k0 rest r h Hks Hr)).
    assert (Hr' : (h ++ [OList []]) !! r = Some (OList []))
      by (apply lookup_app_l_Some; exact Hr).
    rewrite (bind_ok _ _ _ _ _ (IH (h ++ [OList []]) Hr')).
    unfold ret. rewrite length_app. simpl length.
    rewrite Nat.add_1_r, <- app_assoc. reflexivity.
Qed.

Lemma empty_columns_len (h : heap) (n : nat) :
  Forall (fun c => py_len (h ++ replicate n (OList [])) c = Ok 0%nat)
         (map VRef (seq (length h) n)).
Proof.
  apply Forall_forall. intros c Hc.
  apply list_elem_of_In, in_map_iff in Hc as (l & <- & Hl).
  apply in_seq in Hl. simpl.
  rewrite lookup_app_r by lia.
  rewrite lookup_replicate_2 by lia. reflexivity.
Qed.

Lemma empty_columns_iterate (h1 : heap) (n : nat) :
  forall start : nat,
    (forall l, (start <= l < start + n)%nat -> h1 !! l = Some (OList [])) ->
    Forall2 (fun col items => iterate h1 col = Ok items)
            (map VRef (seq start n)) (replicate n []).
Proof.
  induction n as [|n IH]; intros start Hl; simpl; constructor.
  - simpl. rewrite Hl by lia. reflexivity.
  - apply IH. intros l Hrange. apply Hl. lia.
Qed.

End NoRecord.

(** No record and the expansion on: the first column has no entry to
    look at. *)
Lemma expansion_of_no_record
    (keystring : string) (r : loc) (flatten_lists : bool) (h : heap) :
  h !! r = Some (OList []) ->
  Forall (fun ks => leading_wildcard ks = true) (keystrings_of keystring) ->
  tablefy keystring (VRef r) true flatten_lists h
  = (h ++ replicate (length (keystrings_of keystring)) (OList []), Raise IndexError).
Proof.
  intros Hr Hw. unfold tablefy. cbv zeta.
  rewrite (bind_ok _ _ _ _ _ (get_columns_empty r _ Hw h Hr)).
  rewrite (bind_ok _ _ _ _ _
             (assert_same_length_ok _ _ 0%nat (empty_columns_len h _))).
  apply bind_raise. unfold expand_columns. apply bind_raise.
  assert (Hne : keystrings_of keystring <> []).
  { unfold keystrings_of. pose proof (split_nonempty "," keystring) as Hs.
    destruct (PyStr.split "," keystring); [contradiction | discriminate]. }
  destruct (keystrings_of keystring) as [|ks kss]; [contradiction|].
  simpl. apply bind_raise. unfold expand_column. apply bind_raise.
  unfold reading, getitem. rewrite lookup_app_r by lia.
  rewrite Nat.sub_diag. reflexivity.
Qed.

(** X8.  With the expansion to booleans on and an empty list of records,
    [tablefy] raises [IndexError]: every column is an empty list and the
    expansion step looks at [col[0]].  [print_devices] and [save_as_csv]
    make this call, so they fail in this way when no device was plugged
    in or out. *)
Theorem X8_expansion_needs_a_record
    (keystring : string) (r : loc) (flatten_lists : bool) (h : heap) :
  h !! r = Some (OList []) ->
  Forall (fun ks => leading_wildcard ks = true) (keystrings_of keystring) ->
  tablefy keystring (VRef r) true flatten_lists h
  = (h ++ replicate (length (keystrings_of keystring)) (OList []), Raise IndexError).
Proof. exact (expansion_of_no_record keystring r flatten_lists h). Qed.

Lemma X8_witness :
  print_devices (VRef 0%nat) Ex.no_device
  = (Ex.no_device ++ replicate (length (keystrings_of TABLE_FORMAT)) (OList []),
     Raise IndexError).
Proof.
  apply (X8_expansion_needs_a_record TABLE_FORMAT 0%nat true Ex.no_device).
  - reflexivity.
  - cbv [keystrings_of TABLE_FORMAT]. simpl PyStr.split. cbn [map].
    repeat constructor.
Defined.

(** X9.  With the expansion off and an empty list of records, [tablefy]
    returns the header row alone: the labels of the expressions, in
    order, given that every expression starts with a wildcard and has a
    label. *)
Theorem X9_header_alone_without_records
    (keystring : string) (r : loc) (flatten_lists : bool) (h : heap)
    (header : list val) :
  h !! r = Some (OList []) ->
  Forall (fun ks => leading_wildcard ks = true) (keystrings_of keystring) ->
  Forall2 (fun ks label => prettify_one (VStr ks) = Ok label)
          (keystrings_of keystring) header ->
  tablefy keystring (VRef r) false flatten_lists h
  = (h ++ replicate (length (keystrings_of keystring)) (OList []), Ok [header]).
Proof.
  intros Hr Hw Hlabels.
  set (n := length (keystrings_of keystring)).
  set (h1 := h ++ replicate n (OList [])).
  destruct (prettify_labels h1 _ _ Hlabels) as [Hpretty Hsc].
  unfold tablefy. cbv zeta.
  rewrite (bind_ok _ _ _ _ _ (get_columns_empty r _ Hw h Hr)).
  rewrite (bind_ok _ _ _ _ _
             (assert_same_length_ok _ _ 0%nat (empty_columns_len h _))).
  unfold bind at 1, ret at 1. unfold update_header. simpl fold_left.
  fold n h1. rewrite (bind_ok _ _ _ _ _ Hpretty).
  assert (Hiter : Forall2 (fun col items => iterate h1 col = Ok items)
                    (map VRef (seq (length h) n)) (replicate n [])).
  { apply empty_columns_iterate. intros l Hl. unfold h1.
    rewrite lookup_app_r by lia. apply lookup_replicate_2. lia. }
  assert (Hdata : (let* seqs0 := mapM (fun col => reading (fun h0 => iterate h0 col))
                                   (map VRef (seq (length h) n))
                   in ret (py_zip seqs0)) h1 = (h1, Ok [])).
  { rewrite (bind_ok _ _ _ _ _ (iterate_columns h1 _ _ Hiter)).
    unfold ret. do 2 f_equal. now destruct n. }
  rewrite (bind_ok _ _ _ _ _ Hdata).
  destruct flatten_lists; [|reflexivity].
  assert (Hwf : Forall (Forall (fun v => wf_val (length h1) v = true)) [header]).
  { constructor; [|constructor]. eapply Forall_impl; [exact Hsc|].
    intros v. apply scalar_wf. }
  destruct (flatten_rows_ok h1 [header] Hwf) as (rows & Hflat & _ & Hsame).
  rewrite Hflat. rewrite Hsame; [reflexivity|]. now repeat constructor.
Qed.

Lemma X9_witness :
  tablefy ":n, :m" (VRef 0%nat) false true Ex.no_device
  = (Ex.no_device ++ replicate (length (keystrings_of ":n, :m")) (OList []),
     Ok [[VStr "n"; VStr "m"]]).
Proof.
  apply (X9_header_alone_without_records ":n, :m" 0%nat true Ex.no_device).
  - reflexivity.
  - repeat constructor.
  - repeat constructor.
Defined.

(** ** get_usb_devices: hubs are left out *)

Section Hubs.

Lemma fold_add_tuples (h : heap) (ts : list (list val)) :
  forall acc : list val,
    foldM py_add (map VTuple ts) (VTuple acc) h = (h, Ok (VTuple (acc ++ concat ts))).
Proof.
  induction ts as [|t ts IH]; intros acc; simpl.
  - now rewrite app_nil_r.
  - unfold bind, py_add. rewrite IH. now rewrite app_assoc.
Qed.

Lemma existsb_concat {A} (p : A -> bool) (ls : list (list A)) :
  existsb p (concat ls) = existsb (existsb p) ls.
Proof.
  induction ls as [|l ls IH]; simpl; [reflexivity|].
  now rewrite existsb_app, IH.
Qed.

Lemma is_nonhub_device (h : heap) (dev : val) (classes : list (list val)) :
  device_with h dev classes -> classes <> [] ->
  is_nonhub dev h = (h, Ok (negb (mentions_hub classes))).
Proof.
  intros (d & entries & c & -> & Hd & Hc & Hl) Hne.
  destruct classes as [|t ts]; [contradiction|].
  unfold is_nonhub, bind at 1, reading at 1, getitem. rewrite Hd, Hc.
  unfold bind at 1, py_reduce, bind at 1, reading at 1, iterate. rewrite Hl.
  cbn [map]. rewrite (fold_add_tuples h ts t).
  unfold bind, reading, py_contains, ret. unfold mentions_hub.
  change (t ++ concat ts) with (concat (t :: ts)).
  now rewrite existsb_concat.
Qed.

Lemma is_nonhub_no_class (h : heap) (dev : val) :
  device_with h dev [] -> is_nonhub dev h = (h, Raise TypeError).
Proof.
  intros (d & entries & c & -> & Hd & Hc & Hl).
  unfold is_nonhub, bind at 1, reading at 1, getitem. rewrite Hd, Hc.
  unfold bind at 1, py_reduce, bind at 1, reading at 1, iterate. rewrite Hl.
  reflexivity.
Qed.

Lemma filterM_pure {A} (keep : A -> M bool) (p : A -> bool) (h : heap) (l : list A) :
  Forall (fun x => keep x h = (h, Ok (p x))) l ->
  filterM keep l h = (h, Ok (List.filter p l)).
Proof.
  induction 1 as [|x l Hx Hl IH]; simpl; [reflexivity|].
  rewrite (bind_ok _ _ _ _ _ Hx), (bind_ok _ _ _ _ _ IH). unfold ret.
  now destruct (p x).
Qed.

End Hubs.

(** X10.  [get_usb_devices] keeps, in the order listed, the devices none
    of whose interfaces has the class code or class name ["Hub"], and
    drops the others: its answer is a new list of the devices kept.
    Here every device listed has at least one interface class. *)
Theorem X10_hubs_are_left_out
    (h : heap) (infos : list val) (classes_of : val -> list (list val)) :
  Forall (fun dev => device_with h dev (classes_of dev) /\ classes_of dev <> []) infos ->
  get_usb_devices infos h
  = (h ++ [OList (List.filter (fun dev => negb (mentions_hub (classes_of dev))) infos)],
     Ok (VRef (length h))).
Proof.
  intros Hall. unfold get_usb_devices.
  assert (Hkeep : Forall (fun dev => is_nonhub dev h
                                     = (h, Ok (negb (mentions_hub (classes_of dev)))))
                    infos).
  { eapply Forall_impl; [exact Hall|]. intros dev [Hdev Hne].
    now apply is_nonhub_device. }
  now rewrite (bind_ok _ _ _ _ _ (filterM_pure is_nonhub _ h infos Hkeep)).
Qed.

Lemma X10_witness :
  get_usb_devices [VRef 1%nat; VRef 3%nat] Ex.usb
  = (Ex.usb ++ [OList (List.filter (fun dev => negb (mentions_hub (Ex.usb_classes dev)))
                         [VRef 1%nat; VRef 3%nat])],
     Ok (VRef (length Ex.usb))).
Proof.
  apply (X10_hubs_are_left_out Ex.usb [VRef 1%nat; VRef 3%nat] Ex.usb_classes).
  constructor; [|constructor; [|constructor]].
  - split; [|discriminate].
    exists 1%nat, [(KStr "idVendor", VTuple [VStr "0x0d28"; VStr "NXP"]);
                   (KStr "idProduct", VTuple [VStr "0x0204"; VStr "LPC1768"]);
                   (KStr "classes", VRef 0%nat);
                   (KStr "serial", VTuple [VStr "3"; VStr "10105a42"])], 0%nat.
    repeat split; reflexivity.
  - split; [|discriminate].
    exists 3%nat, [(KStr "idVendor", VTuple [VStr "0x1d6b"; VStr "Linux Foundation"]);
                   (KStr "idProduct", VTuple [VStr "0x0002"; VStr "2.0 root hub"]);
                   (KStr "classes", VRef 2%nat);
                   (KStr "serial", VTuple [VStr "1"; VStr "0000:00:14.0"])], 2%nat.
    repeat split; reflexivity.
Defined.

(** X11.  One listed device without any interface class makes
    [get_usb_devices] raise [TypeError], whatever the other devices are:
    [reduce] is given an empty list and no initial value.  No device list
    is returned and the store is left as it was. *)
Theorem X11_device_without_class_fails
    (h : heap) (infos : list val) (classes_of : val -> list (list val)) :
  Forall (fun dev => device_with h dev (classes_of dev)) infos ->
  Exists (fun dev => classes_of dev = []) infos ->
  get_usb_devices infos h = (h, Raise TypeError).
Proof.
  intros Hall Hex. unfold get_usb_devices. apply bind_raise.
  induction Hall as [|dev infos Hdev Hall IH]; [inversion Hex|].
  simpl. destruct (classes_of dev) as [|t ts] eqn:E.
  - apply bind_raise. now apply is_nonhub_no_class.
  - rewrite (bind_ok _ _ _ _ _
               (is_nonhub_device h dev (t :: ts) Hdev ltac:(discriminate))).
    apply bind_raise, IH.
    apply Exists_cons in Hex as [Hbad | Hex]; [congruence | exact Hex].
Qed.

Lemma X11_witness :
  get_usb_devices [VRef 1%nat; VRef 5%nat] Ex.usb = (Ex.usb, Raise TypeError).
Proof.
  apply (X11_device_without_class_fails Ex.usb [VRef 1%nat; VRef 5%nat] Ex.usb_classes).
  - constructor; [|constructor; [|constructor]].
    + exists 1%nat, [(KStr "idVendor", VTuple [VStr "0x0d28"; VStr "NXP"]);
                     (KStr "idProduct", VTuple [VStr "0x0204"; VStr "LPC1768"]);
                     (KStr "classes", VRef 0%nat);
                     (KStr "serial", VTuple [VStr "3"; VStr "10105a42"])], 0%nat.
      repeat split; reflexivity.
    + exists 5%nat, [(KStr "classes", VRef 4%nat)], 4%nat.
      repeat split; reflexivity.
  - apply Exists_cons_tl, Exists_cons_hd. reflexivity.
Defined.

(** ** diff_lists *)

Section DiffLists.

Lemma contains_deep_list (h : heap) (x : val) (ro : loc) (others : list val) :
  h !! ro = Some (OList others) -> comparable h x others ->
  py_contains_deep h x (VRef ro) = Ok (existsb (equal_in h x) others).
Proof.
  intros Hro Hcmp. unfold py_contains_deep. rewrite Hro. clear Hro.
  induction Hcmp as [|y others [b Hb] _ IH]; [reflexivity|].
  cbn -[py_eq_deep]. unfold equal_in at 1. rewrite Hb.
  destruct b; [reflexivity | exact IH].
Qed.

Lemma not_in_list (h : heap) (ro rs : loc) (others source : list val) :
  h !! ro = Some (OList others) -> h !! rs = Some (OList source) ->
  Forall (fun x => comparable h x others) source ->
  not_in (VRef ro) (VRef rs) h
  = (h ++ [OList (left_over h source others)], Ok (VRef (length h))).
Proof.
  intros Hro Hrs Hcmp. unfold not_in.
  unfold bind at 1, reading at 1, iterate. rewrite Hrs.
  assert (Hkeep : Forall (fun i => (let* found := reading (fun h0 => py_contains_deep h0 i (VRef ro))
                                    in ret (negb found)) h
                                   = (h, Ok (negb (existsb (equal_in h i) others))))
                    source).
  { eapply Forall_impl; [exact Hcmp|]. intros x Hx.
    unfold bind, reading. now rewrite (contains_deep_list h x ro others Hro Hx). }
  now rewrite (bind_ok _ _ _ _ _ (filterM_pure _ _ h source Hkeep)).
Qed.

Lemma left_over_nothing (h : heap) (source : list val) :
  left_over h source [] = source.
Proof.
  unfold left_over. induction source as [|x l IH]; [reflexivity|].
  change (x :: List.filter (fun x => negb (existsb (equal_in h x) [])) l = x :: l).
  now rewrite IH.
Qed.

Lemma key_eqb_true (a b : key) : key_eqb a b = true -> a = b.
Proof.
  destruct a, b; simpl; try discriminate.
  - intros E%Z.eqb_eq. now subst.
  - intros E%String.eqb_eq. now subst.
Qed.

Lemma key_eqb_refl (a : key) : key_eqb a a = true.
Proof. destruct a; simpl; [apply Z.eqb_refl | apply String.eqb_refl]. Qed.

Lemma dict_get_key (d : list (key * val)) (k : key) (v : val) :
  dict_get d k = Some v -> In k (map fst d).
Proof.
  induction d as [|[k' v'] d IH]; simpl; [discriminate|].
  destruct (key_eqb k' k) eqn:E; [|auto].
  intros _. left. now apply key_eqb_true.
Qed.

Lemma dicts_aligned (R : val -> val -> Prop) (d1 : list (key * val)) :
  forall d2 : list (key * val),
    map fst d1 = map fst d2 -> NoDup (map fst d2) ->
    Forall2 R (map snd d1) (map snd d2) ->
    Forall (fun kx => exists y, dict_get d2 kx.1 = Some y /\ R kx.2 y) d1.
Proof.
  induction d1 as [|[k x] d1 IH]; intros d2 Hkeys Hnd Hvals; [constructor|].
  destruct d2 as [|[k2 y] d2]; [discriminate|].
  simpl in Hkeys, Hvals. injection Hkeys as <- Hkeys.
  apply NoDup_cons in Hnd as [Hk Hnd].
  apply Forall2_cons in Hvals as [Hxy Hvals].
  constructor.
  - exists y. simpl. now rewrite key_eqb_refl.
  - eapply Forall_impl; [exact (IH d2 Hkeys Hnd Hvals)|].
    intros [k' x'] (y' & Hget & Hr). exists y'. split; [|exact Hr].
    simpl in *. destruct (key_eqb k k') eqn:E; [|exact Hget].
    apply key_eqb_true in E. subst k'. exfalso. apply Hk.
    apply list_elem_of_In. eapply dict_get_key; eauto.
Qed.

Lemma py_eq_scalar_refl (v : val) : is_scalar v = true -> py_eq v v = true.
Proof.
  destruct v as [| b | z | s | |]; simpl; try discriminate; intros _.
  - reflexivity.
  - now destruct b.
  - apply Z.eqb_refl.
  - apply String.eqb_refl.
Qed.

(** A decided comparison of two values with the same content says
    [True]. *)
Lemma py_eq_deep_same (h : heap) (fuel : nat) :
  forall (x y : val) (b : bool),
    same_value h x y -> py_eq_deep fuel h x y = Ok b -> b = true.
Proof.
  induction fuel as [|fuel IH]; intros x y b Hsame; [discriminate|].
  assert (Hall : forall l1 l2,
             Forall2 (same_value h) l1 l2 ->
             forall b',
               (fix go (la lb : list val) {struct la} : result bool :=
                  match la, lb with
                  | [], [] => Ok true
                  | x :: xs, y :: ys =>
                      match py_eq_deep fuel h x y with
                      | Ok true => go xs ys
                      | r => r
                      end
                  | _, _ => Ok false
                  end) l1 l2 = Ok b' -> b' = true).
  { induction 1 as [|x' y' l1 l2 Hxy Hrest IHl]; intros b'.
    - now intros [= <-].
    - destruct (py_eq_deep fuel h x' y') as [[|]|e] eqn:E.
      + apply IHl.
      + intros _. discriminate (IH x' y' false Hxy E).
      + discriminate. }
  inversion Hsame as [v Hv | l1 l2 H2 | r1 r2 l1 l2 H1 H2 HF | r1 r2 d1 d2 H1 H2 Hk Hnd HF];
    subst.
  - destruct y as [| b0 | z | s | |]; try discriminate; simpl; intros [= <-];
      [reflexivity | now destruct b0 | apply Z.eqb_refl | apply String.eqb_refl].
  - simpl. now apply Hall.
  - simpl. destruct (Nat.eqb r1 r2); [now intros [= <-]|].
    rewrite H1, H2. rewrite (Forall2_length _ _ _ HF), Nat.eqb_refl.
    now apply Hall.
  - simpl. destruct (Nat.eqb r1 r2); [now intros [= <-]|].
    rewrite H1, H2.
    assert (Hlen : length d1 = length d2).
    { rewrite <- (length_map fst d1), <- (length_map fst d2). now rewrite Hk. }
    rewrite Hlen, Nat.eqb_refl.
    pose proof (dicts_aligned (same_value h) d1 d2 Hk Hnd HF) as Hal.
    clear H1 Hlen Hk HF. induction Hal as [|[k x'] d1 (y' & Hget & Hxy) _ IHd].
    + now intros [= <-].
    + simpl in Hget. rewrite Hget.
      destruct (py_eq_deep fuel h x' y') as [[|]|e] eqn:E.
      * apply IHd.
      * intros _. discriminate (IH x' y' false Hxy E).
      * discriminate.
Qed.

End DiffLists.

(** X12.  [diff_lists] answers with a new list holding, in order, the
    elements of the longer list that are equal to no element of the
    other one; when the lists are equally long it takes them from the
    second.  So a device that went away is reported only when more went
    away than came, and never together with one that came.  Here every
    comparison the call makes is decided. *)
Theorem X12_diff_is_taken_from_the_longer_list
    (h : heap) (r1 r2 : loc) (l1 l2 : list val) :
  h !! r1 = Some (OList l1) -> h !! r2 = Some (OList l2) ->
  (if (length l2 <? length l1)%nat
   then Forall (fun x => comparable h x l2) l1
   else Forall (fun x => comparable h x l1) l2) ->
  diff_lists (VRef r1) (VRef r2) h
  = (h ++ [OList (if (length l2 <? length l1)%nat
                  then left_over h l1 l2 else left_over h l2 l1)],
     Ok (VRef (length h))).
Proof.
  intros H1 H2 Hcmp. unfold diff_lists, bind at 1, reading at 1, py_len.
  rewrite H1. unfold bind at 1, reading at 1. rewrite H2.
  destruct (length l2 <? length l1)%nat; now apply not_in_list.
Qed.

Lemma X12_witness :
  diff_lists (VRef 6%nat) (VRef 7%nat) Ex.usb_lists
  = (Ex.usb_lists ++
       [OList (if (length [VRef 3%nat] <? length [VRef 1%nat; VRef 3%nat])%nat
               then left_over Ex.usb_lists [VRef 1%nat; VRef 3%nat] [VRef 3%nat]
               else left_over Ex.usb_lists [VRef 3%nat] [VRef 1%nat; VRef 3%nat])],
     Ok (VRef (length Ex.usb_lists))).
Proof.
  apply (X12_diff_is_taken_from_the_longer_list Ex.usb_lists 6%nat 7%nat
           [VRef 1%nat; VRef 3%nat] [VRef 3%nat]).
  - reflexivity.
  - reflexivity.
  - cbn [length Nat.ltb Nat.leb].
    constructor; [|constructor; [|constructor]].
    + constructor; [eexists; vm_compute; reflexivity | constructor].
    + constructor; [eexists; vm_compute; reflexivity | constructor].
Defined.

(** X13.  Against an empty list [diff_lists] answers with a new list of
    all the elements of the other list, whichever argument is the empty
    one; no comparison is made. *)
Theorem X13_diff_with_an_empty_list
    (h : heap) (r1 r2 : loc) (l : list val) :
  (h !! r1 = Some (OList l) -> h !! r2 = Some (OList []) ->
   diff_lists (VRef r1) (VRef r2) h = (h ++ [OList l], Ok (VRef (length h)))) /\
  (h !! r1 = Some (OList []) -> h !! r2 = Some (OList l) ->
   diff_lists (VRef r1) (VRef r2) h = (h ++ [OList l], Ok (VRef (length h)))).
Proof.
  assert (Hnone : forall xs : list val, Forall (fun x => comparable h x []) xs).
  { intros xs. apply Forall_forall. intros; constructor. }
  split; intros H1 H2; unfold diff_lists, bind at 1, reading at 1, py_len;
    rewrite H1; unfold bind at 1, reading at 1; rewrite H2.
  - destruct l as [|x l].
    + simpl. now rewrite (not_in_list h r1 r2 [] [] H1 H2 (Hnone [])).
    + simpl. rewrite (not_in_list h r2 r1 [] (x :: l) H2 H1 (Hnone _)).
      now rewrite left_over_nothing.
  - change (length l <? length (@nil val))%nat with false. cbv iota.
    rewrite (not_in_list h r1 r2 [] l H1 H2 (Hnone _)).
    now rewrite left_over_nothing.
Qed.

Lemma X13_witness :
  diff_lists (VRef 4%nat) (VRef 6%nat) Ex.usb_lists
  = (Ex.usb_lists ++ [OList [VRef 1%nat; VRef 3%nat]], Ok (VRef (length Ex.usb_lists))).
Proof.
  apply (proj2 (X13_diff_with_an_empty_list Ex.usb_lists 4%nat 6%nat
                  [VRef 1%nat; VRef 3%nat])); reflexivity.
Defined.

(** X14.  When the second list describes the same devices as the first,
    position by position and with the same content, [diff_lists] answers
    with an empty list, also when the descriptions are different
    objects.  Here every comparison the call makes is decided. *)
Theorem X14_nothing_changed_gives_the_empty_list
    (h : heap) (r1 r2 : loc) (l1 l2 : list val) :
  h !! r1 = Some (OList l1) -> h !! r2 = Some (OList l2) ->
  Forall2 (same_value h) l2 l1 ->
  Forall (fun x => comparable h x l1) l2 ->
  diff_lists (VRef r1) (VRef r2) h = (h ++ [OList []], Ok (VRef (length h))).
Proof.
  intros H1 H2 Hsame Hcmp. unfold diff_lists, bind at 1, reading at 1, py_len.
  rewrite H1. unfold bind at 1, reading at 1. rewrite H2.
  rewrite (Forall2_length _ _ _ Hsame), Nat.ltb_irrefl.
  rewrite (not_in_list h r1 r2 l1 l2 H1 H2 Hcmp). do 3 f_equal.
  unfold left_over.
  assert (Hin : Forall (fun x => existsb (equal_in h x) l1 = true) l2).
  { apply Forall_forall. intros x Hx.
    pose proof (proj1 (Forall_forall _ _) Hcmp x Hx) as Hcx.
    apply list_elem_of_lookup_1 in Hx as [i Hi].
    destruct (Forall2_lookup_l _ _ _ _ _ Hsame Hi) as (y & Hy & Hxy).
    apply existsb_exists. exists y. split.
    - apply list_elem_of_In. eapply list_elem_of_lookup_2; eauto.
    - pose proof (proj1 (Forall_forall _ _) Hcx y
                    (list_elem_of_lookup_2 _ _ _ Hy)) as [b Hb].
      unfold equal_in. rewrite Hb.
      now rewrite (py_eq_deep_same h _ x y b Hxy Hb). }
  clear Hcmp Hsame H2. induction Hin as [|x l2 Hx _ IH]; [reflexivity|].
  cbn [List.filter]. rewrite Hx. exact IH.
Qed.

Lemma X14_witness :
  diff_lists (VRef 6%nat) (VRef 7%nat) Ex.same_devices
  = (Ex.same_devices ++ [OList []], Ok (VRef (length Ex.same_devices))).
Proof.
  apply (X14_nothing_changed_gives_the_empty_list Ex.same_devices 6%nat 7%nat
           [VRef 1%nat] [VRef 5%nat]).
  - reflexivity.
  - reflexivity.
  - constructor; [|constructor].
    eapply (same_dict Ex.same_devices 5%nat 1%nat);
      [reflexivity | reflexivity | reflexivity | |].
    + apply NoDup_cons_2; [|apply NoDup_cons_2; [|apply NoDup_nil_2]].
      * intros Hin%list_elem_of_In. simpl in Hin.
        destruct Hin as [E | []]. discriminate E.
      * intros Hin%list_elem_of_In. destruct Hin.
    + constructor.
      * apply same_tuple. repeat constructor.
      * constructor; [|constructor].
        eapply (same_list Ex.same_devices 4%nat 0%nat);
          [reflexivity | reflexivity |].
        constructor; [|constructor]. apply same_tuple. repeat constructor.
  - constructor; [|constructor].
    constructor; [eexists; vm_compute; reflexivity | constructor].
Defined.

(** ** tablefy: one column of lists, expanded to booleans *)

Section Expansion.

Lemma py_eq_deep_same_ref (fuel : nat) (h : heap) (r : loc) :
  py_eq_deep (S fuel) h (VRef r) (VRef r) = Ok true.
Proof. simpl. now rewrite Nat.eqb_refl. Qed.

Lemma py_index_head (h : heap) (r : loc) (rest : list val) :
  py_index h (VRef r :: rest) (VRef r) = Ok 0%nat.
Proof.
  cbn -[py_eq_deep recursion_limit].
  change recursion_limit with (S (Nat.pred recursion_limit)).
  now rewrite py_eq_deep_same_ref.
Qed.

Lemma entry_iterate (h : heap) (l : loc) (entry : val) (items : list val) :
  entry_holds h l entry items -> iterate h entry = Ok items /\ has_iter entry = true.
Proof.
  intros [_ [-> | (m & -> & _ & Hm)]]; simpl; [auto|]. now rewrite Hm.
Qed.

Lemma collect_items_column (h : heap) (l : loc) (entries : list val)
    (itemss : list (list val)) :
  h !! l = Some (OList entries) -> Forall2 (entry_holds h l) entries itemss ->
  collect_items (VRef l) h = (h, Ok (concat itemss)).
Proof.
  intros Hl Hents. unfold collect_items.
  unfold bind at 1, reading at 1, iterate. rewrite Hl.
  assert (Hper : mapM (fun entry =>
                         let* items := reading (fun h0 => iterate h0 entry) in
                         if forallb hashable items then ret items else raise TypeError)
                      entries h = (h, Ok itemss)).
  { clear Hl. induction Hents as [|e items entries itemss He _ IH]; [reflexivity|].
    cbn [mapM]. unfold bind at 1. unfold bind at 1, reading at 1.
    destruct (entry_iterate h l e items He) as [Hit _]. rewrite Hit.
    destruct He as [Hhash _]. rewrite Hhash. unfold ret at 1.
    now rewrite (bind_ok _ _ _ _ _ IH). }
  now rewrite (bind_ok _ _ _ _ _ Hper).
Qed.

Section Loop.
Context (h0 : heap) (l : loc) (entries : list val) (itemss : list (list val))
        (names : list val).
Hypothesis Hl0 : h0 !! l = Some (OList entries).
Hypothesis Hents : Forall2 (entry_holds h0 l) entries itemss.

Lemma rewritten_start : rewritten h0 l entries itemss names 0 h0.
Proof.
  repeat split.
  - lia.
  - exact Hl0.
  - intros j items Hj. lia.
Qed.

Lemma rewritten_entry (i : nat) (hi : heap) (e : val) (items : list val) :
  rewritten h0 l entries itemss names i hi ->
  entries !! i = Some e -> itemss !! i = Some items ->
  getitem hi (VRef l) (KInt (Z.of_nat i)) = Ok e /\
  forall x, py_contains hi x e = Ok (existsb (fun y => py_eq y x) items).
Proof.
  intros (Hlen & Hcol & Hold & _) He Hitems. split.
  - unfold getitem. rewrite Hcol. unfold seq_index.
    destruct (Z.ltb_spec (Z.of_nat i) 0) as [|_]; [lia|].
    destruct (Z.ltb_spec (Z.of_nat i) 0) as [|_]; [lia|].
    rewrite Nat2Z.id, lookup_app_r by (rewrite length_map, length_seq; lia).
    rewrite length_map, length_seq, Nat.sub_diag, lookup_drop, Nat.add_0_r.
    now rewrite He.
  - intros x.
    destruct (Forall2_lookup_lr _ _ _ _ _ _ Hents He Hitems) as [_ Hcase].
    destruct Hcase as [-> | (m & -> & Hml & Hm)]; [reflexivity|].
    unfold py_contains. rewrite Hold; [now rewrite Hm | | exact Hml].
    eapply lookup_lt_Some; eauto.
Qed.

Lemma rewritten_step (i : nat) (hi : heap) :
  rewritten h0 l entries itemss names i hi -> (i < length entries)%nat ->
  exists hi',
    expand_entry (VRef l) names i hi = (hi', Ok tt) /\
    rewritten h0 l entries itemss names (S i) hi'.
Proof.
  intros Hst Hi.
  destruct (lookup_lt_is_Some_2 entries i Hi) as [e He].
  destruct (Forall2_lookup_l _ _ _ _ _ Hents He) as (items & Hitems & _).
  destruct (rewritten_entry i hi e items Hst He Hitems) as [Hget Hin].
  destruct Hst as (Hlen & Hcol & Hold & Hflags).
  assert (Hlt : (l < length h0)%nat) by (eapply lookup_lt_Some; eauto).
  set (cur := map VRef (seq (length h0) i) ++ drop i entries) in *.
  set (fresh := VRef (length hi)).
  exists (<[l := OList (<[i := fresh]> cur)]> (hi ++ [OList (flags_for names items)])).
  split.
  - unfold expand_entry.
    assert (Hflagsrun :
              mapM (fun x =>
                      let* entry := reading (fun h => getitem h (VRef l) (KInt (Z.of_nat i))) in
                      let* b := reading (fun h => py_contains h x entry) in
                      ret (VBool b))
                   names hi = (hi, Ok (flags_for names items))).
    { apply mapM_pure. apply Forall_forall. intros x _.
      unfold bind, reading, ret. now rewrite Hget, Hin. }
    rewrite (bind_ok _ _ _ _ _ Hflagsrun).
    unfold bind, alloc, setitem.
    rewrite lookup_app_l by lia. rewrite Hcol.
    destruct (Z.ltb_spec (Z.of_nat i) 0) as [|_]; [lia|].
    assert (Hcurlen : length cur = length entries).
    { unfold cur. rewrite length_app, length_map, length_seq, length_drop. lia. }
    destruct (Z.ltb_spec (Z.of_nat i) 0) as [|_]; [lia|].
    destruct (Z.leb_spec (Z.of_nat (length cur)) (Z.of_nat i)) as [|_]; [lia|].
    cbn [orb]. now rewrite Nat2Z.id.
  - assert (Hcur : <[i := fresh]> cur
                   = map VRef (seq (length h0) (S i)) ++ drop (S i) entries).
    { unfold cur. rewrite insert_app_r_alt by (rewrite length_map, length_seq; lia).
      rewrite length_map, length_seq, Nat.sub_diag.
      rewrite (drop_S _ _ _ He). cbn [list_insert insert].
      rewrite seq_S, map_app, <- app_assoc. unfold fresh. rewrite Hlen.
      reflexivity. }
    repeat split.
    + rewrite length_insert, length_app. simpl. lia.
    + rewrite list_lookup_insert_eq by (rewrite length_app; lia).
      now rewrite Hcur.
    + intros m Hm Hml.
      rewrite list_lookup_insert_ne by congruence.
      rewrite lookup_app_l by lia. now apply Hold.
    + intros j items' Hj Hitems'.
      rewrite list_lookup_insert_ne by lia.
      destruct (Nat.eq_dec j i) as [-> | Hji].
      * rewrite <- Hlen, lookup_app_r, Nat.sub_diag by lia.
        rewrite Hitems in Hitems'. now injection Hitems' as <-.
      * rewrite lookup_app_l by lia. apply Hflags; [lia | exact Hitems'].
Qed.

Lemma rewritten_loop (k : nat) :
  forall (i : nat) (hi : heap),
    rewritten h0 l entries itemss names i hi -> (i + k = length entries)%nat ->
    exists hf us,
      mapM (expand_entry (VRef l) names) (seq i k) hi = (hf, Ok us) /\
      rewritten h0 l entries itemss names (length entries) hf.
Proof.
  induction k as [|k IH]; intros i hi Hst Hik.
  - exists hi, []. split; [reflexivity|]. now replace (length entries) with i by lia.
  - destruct (rewritten_step i hi Hst ltac:(lia)) as (hi' & Hrun & Hst').
    destruct (IH (S i) hi' Hst' ltac:(lia)) as (hf & us & Hloop & Hstf).
    exists hf, (tt :: us). split; [|exact Hstf].
    cbn [seq mapM]. now rewrite (bind_ok _ _ _ _ _ Hrun), (bind_ok _ _ _ _ _ Hloop).
Qed.

End Loop.

End Expansion.

Section ExpandedTable.

Lemma entry_holds_grown (h : heap) (more : heap) (l : loc) (entry : val)
    (items : list val) :
  entry_holds h l entry items -> entry_holds (h ++ more) l entry items.
Proof.
  intros [Hhash [-> | (m & -> & Hml & Hm)]]; split; auto.
  right. exists m. repeat split; auto. now apply lookup_app_l_Some.
Qed.

Lemma expand_list_column (cols : list val) (idx : nat) (h : heap) (l : loc)
    (entries : list val) (itemss : list (list val)) :
  h !! l = Some (OList entries) -> entries <> [] ->
  Forall2 (entry_holds h l) entries itemss ->
  let names := py_sort (py_set (concat itemss)) in
  py_index (h ++ [OList names]) cols (VRef l) = Ok idx ->
  exists hf,
    expand_column cols (VRef l) h = (hf, Ok (Some (idx, VRef (length h)))) /\
    rewritten (h ++ [OList names]) l entries itemss names (length entries) hf.
Proof.
  intros Hl Hne Hents names Hidx.
  set (h0 := h ++ [OList names]) in *.
  assert (Hl0 : h0 !! l = Some (OList entries)) by now apply lookup_app_l_Some.
  assert (Hents0 : Forall2 (entry_holds h0 l) entries itemss).
  { eapply Forall2_impl; [exact Hents|]. intros e items. apply entry_holds_grown. }
  destruct (rewritten_loop h0 l entries itemss names Hl0 Hents0 (length entries) 0 h0
              (rewritten_start h0 l entries itemss names Hl0) eq_refl)
    as (hf & us & Hloop & Hst).
  exists hf. split; [|exact Hst].
  destruct entries as [|e0 entries']; [contradiction|].
  inversion Hents as [|? items0 ? itemss' He0 Hrest]; subst.
  destruct (entry_iterate h l e0 items0 He0) as [_ Hiter0].
  unfold expand_column.
  unfold bind at 1, reading at 1, getitem. rewrite Hl.
  cbn [seq_index Z.ltb Z.compare Z.to_nat lookup list_lookup]. cbv beta iota zeta.
  change ((e0 :: entries') !! Z.to_nat 0) with (Some e0). cbv beta iota.
  rewrite Hiter0.
  rewrite (bind_ok _ _ _ _ _ (collect_items_column h l _ _ Hl Hents)).
  fold names. unfold bind at 1, alloc at 1. fold h0.
  unfold bind at 1, reading at 1. rewrite Hidx.
  unfold bind at 1, reading at 1, py_len. rewrite Hl0.
  now rewrite (bind_ok _ _ _ _ _ Hloop).
Qed.

Lemma zip_rows_single (c : list val) :
  zip_rows (length c) [c] = map (fun x => [x]) c.
Proof. induction c as [|x c IH]; simpl; [reflexivity | now rewrite IH]. Qed.

End ExpandedTable.

(** X15.  One expression whose column is a list of tuples or lists of
    hashable values, expanded to booleans and flattened: the header row
    is the sorted list of the distinct values found in all the entries,
    and the row of record [r] holds, for each of these values in that
    order, whether it is among the values of the entry of [r].  There
    is one data row per record. *)
Theorem X15_one_column_expanded_to_booleans
    (keystring ks : string) (struct : val) (h h1 : heap) (l : loc)
    (entries : list val) (itemss : list (list val)) :
  keystrings_of keystring = [ks] ->
  get_columns [ks] struct h = (h1, Ok [VRef l]) ->
  h1 !! l = Some (OList entries) -> entries <> [] ->
  Forall2 (entry_holds h1 l) entries itemss ->
  (tablefy keystring struct true true h).2
  = Ok (py_sort (py_set (concat itemss))
        :: map (flags_for (py_sort (py_set (concat itemss)))) itemss).
Proof.
  intros Hks Hcols Hl Hne Hents.
  set (names := py_sort (py_set (concat itemss))).
  destruct (expand_list_column [VRef l] 0 h1 l entries itemss Hl Hne Hents
              (py_index_head _ l []))
    as (hf & Hexp & Hlen & Hcol & Hold & Hflags).
  fold names in Hexp, Hcol, Hold, Hflags.
  assert (Hlt : (l < length h1)%nat) by (eapply lookup_lt_Some; eauto).
  rewrite length_app in Hlen, Hcol, Hold, Hflags. simpl length in *.
  rewrite drop_all, app_nil_r in Hcol.
  set (base := (length h1 + 1)%nat) in *.
  set (n := length entries) in *.
  assert (Hn : length itemss = n) by (symmetry; eapply Forall2_length; eauto).
  unfold tablefy. cbv zeta. rewrite Hks.
  rewrite (bind_ok _ _ _ _ _ Hcols).
  assert (Hassert : assert_same_length [VRef l] h1 = (h1, Ok tt)).
  { apply (assert_same_length_ok h1 _ n). constructor; [|constructor].
    simpl. now rewrite Hl. }
  rewrite (bind_ok _ _ _ _ _ Hassert).
  assert (Hexpand : expand_columns [VRef l] h1 = (hf, Ok [(0%nat, VRef (length h1))])).
  { unfold expand_columns. cbn [mapM].
    unfold bind at 1. unfold bind at 1. rewrite Hexp. reflexivity. }
  rewrite (bind_ok _ _ _ _ _ Hexpand).
  cbn [map update_header fold_left fst snd list_insert insert].
  assert (Hpretty : prettify [VRef (length h1)] hf = (hf, Ok [VRef (length h1)]))
    by reflexivity.
  rewrite (bind_ok _ _ _ _ _ Hpretty).
  assert (Hdata : (let* seqs := mapM (fun col => reading (fun h0 => iterate h0 col)) [VRef l]
                   in ret (py_zip seqs)) hf
                  = (hf, Ok (map (fun x => [x]) (map VRef (seq base n))))).
  { cbn [mapM]. unfold bind, reading, ret, iterate. rewrite Hcol.
    unfold py_zip. rewrite <- zip_rows_single. reflexivity. }
  rewrite (bind_ok _ _ _ _ _ Hdata). cbn [snd].
  assert (Hnames : hf !! length h1 = Some (OList names)).
  { rewrite Hold by (unfold base; lia).
    rewrite lookup_app_r, Nat.sub_diag by lia. reflexivity. }
  assert (Hhead : flatten_row [VRef (length h1)] hf = (hf, Ok names)).
  { unfold flatten_row. cbn [mapM has_iter].
    unfold bind, reading, ret, iterate. rewrite Hnames. simpl.
    now rewrite app_nil_r. }
  assert (Hrows : Forall2 (fun row out => flatten_row row hf = (hf, Ok out))
                    (map (fun x => [x]) (map VRef (seq base n)))
                    (map (flags_for names) itemss)).
  { apply Forall2_same_length_lookup_2.
    - rewrite !length_map, length_seq. now rewrite Hn.
    - intros j row out Hrow Hout.
      rewrite !list_lookup_fmap in Hrow.
      rewrite list_lookup_fmap in Hout.
      destruct (seq base n !! j) as [r|] eqn:Hr; [|discriminate].
      destruct (itemss !! j) as [items|] eqn:Hitems; [|discriminate].
      simpl in Hrow, Hout. injection Hrow as <-. injection Hout as <-.
      apply lookup_seq in Hr as [-> Hj].
      unfold flatten_row. cbn [mapM has_iter].
      unfold bind, reading, ret, iterate.
      rewrite (Hflags j items Hj Hitems). simpl. now rewrite app_nil_r. }
  cbn [mapM]. rewrite (bind_ok _ _ _ _ _ Hhead).
  rewrite (bind_ok _ _ _ _ _ (mapM_each _ _ _ _ Hrows)). reflexivity.
Qed.

Lemma X15_witness :
  (tablefy ":c" (VRef 4%nat) true true Ex.class_records).2
  = Ok (py_sort (py_set (concat [[VStr "A"; VStr "B"]; [VStr "B"]]))
        :: map (flags_for (py_sort (py_set (concat [[VStr "A"; VStr "B"]; [VStr "B"]]))))
               [[VStr "A"; VStr "B"]; [VStr "B"]]).
Proof.
  apply (X15_one_column_expanded_to_booleans ":c" ":c" (VRef 4%nat)
           Ex.class_records (Ex.class_records ++ [OList [VRef 0%nat; VRef 1%nat]])
           5%nat [VRef 0%nat; VRef 1%nat]).
  - reflexivity.
  - reflexivity.
  - reflexivity.
  - discriminate.
  - constructor; [|constructor; [|constructor]].
    + split; [reflexivity|]. right. exists 0%nat.
      split; [reflexivity|]. split; [lia | reflexivity].
    + split; [reflexivity|]. right. exists 1%nat.
      split; [reflexivity|]. split; [lia | reflexivity].
Defined.

(** ** tablefy: scalar columns followed by one column of lists *)

Section MixedTable.

Lemma py_eq_scalar_iterable (x e : val) :
  is_scalar x = true -> has_iter e = true -> py_eq x e = false.
Proof. destruct x, e; simpl; try discriminate; reflexivity. Qed.

Lemma py_eq_deep_scalar_first (fuel : nat) (h : heap) (lc l : loc)
    (x e : val) (xs es : list val) :
  h !! lc = Some (OList (x :: xs)) -> h !! l = Some (OList (e :: es)) ->
  is_scalar x = true -> has_iter e = true ->
  py_eq_deep (S (S fuel)) h (VRef lc) (VRef l) = Ok false.
Proof.
  intros Hlc Hl Hx He.
  assert (Hne : Nat.eqb lc l = false).
  { apply Nat.eqb_neq. intros ->. rewrite Hl in Hlc. injection Hlc as -> _.
    destruct x; simpl in *; discriminate. }
  cbn [py_eq_deep]. rewrite Hne, Hlc, Hl.
  destruct (length (x :: xs) =? length (e :: es))%nat; [|reflexivity].
  destruct x; try discriminate; destruct e; try discriminate; reflexivity.
Qed.

Lemma py_index_after_scalars (h : heap) (l : loc) (e : val) (es : list val)
    (locs : list loc) :
  h !! l = Some (OList (e :: es)) -> has_iter e = true ->
  Forall (fun lc => exists x xs, h !! lc = Some (OList (x :: xs)) /\ is_scalar x = true)
         locs ->
  py_index h (map VRef locs ++ [VRef l]) (VRef l) = Ok (length locs).
Proof.
  intros Hl He. induction 1 as [|lc locs (x & xs & Hlc & Hx) _ IH].
  - apply py_index_head.
  - cbn -[py_eq_deep recursion_limit].
    change recursion_limit with (S (S (Nat.pred (Nat.pred recursion_limit)))).
    rewrite (py_eq_deep_scalar_first _ h lc l x e xs es Hlc Hl Hx He).
    now rewrite IH.
Qed.

Lemma mapM_app {A B} (f : A -> M B) (xs ys : list A) (h h1 h2 : heap)
    (us vs : list B) :
  mapM f xs h = (h1, Ok us) -> mapM f ys h1 = (h2, Ok vs) ->
  mapM f (xs ++ ys) h = (h2, Ok (us ++ vs)).
Proof.
  revert h us. induction xs as [|x xs IH]; intros h us; simpl.
  - now intros [= <- <-].
  - unfold bind at 1. destruct (f x h) as [h' [y|e]] eqn:Ex; [|discriminate].
    unfold bind at 1. destruct (mapM f xs h') as [h'' [ys'|e]] eqn:Exs; [|discriminate].
    intros [= <- <-] Hys. unfold bind at 1. rewrite Ex.
    now rewrite (bind_ok _ _ _ _ _ (IH h' ys' Exs Hys)).
Qed.

Lemma row_of_app (xs ys : list (list val)) (j : nat) :
  row_of (xs ++ ys) j = row_of xs j ++ row_of ys j.
Proof. unfold row_of. apply omap_app. Qed.

Lemma row_of_scalar (seqs : list (list val)) (j : nat) :
  Forall (Forall (fun v => is_scalar v = true)) seqs ->
  Forall (fun v => is_scalar v = true) (row_of seqs j).
Proof.
  induction 1 as [|c seqs Hc _ IH]; [constructor|].
  rewrite row_of_cons. destruct (c !! j) as [v|] eqn:E; [|exact IH].
  constructor; [|exact IH].
  exact (proj1 (Forall_forall _ _) Hc v (list_elem_of_lookup_2 _ _ _ E)).
Qed.

Lemma flatten_scalars_then_list (h : heap) (cells : list val) (r : loc)
    (items : list val) :
  Forall (fun v => is_scalar v = true) cells -> h !! r = Some (OList items) ->
  flatten_row (cells ++ [VRef r]) h = (h, Ok (cells ++ items)).
Proof.
  intros Hsc Hr. unfold flatten_row.
  assert (Hcells : mapM (fun cell => if has_iter cell
                                     then reading (fun h' => iterate h' cell)
                                     else ret [cell])
                        (cells ++ [VRef r]) h
                   = (h, Ok (map (fun c => [c]) cells ++ [items]))).
  { eapply mapM_app.
    - apply mapM_pure. eapply Forall_impl; [exact Hsc|]. intros v Hv.
      unfold is_scalar in Hv. apply negb_true_iff in Hv. now rewrite Hv.
    - cbn [mapM has_iter]. unfold bind, reading, ret, iterate. now rewrite Hr. }
  rewrite (bind_ok _ _ _ _ _ Hcells). unfold ret. do 2 f_equal.
  rewrite concat_app. simpl. rewrite app_nil_r. f_equal.
  clear. induction cells as [|c cells IH]; simpl; [reflexivity | now rewrite IH].
Qed.

Lemma omap_nothing_then_one {A B} (xs : list A) (y : B) :
  omap id (map (fun _ : A => @None B) xs ++ [Some y]) = [y].
Proof. induction xs as [|x xs IH]; [reflexivity | exact IH]. Qed.

Lemma scalar_column_first (h : heap) (n : nat) (locs : list loc)
    (seqs : list (list val)) :
  Forall2 (scalar_column h (S n)) locs seqs ->
  Forall (fun lc => exists x xs, h !! lc = Some (OList (x :: xs)) /\ is_scalar x = true)
         locs.
Proof.
  induction 1 as [|lc c locs seqs (Hlc & Hlen & Hsc) _ IH]; constructor; [|exact IH].
  destruct c as [|x xs]; [discriminate|]. exists x, xs. split; [exact Hlc|].
  now inversion Hsc.
Qed.

End MixedTable.

(** The table of scalar columns followed by one column of lists. *)
Lemma mixed_table
    (keystring : string) (kss : list string) (ks : string) (labels : list string)
    (struct : val) (h h1 : heap) (locs : list loc) (l : loc)
    (seqs : list (list val)) (entries : list val) (itemss : list (list val)) :
  keystrings_of keystring = kss ++ [ks] ->
  get_columns (kss ++ [ks]) struct h = (h1, Ok (map VRef locs ++ [VRef l])) ->
  Forall2 (fun k lab => prettify_one (VStr k) = Ok (VStr lab)) kss labels ->
  Forall2 (scalar_column h1 (length entries)) locs seqs ->
  h1 !! l = Some (OList entries) -> entries <> [] ->
  Forall2 (entry_holds h1 l) entries itemss ->
  (tablefy keystring struct true true h).2
  = Ok ((map VStr labels ++ py_sort (py_set (concat itemss)))
        :: imap (fun j items =>
                   row_of seqs j ++ flags_for (py_sort (py_set (concat itemss))) items)
                itemss).
Proof.
  intros Hks Hcols Hlabels Hseqs Hl Hne Hents.
  set (names := py_sort (py_set (concat itemss))).
  set (cols := map VRef locs ++ [VRef l]) in *.
  set (h0 := h1 ++ [OList names]).
  set (n := length entries) in *.
  assert (Hn : length itemss = n) by (symmetry; eapply Forall2_length; eauto).
  assert (Hkl : length kss = length locs).
  { apply mapM_length in Hcols. unfold cols in Hcols.
    rewrite !length_app, length_map in Hcols. simpl in Hcols. lia. }
  assert (Hcons : exists e0 entries', entries = e0 :: entries')
    by (destruct entries as [|e0 entries']; [contradiction | eauto]).
  destruct Hcons as (e0 & entries' & Eentries).
  assert (He0 : has_iter e0 = true).
  { rewrite Eentries in Hents. inversion Hents as [|? items0 ? ? H0 _]; subst.
    now destruct (entry_iterate h1 l e0 items0 H0). }
  assert (Hn1 : n = S (length entries')) by (unfold n; now rewrite Eentries).
  assert (Hfirst := Hseqs). rewrite Hn1 in Hfirst.
  apply scalar_column_first in Hfirst.
  assert (Hnl : Forall (fun lc => lc <> l) locs).
  { eapply Forall_impl; [exact Hfirst|]. intros lc (x & xs & Hlc & Hx) ->.
    rewrite Hl, Eentries in Hlc. injection Hlc as -> _.
    unfold is_scalar in Hx. rewrite He0 in Hx. discriminate. }
  assert (Hidx : py_index h0 cols (VRef l) = Ok (length locs)).
  { apply (py_index_after_scalars h0 l e0 entries' locs).
    - apply lookup_app_l_Some. now rewrite Hl, Eentries.
    - exact He0.
    - eapply Forall_impl; [exact Hfirst|]. intros lc (x & xs & Hlc & Hx).
      exists x, xs. split; [now apply lookup_app_l_Some | exact Hx]. }
  destruct (expand_list_column cols (length locs) h1 l entries itemss Hl Hne Hents Hidx)
    as (hf & Hexp & Hlen & Hcol & Hold & Hflags).
  fold names h0 in Hexp, Hlen, Hcol, Hold, Hflags.
  assert (Hlt : (l < length h1)%nat) by (eapply lookup_lt_Some; eauto).
  assert (Hh0 : length h0 = (length h1 + 1)%nat)
    by (unfold h0; rewrite length_app; reflexivity).
  rewrite Hh0 in Hlen, Hcol, Hold, Hflags.
  unfold n in Hcol. rewrite drop_all, app_nil_r in Hcol. fold n in Hcol.
  set (base := (length h1 + 1)%nat) in *.
  assert (Hkept : Forall2 (fun lc c => hf !! lc = Some (OList c) /\ length c = n
                                       /\ Forall (fun v => is_scalar v = true) c)
                          locs seqs).
  { clear - Hseqs Hnl Hold. induction Hseqs as [|lc c locs seqs (Hlc & Hc) _ IH];
      constructor.
    - split; [|exact Hc]. inversion Hnl; subst.
      assert (lc < length h1)%nat by (eapply lookup_lt_Some; eauto).
      rewrite Hold by (unfold base; lia || assumption).
      unfold h0. now apply lookup_app_l_Some.
    - apply IH. now inversion Hnl. }
  unfold tablefy. cbv zeta. rewrite Hks.
  rewrite (bind_ok _ _ _ _ _ Hcols).
  assert (Hassert : assert_same_length cols h1 = (h1, Ok tt)).
  { apply (assert_same_length_ok h1 _ n). unfold cols. apply Forall_app. split.
    - apply Forall_fmap. eapply Forall2_Forall_l; [exact Hseqs|].
      apply Forall_forall. intros c _ lc (Hlc & Hc & _). simpl. now rewrite Hlc, Hc.
    - constructor; [|constructor]. simpl. now rewrite Hl. }
  rewrite (bind_ok _ _ _ _ _ Hassert).
  assert (Hexpand : expand_columns cols h1
                    = (hf, Ok [(length locs, VRef (length h1))])).
  { unfold expand_columns.
    assert (Hfound : mapM (expand_column cols) cols h1
                     = (hf, Ok (map (fun _ => None) (map VRef locs)
                                ++ [Some (length locs, VRef (length h1))]))).
    { unfold cols at 2. eapply mapM_app.
      - apply mapM_pure. apply Forall_fmap. eapply Forall_impl; [exact Hfirst|].
        intros lc (x & xs & Hlc & Hx). simpl.
        exact (expand_scalar_column cols h1 lc x xs Hlc Hx).
      - cbn [mapM]. rewrite (bind_ok _ _ _ _ _ Hexp). reflexivity. }
    rewrite (bind_ok _ _ _ _ _ Hfound). unfold ret.
    now rewrite omap_nothing_then_one. }
  rewrite (bind_ok _ _ _ _ _ Hexpand).
  assert (Hheader : update_header (map VStr (kss ++ [ks]))
                      [(length locs, VRef (length h1))]
                    = map VStr kss ++ [VRef (length h1)]).
  { cbn [update_header fold_left fst snd]. rewrite map_app.
    rewrite insert_app_r_alt by (rewrite length_map; lia).
    rewrite length_map, Hkl, Nat.sub_diag. reflexivity. }
  rewrite Hheader.
  assert (Hpretty : prettify (map VStr kss ++ [VRef (length h1)]) hf
                    = (hf, Ok (map VStr labels ++ [VRef (length h1)]))).
  { unfold prettify. eapply mapM_app; [|reflexivity].
    apply mapM_each. apply Forall2_fmap. eapply Forall2_impl; [exact Hlabels|].
    intros k lab Hk. unfold reading. cbv beta. now rewrite Hk. }
  rewrite (bind_ok _ _ _ _ _ Hpretty).
  set (newcol := map VRef (seq base n)).
  assert (Hdata : (let* seqs0 := mapM (fun col => reading (fun h2 => iterate h2 col)) cols
                   in ret (py_zip seqs0)) hf
                  = (hf, Ok (map (row_of (seqs ++ [newcol])) (seq 0 n)))).
  { assert (Hiter : mapM (fun col => reading (fun h2 => iterate h2 col)) cols hf
                    = (hf, Ok (seqs ++ [newcol]))).
    { unfold cols. eapply mapM_app.
      - apply mapM_each. apply Forall2_fmap_l. eapply Forall2_impl; [exact Hkept|].
        intros lc c (Hlc & _). unfold compose, reading, iterate. now rewrite Hlc.
      - cbn [mapM]. unfold bind, reading, ret, iterate. now rewrite Hcol. }
    rewrite (bind_ok _ _ _ _ _ Hiter). unfold ret. do 2 f_equal.
    assert (Hall : Forall (fun c => length c = n) (seqs ++ [newcol])).
    { apply Forall_app. split.
      - eapply Forall2_Forall_r; [exact Hkept|].
        apply Forall_forall. intros lc _ c (_ & Hc & _). exact Hc.
      - constructor; [|constructor]. unfold newcol.
        now rewrite length_map, length_seq. }
    unfold py_zip. destruct (seqs ++ [newcol]) as [|c0 rest] eqn:E.
    - destruct seqs; discriminate.
    - assert (Hc0 : length c0 = n) by now inversion Hall.
      rewrite Hc0. now apply zip_rows_row_of. }
  rewrite (bind_ok _ _ _ _ _ Hdata). cbn [snd].
  assert (Hnames : hf !! length h1 = Some (OList names)).
  { rewrite Hold by (unfold base; lia). unfold h0.
    rewrite lookup_app_r, Nat.sub_diag by lia. reflexivity. }
  assert (Hhead : flatten_row (map VStr labels ++ [VRef (length h1)]) hf
                  = (hf, Ok (map VStr labels ++ names))).
  { apply flatten_scalars_then_list; [|exact Hnames].
    apply Forall_fmap. apply Forall_forall. reflexivity. }
  assert (Hrows : Forall2 (fun row out => flatten_row row hf = (hf, Ok out))
                    (map (row_of (seqs ++ [newcol])) (seq 0 n))
                    (imap (fun j items => row_of seqs j ++ flags_for names items)
                          itemss)).
  { apply Forall2_same_length_lookup_2.
    - rewrite length_map, length_seq, length_imap. now rewrite Hn.
    - intros j row out Hrow Hout.
      rewrite list_lookup_fmap in Hrow. rewrite list_lookup_imap in Hout.
      destruct (seq 0 n !! j) as [j'|] eqn:Hj; [|discriminate].
      destruct (itemss !! j) as [items|] eqn:Hitems; [|discriminate].
      simpl in Hrow, Hout. injection Hrow as <-. injection Hout as <-.
      apply lookup_seq in Hj as [-> Hj]. simpl.
      rewrite row_of_app.
      assert (Hlast : row_of [newcol] j = [VRef (base + j)%nat]).
      { rewrite row_of_cons. unfold newcol.
        rewrite list_lookup_fmap, lookup_seq_lt by exact Hj. reflexivity. }
      rewrite Hlast. apply flatten_scalars_then_list.
      + apply row_of_scalar. eapply Forall2_Forall_r; [exact Hkept|].
        apply Forall_forall. intros lc _ c (_ & _ & Hc). exact Hc.
      + apply Hflags; [fold n; exact Hj | exact Hitems]. }
  cbn [mapM]. rewrite (bind_ok _ _ _ _ _ Hhead).
  rewrite (bind_ok _ _ _ _ _ (mapM_each _ _ _ _ Hrows)). reflexivity.
Qed.

(** X16.  Expressions whose columns hold scalar values, followed by one
    expression whose column is a list of tuples or lists of hashable
    values, expanded and flattened: the header row has the labels of
    the scalar columns followed by the sorted distinct values of the
    last column, and the row of record [j] has the values of record [j]
    in the scalar columns followed by one boolean per value of the
    header, telling whether the entry of record [j] holds it. *)
Theorem X16_scalar_columns_then_a_column_of_lists
    (keystring : string) (kss : list string) (ks : string) (labels : list string)
    (struct : val) (h h1 : heap) (locs : list loc) (l : loc)
    (seqs : list (list val)) (entries : list val) (itemss : list (list val)) :
  keystrings_of keystring = kss ++ [ks] ->
  get_columns (kss ++ [ks]) struct h = (h1, Ok (map VRef locs ++ [VRef l])) ->
  Forall2 (fun k lab => prettify_one (VStr k) = Ok (VStr lab)) kss labels ->
  Forall2 (scalar_column h1 (length entries)) locs seqs ->
  h1 !! l = Some (OList entries) -> entries <> [] ->
  Forall2 (entry_holds h1 l) entries itemss ->
  (tablefy keystring struct true true h).2
  = Ok ((map VStr labels ++ py_sort (py_set (concat itemss)))
        :: imap (fun j items =>
                   row_of seqs j ++ flags_for (py_sort (py_set (concat itemss))) items)
                itemss).
Proof. exact (mixed_table keystring kss ks labels struct h h1 locs l seqs entries itemss). Qed.

Lemma X16_witness :
  (tablefy ":serial:1, :classes::1" (VRef 6%nat) true true Ex.usb_lists).2
  = Ok ((map VStr ["serial"%string]
         ++ py_sort (py_set (concat [[VStr "Mass Storage"; VStr "Human Interface Device"];
                                     [VStr "Hub"]])))
        :: imap (fun j items =>
                   row_of [[VStr "10105a42"; VStr "0000:00:14.0"]] j
                   ++ flags_for
                        (py_sort (py_set (concat [[VStr "Mass Storage";
                                                   VStr "Human Interface Device"];
                                                  [VStr "Hub"]])))
                        items)
                [[VStr "Mass Storage"; VStr "Human Interface Device"]; [VStr "Hub"]]).
Proof.
  apply (X16_scalar_columns_then_a_column_of_lists
           ":serial:1, :classes::1" [":serial:1"%string] ":classes::1" ["serial"%string]
           (VRef 6%nat) Ex.usb_lists
           (get_columns [":serial:1"; ":classes::1"]%string (VRef 6%nat) Ex.usb_lists).1
           [8%nat] 11%nat [[VStr "10105a42"; VStr "0000:00:14.0"]]
           [VRef 9%nat; VRef 10%nat]).
  - reflexivity.
  - vm_compute. reflexivity.
  - constructor; [reflexivity | constructor].
  - constructor; [|constructor]. split; [reflexivity|]. split; [reflexivity|].
    repeat constructor.
  - reflexivity.
  - discriminate.
  - constructor; [|constructor; [|constructor]].
    + split; [reflexivity|]. right. exists 9%nat.
      split; [reflexivity|]. split; [lia | reflexivity].
    + split; [reflexivity|]. right. exists 10%nat.
      split; [reflexivity|]. split; [lia | reflexivity].
Defined.

(** ** print_devices: the table of the devices *)

Section DeviceTable.

Lemma wildcard_over_list (rest : list key) (h h' : heap) (r : loc)
    (elems outs : list val) :
  h !! r = Some (OList elems) ->
  mapM (use_key rest) elems h = (h', Ok outs) ->
  use_key (KStr "" :: rest) (VRef r) h = (h' ++ [OList outs], Ok (VRef (length h'))).
Proof.
  intros Hr Hmap. cbn [use_key is_wildcard]. unfold bind at 1.
  unfold fan_out, is_dict. rewrite Hr. cbn [has_iter].
  unfold bind at 1, reading at 1, iterate. rewrite Hr. now rewrite Hmap.
Qed.

Lemma item_of_pair (p : string * string) (h : heap) :
  use_key [KInt 0] (pair_val p) h = (h, Ok (VStr (fst p)))
  /\ use_key [KInt 1] (pair_val p) h = (h, Ok (VStr (snd p))).
Proof. split; reflexivity. Qed.

Lemma field_of_pair (h : heap) (r : loc) (entries : list (key * val))
    (a : ascii) (k : string) (p : string * string) (i : Z) :
  h !! r = Some (ODict entries) ->
  dict_get entries (KStr (String a k)) = Some (pair_val p) ->
  use_key [KStr (String a k); KInt i] (VRef r) h = use_key [KInt i] (pair_val p) h.
Proof.
  intros Hr Hk. cbn [use_key is_wildcard length Nat.ltb Nat.leb].
  unfold bind at 1, reading at 1, getitem. now rewrite Hr, Hk.
Qed.

Lemma describes_grown (h more : heap) (dev : val) (d : device) :
  describes h dev d -> describes (h ++ more) dev d.
Proof.
  intros (r & entries & c & -> & Hr & Hv & Hp & Hs & Hc & Hcl).
  exists r, entries, c. repeat split; auto; now apply lookup_app_l_Some.
Qed.

Lemma field_column (a : ascii) (k : string) (i : Z) (f : device -> val)
    (h : heap) (r : loc) (devs : list val) (ds : list device) :
  h !! r = Some (OList devs) ->
  Forall2 (fun dev d => use_key [KStr (String a k); KInt i] dev h = (h, Ok (f d)))
          devs ds ->
  use_key [KStr ""; KStr (String a k); KInt i] (VRef r) h
  = (h ++ [OList (map f ds)], Ok (VRef (length h))).
Proof.
  intros Hr Hall. apply (wildcard_over_list _ h h r devs (map f ds) Hr).
  apply mapM_each. now apply Forall2_fmap_r.
Qed.

Lemma class_names_of_device (h : heap) (dev : val) (d : device) :
  describes h dev d ->
  use_key [KStr "classes"; KStr ""; KInt 1] dev h
  = (h ++ [OList (class_names d)], Ok (VRef (length h))).
Proof.
  intros (r & entries & c & -> & Hr & _ & _ & _ & Hc & Hcl).
  change (use_key [KStr "classes"; KStr ""; KInt 1] (VRef r) h)
    with ((let* v := reading (fun h' => getitem h' (VRef r) (KStr "classes")) in
           use_key [KStr ""; KInt 1] v) h).
  unfold bind at 1, reading at 1, getitem. rewrite Hr, Hc.
  apply (wildcard_over_list _ h h c _ _ Hcl).
  unfold class_names. apply mapM_each. apply Forall2_fmap.
  apply Forall_Forall2_diag, Forall_forall. intros p _. reflexivity.
Qed.

Lemma class_names_column (h0 : heap) (devs : list val) (ds : list device) :
  Forall2 (describes h0) devs ds ->
  forall more : heap,
    mapM (use_key [KStr "classes"; KStr ""; KInt 1]) devs (h0 ++ more)
    = ((h0 ++ more) ++ map (fun d => OList (class_names d)) ds,
       Ok (map VRef (seq (length (h0 ++ more)) (length ds)))).
Proof.
  induction 1 as [|dev d devs ds Hd _ IH]; intros more.
  - simpl. now rewrite app_nil_r.
  - cbn [mapM].
    rewrite (bind_ok _ _ _ _ _
               (class_names_of_device _ dev d (describes_grown h0 more dev d Hd))).
    rewrite <- app_assoc, (bind_ok _ _ _ _ _ (IH (more ++ [OList (class_names d)]))).
    unfold ret. cbn [map length seq]. rewrite <- !app_assoc. cbn [app].
    replace (length (h0 ++ more ++ [OList (class_names d)]))
      with (S (length (h0 ++ more))) by (rewrite !length_app; simpl; lia).
    reflexivity.
Qed.

Lemma pair_column (a : ascii) (k : string) (i : Z) (sel : device -> string * string)
    (pick : string * string -> string) (h : heap) (r : loc)
    (devs : list val) (ds : list device) :
  (forall p h', use_key [KInt i] (pair_val p) h' = (h', Ok (VStr (pick p)))) ->
  h !! r = Some (OList devs) ->
  Forall2 (fun dev d => exists r' entries,
             dev = VRef r' /\ h !! r' = Some (ODict entries) /\
             dict_get entries (KStr (String a k)) = Some (pair_val (sel d)))
          devs ds ->
  use_key [KStr ""; KStr (String a k); KInt i] (VRef r) h
  = (h ++ [OList (map (fun d => VStr (pick (sel d))) ds)], Ok (VRef (length h))).
Proof.
  intros Hpick Hr Hall. apply (field_column a k i _ h r devs ds Hr).
  eapply Forall2_impl; [exact Hall|].
  intros dev d (r' & entries & -> & Hr' & Hk).
  rewrite (field_of_pair h r' entries a k _ i Hr' Hk). apply Hpick.
Qed.

Lemma table_format_keys :
  map key_sequence (keystrings_of TABLE_FORMAT)
  = [[KStr ""; KStr "idVendor"; KInt 0]; [KStr ""; KStr "idProduct"; KInt 0];
     [KStr ""; KStr "idVendor"; KInt 1]; [KStr ""; KStr "idProduct"; KInt 1];
     [KStr ""; KStr "serial"; KInt 1]; [KStr ""; KStr "classes"; KStr ""; KInt 1]].
Proof. vm_compute. reflexivity. Qed.

Lemma get_columns_keys (keystrings : list string) (struct : val) (h : heap) :
  get_columns keystrings struct h
  = mapM (fun ks => use_key ks struct) (map key_sequence keystrings) h.
Proof.
  unfold get_columns. revert h.
  induction keystrings as [|ks keystrings IH]; intros h; [reflexivity|].
  cbn [map mapM]. unfold access at 1, bind at 1 3.
  destruct (use_key (key_sequence ks) struct h) as [h' [v|e]]; [|reflexivity].
  unfold bind. now rewrite IH.
Qed.

Lemma mapM_cons_ok {A B} (f : A -> M B) (x : A) (xs : list A) (h h1 h2 : heap)
    (y : B) (ys : list B) :
  f x h = (h1, Ok y) -> mapM f xs h1 = (h2, Ok ys) ->
  mapM f (x :: xs) h = (h2, Ok (y :: ys)).
Proof.
  intros Hx Hxs. cbn [mapM].
  now rewrite (bind_ok _ _ _ _ _ Hx), (bind_ok _ _ _ _ _ Hxs).
Qed.

Lemma describes_field (hh : heap) (dev : val) (d : device) :
  describes hh dev d ->
  exists r' entries,
    dev = VRef r' /\ hh !! r' = Some (ODict entries) /\
    dict_get entries (KStr "idVendor") = Some (pair_val (vendor d)) /\
    dict_get entries (KStr "idProduct") = Some (pair_val (product d)) /\
    dict_get entries (KStr "serial") = Some (pair_val (serial d)).
Proof.
  intros (r' & entries & c & -> & Hr & Hv & Hp & Hs & _). eauto 10.
Qed.

Lemma device_columns (h : heap) (r : loc) (devs : list val) (ds : list device) :
  h !! r = Some (OList devs) -> Forall2 (describes h) devs ds ->
  get_columns (keystrings_of TABLE_FORMAT) (VRef r) h
  = (h ++ [OList (map (fun d => VStr (fst (vendor d))) ds);
           OList (map (fun d => VStr (fst (product d))) ds);
           OList (map (fun d => VStr (snd (vendor d))) ds);
           OList (map (fun d => VStr (snd (product d))) ds);
           OList (map (fun d => VStr (snd (serial d))) ds)]
       ++ map (fun d => OList (class_names d)) ds
       ++ [OList (map VRef (seq (length h + 5) (length ds)))],
     Ok (map VRef [length h; length h + 1; length h + 2; length h + 3; length h + 4]%nat
         ++ [VRef (length h + 5 + length ds)%nat])).
Proof.
  intros Hr Hds. rewrite get_columns_keys, table_format_keys.
  set (c1 := OList (map (fun d => VStr (fst (vendor d))) ds)).
  set (c2 := OList (map (fun d => VStr (fst (product d))) ds)).
  set (c3 := OList (map (fun d => VStr (snd (vendor d))) ds)).
  set (c4 := OList (map (fun d => VStr (snd (product d))) ds)).
  set (c5 := OList (map (fun d => VStr (snd (serial d))) ds)).
  assert (Hcol : forall a k i sel pick hh,
             h `prefix_of` hh ->
             (forall p h', use_key [KInt i] (pair_val p) h' = (h', Ok (VStr (pick p)))) ->
             (forall dev d, describes hh dev d ->
                exists r' entries, dev = VRef r' /\ hh !! r' = Some (ODict entries) /\
                  dict_get entries (KStr (String a k)) = Some (pair_val (sel d))) ->
             use_key [KStr ""; KStr (String a k); KInt i] (VRef r) hh
             = (hh ++ [OList (map (fun d => VStr (pick (sel d))) ds)],
                Ok (VRef (length hh)))).
  { intros a k i sel pick hh [more ->] Hpick Hsel.
    apply (pair_column a k i sel pick (h ++ more) r devs ds Hpick).
    - now apply lookup_app_l_Some.
    - eapply Forall2_impl; [exact Hds|]. intros dev d Hd.
      apply Hsel. now apply describes_grown. }
  set (h1 := h ++ [c1]). set (h2 := h1 ++ [c2]). set (h3 := h2 ++ [c3]).
  set (h4 := h3 ++ [c4]). set (h5 := h4 ++ [c5]).
  assert (P1 : h `prefix_of` h1) by now apply prefix_app_r.
  assert (P2 : h `prefix_of` h2) by now apply prefix_app_r.
  assert (P3 : h `prefix_of` h3) by now apply prefix_app_r.
  assert (P4 : h `prefix_of` h4) by now apply prefix_app_r.
  assert (P5 : h `prefix_of` h5) by now apply prefix_app_r.
  assert (E1 : use_key [KStr ""; KStr "idVendor"; KInt 0] (VRef r) h
               = (h1, Ok (VRef (length h)))).
  { apply (Hcol "i"%char "dVendor"%string 0 vendor fst h);
      [reflexivity | reflexivity |].
    intros dev d Hd. destruct (describes_field _ _ _ Hd) as (r' & en & ? & ? & ? & ? & ?).
    eauto. }
  assert (E2 : use_key [KStr ""; KStr "idProduct"; KInt 0] (VRef r) h1
               = (h2, Ok (VRef (length h1)))).
  { apply (Hcol "i"%char "dProduct"%string 0 product fst h1);
      [exact P1 | reflexivity |].
    intros dev d Hd. destruct (describes_field _ _ _ Hd) as (r' & en & ? & ? & ? & ? & ?).
    eauto. }
  assert (E3 : use_key [KStr ""; KStr "idVendor"; KInt 1] (VRef r) h2
               = (h3, Ok (VRef (length h2)))).
  { apply (Hcol "i"%char "dVendor"%string 1 vendor snd h2);
      [exact P2 | reflexivity |].
    intros dev d Hd. destruct (describes_field _ _ _ Hd) as (r' & en & ? & ? & ? & ? & ?).
    eauto. }
  assert (E4 : use_key [KStr ""; KStr "idProduct"; KInt 1] (VRef r) h3
               = (h4, Ok (VRef (length h3)))).
  { apply (Hcol "i"%char "dProduct"%string 1 product snd h3);
      [exact P3 | reflexivity |].
    intros dev d Hd. destruct (describes_field _ _ _ Hd) as (r' & en & ? & ? & ? & ? & ?).
    eauto. }
  assert (E5 : use_key [KStr ""; KStr "serial"; KInt 1] (VRef r) h4
               = (h5, Ok (VRef (length h4)))).
  { apply (Hcol "s"%char "erial"%string 1 serial snd h4);
      [exact P4 | reflexivity |].
    intros dev d Hd. destruct (describes_field _ _ _ Hd) as (r' & en & ? & ? & ? & ? & ?).
    eauto. }
  set (lists := map (fun d => OList (class_names d)) ds).
  assert (E6 : use_key [KStr ""; KStr "classes"; KStr ""; KInt 1] (VRef r) h5
               = ((h5 ++ lists) ++ [OList (map VRef (seq (length h5) (length ds)))],
                  Ok (VRef (length (h5 ++ lists))))).
  { destruct P5 as [more Hmore].
    apply (wildcard_over_list _ h5 (h5 ++ lists) r devs).
    - rewrite Hmore. now apply lookup_app_l_Some.
    - assert (Hds5 : Forall2 (describes h5) devs ds).
      { rewrite Hmore. eapply Forall2_impl; [exact Hds|].
        intros dev d. apply describes_grown. }
      pose proof (class_names_column h5 devs ds Hds5 []) as Hc.
      now rewrite app_nil_r in Hc. }
  set (f := fun ks => use_key ks (VRef r)) in *.
  rewrite (mapM_cons_ok f _ _ _ _ _ _ _ E1
            (mapM_cons_ok f _ _ _ _ _ _ _ E2
              (mapM_cons_ok f _ _ _ _ _ _ _ E3
                (mapM_cons_ok f _ _ _ _ _ _ _ E4
                  (mapM_cons_ok f _ _ _ _ _ _ _ E5
                    (mapM_cons_ok f _ [] _ _ _ _ _ E6 eq_refl)))))).
  assert (L1 : length h1 = (length h + 1)%nat) by (unfold h1; now rewrite length_app).
  assert (L2 : length h2 = (length h + 2)%nat)
    by (unfold h2; rewrite length_app, L1; simpl; lia).
  assert (L3 : length h3 = (length h + 3)%nat)
    by (unfold h3; rewrite length_app, L2; simpl; lia).
  assert (L4 : length h4 = (length h + 4)%nat)
    by (unfold h4; rewrite length_app, L3; simpl; lia).
  assert (L5 : length h5 = (length h + 5)%nat)
    by (unfold h5; rewrite length_app, L4; simpl; lia).
  assert (L6 : length (h5 ++ lists) = (length h + 5 + length ds)%nat)
    by (rewrite length_app, L5; unfold lists; now rewrite length_map).
  rewrite L1, L2, L3, L4, L5, L6. f_equal.
  unfold h5, h4, h3, h2, h1. rewrite <- !app_assoc. reflexivity.
Qed.

Lemma device_heap_lookup (h five lists : heap) (outer : obj) (i : nat) :
  length five = 5%nat ->
  (h ++ five ++ lists ++ [outer]) !! (length h + i)%nat
  = if (i <? 5)%nat then five !! i
    else if (i - 5 <? length lists)%nat then lists !! (i - 5)%nat
    else if (i - 5 =? length lists)%nat then Some outer else None.
Proof.
  intros H5. rewrite lookup_app_r by lia.
  replace (length h + i - length h)%nat with i by lia.
  destruct (i <? 5)%nat eqn:E5.
  - apply Nat.ltb_lt in E5. apply lookup_app_l. lia.
  - apply Nat.ltb_ge in E5. rewrite lookup_app_r by lia. rewrite H5.
    destruct (i - 5 <? length lists)%nat eqn:El.
    + apply Nat.ltb_lt in El. now apply lookup_app_l.
    + apply Nat.ltb_ge in El. rewrite lookup_app_r by lia.
      destruct (i - 5 =? length lists)%nat eqn:Ee.
      * apply Nat.eqb_eq in Ee. now rewrite Ee, Nat.sub_diag.
      * apply Nat.eqb_neq in Ee.
        destruct (i - 5 - length lists)%nat as [|k] eqn:Ek; [lia | reflexivity].
Qed.

End DeviceTable.

(** The rows [print_devices] prints for a non-empty list of devices. *)
Lemma table_of_devices
    (h : heap) (r : loc) (devs : list val) (ds : list device) :
  h !! r = Some (OList devs) -> devs <> [] -> Forall2 (describes h) devs ds ->
  (print_devices (VRef r) h).2
  = Ok ((map VStr ["idVendor"; "idProduct"; "idVendor"; "idProduct"; "serial"]%string
         ++ class_header ds)
        :: map (fun d => device_cells d ++ flags_for (class_header ds) (class_names d))
               ds).
Proof.
  intros Hr Hne Hds.
  pose proof (device_columns h r devs ds Hr Hds) as Hcols.
  assert (Hks : keystrings_of TABLE_FORMAT
                = [":idVendor:0"; ":idProduct:0"; ":idVendor:1"; ":idProduct:1";
                   ":serial:1"]%string ++ [":classes::1"%string])
    by (vm_compute; reflexivity).
  rewrite Hks in Hcols.
  set (n := length ds) in *.
  set (five := [OList (map (fun d => VStr (fst (vendor d))) ds);
                OList (map (fun d => VStr (fst (product d))) ds);
                OList (map (fun d => VStr (snd (vendor d))) ds);
                OList (map (fun d => VStr (snd (product d))) ds);
                OList (map (fun d => VStr (snd (serial d))) ds)]) in *.
  set (lists := map (fun d => OList (class_names d)) ds) in *.
  set (outer := OList (map VRef (seq (length h + 5) n))) in *.
  set (h1 := h ++ five ++ lists ++ [outer]) in *.
  assert (Hlists : length lists = n) by (unfold lists; now rewrite length_map).
  assert (Hlook : forall i, h1 !! (length h + i)%nat
                            = if (i <? 5)%nat then five !! i
                              else if (i - 5 <? n)%nat then lists !! (i - 5)%nat
                              else if (i - 5 =? n)%nat then Some outer else None).
  { intros i. unfold h1. rewrite device_heap_lookup by reflexivity.
    now rewrite Hlists. }
  assert (Hn : n <> 0%nat).
  { unfold n. destruct Hds; [contradiction | discriminate]. }
  unfold print_devices.
  rewrite (mixed_table TABLE_FORMAT _ _
             ["idVendor"; "idProduct"; "idVendor"; "idProduct"; "serial"]%string
             (VRef r) h h1
             [length h; length h + 1; length h + 2; length h + 3; length h + 4]%nat
             (length h + 5 + n)%nat
             [map (fun d => VStr (fst (vendor d))) ds;
              map (fun d => VStr (fst (product d))) ds;
              map (fun d => VStr (snd (vendor d))) ds;
              map (fun d => VStr (snd (product d))) ds;
              map (fun d => VStr (snd (serial d))) ds]
             (map VRef (seq (length h + 5) n))
             (map class_names ds) Hks Hcols).
  - fold (class_header ds). do 2 f_equal.
    apply list_eq. intros j.
    rewrite list_lookup_imap, !list_lookup_fmap.
    destruct (ds !! j) as [d|] eqn:Ed; [|reflexivity]. simpl.
    unfold row_of. cbn [omap list_omap]. rewrite !list_lookup_fmap, Ed. reflexivity.
  - repeat (constructor; [reflexivity|]). constructor.
  - rewrite length_map, length_seq.
    assert (Hsc : forall i (f : device -> string),
               five !! i = Some (OList (map (fun d => VStr (f d)) ds)) ->
               (i < 5)%nat ->
               scalar_column h1 n (length h + i)%nat (map (fun d => VStr (f d)) ds)).
    { intros i f Hi Hlt. split; [|split].
      - rewrite Hlook. apply Nat.ltb_lt in Hlt. now rewrite Hlt.
      - now rewrite length_map.
      - apply Forall_fmap, Forall_forall. reflexivity. }
    replace (length h) with (length h + 0)%nat at 1 by lia.
    constructor; [apply (Hsc 0%nat (fun d => fst (vendor d))); [reflexivity | lia]|].
    constructor; [apply (Hsc 1%nat (fun d => fst (product d))); [reflexivity | lia]|].
    constructor; [apply (Hsc 2%nat (fun d => snd (vendor d))); [reflexivity | lia]|].
    constructor; [apply (Hsc 3%nat (fun d => snd (product d))); [reflexivity | lia]|].
    constructor; [apply (Hsc 4%nat (fun d => snd (serial d))); [reflexivity | lia]|].
    constructor.
  - replace (length h + 5 + n)%nat with (length h + (5 + n))%nat by lia.
    rewrite Hlook.
    replace (5 + n <? 5)%nat with false by (symmetry; apply Nat.ltb_ge; lia).
    replace (5 + n - 5)%nat with n by lia.
    rewrite Nat.ltb_irrefl, Nat.eqb_refl. reflexivity.
  - destruct n; [contradiction | discriminate].
  - apply Forall2_fmap. apply Forall2_same_length_lookup_2.
    + now rewrite length_seq.
    + intros j m d Hm Hd. apply lookup_seq in Hm as [-> Hj]. simpl.
      split.
      * unfold class_names. apply forallb_forall. intros x Hx.
        apply in_map_iff in Hx as (p & <- & _). reflexivity.
      * right. exists (length h + 5 + j)%nat. split; [reflexivity|].
        split; [lia|].
        replace (length h + 5 + j)%nat with (length h + (5 + j))%nat by lia.
        rewrite Hlook.
        replace (5 + j <? 5)%nat with false by (symmetry; apply Nat.ltb_ge; lia).
        replace (5 + j - 5)%nat with j by lia.
        apply Nat.ltb_lt in Hj as Hj'. rewrite Hj'.
        unfold lists. now rewrite list_lookup_fmap, Hd.
Qed.

(** X17.  The table printed for a non-empty list of devices as
    [get_dev_info] describes them: the header row is idVendor,
    idProduct, idVendor, idProduct, serial followed by the distinct
    class names of all the devices in sorted order; the row of a device
    holds its vendor code, product code, vendor name, product name and
    serial, then one boolean per class name of the header telling
    whether the device has an interface of that class. *)
Theorem X17_table_of_the_devices
    (h : heap) (r : loc) (devs : list val) (ds : list device) :
  h !! r = Some (OList devs) -> devs <> [] -> Forall2 (describes h) devs ds ->
  (print_devices (VRef r) h).2
  = Ok ((map VStr ["idVendor"; "idProduct"; "idVendor"; "idProduct"; "serial"]%string
         ++ class_header ds)
        :: map (fun d => device_cells d ++ flags_for (class_header ds) (class_names d))
               ds).
Proof. exact (table_of_devices h r devs ds). Qed.

Lemma X17_witness :
  (print_devices (VRef 6%nat) Ex.usb_lists).2
  = Ok ((map VStr ["idVendor"; "idProduct"; "idVendor"; "idProduct"; "serial"]%string
         ++ class_header [Ex.board; Ex.root_hub])
        :: map (fun d => device_cells d
                         ++ flags_for (class_header [Ex.board; Ex.root_hub])
                                      (class_names d))
               [Ex.board; Ex.root_hub]).
Proof.
  apply (X17_table_of_the_devices Ex.usb_lists 6%nat [VRef 1%nat; VRef 3%nat]
           [Ex.board; Ex.root_hub]).
  - reflexivity.
  - discriminate.
  - constructor; [|constructor; [|constructor]].
    + exists 1%nat, [(KStr "idVendor", VTuple [VStr "0x0d28"; VStr "NXP"]);
                     (KStr "idProduct", VTuple [VStr "0x0204"; VStr "LPC1768"]);
                     (KStr "classes", VRef 0%nat);
                     (KStr "serial", VTuple [VStr "3"; VStr "10105a42"])], 0%nat.
      repeat split; reflexivity.
    + exists 3%nat, [(KStr "idVendor", VTuple [VStr "0x1d6b"; VStr "Linux Foundation"]);
                     (KStr "idProduct", VTuple [VStr "0x0002"; VStr "2.0 root hub"]);
                     (KStr "classes", VRef 2%nat);
                     (KStr "serial", VTuple [VStr "1"; VStr "0000:00:14.0"])], 2%nat.
      repeat split; reflexivity.
Defined.

(** ** main: from the two listings to the table *)

Section Script.

Lemma bool_decide_of_iff (b : bool) (P : Prop) `{Decision P} :
  (b = true <-> P) -> b = bool_decide P.
Proof.
  intros [H1 H2]. destruct b.
  - symmetry. apply bool_decide_eq_true_2. now apply H1.
  - symmetry. apply bool_decide_eq_false_2. intros HP. discriminate (H2 HP).
Qed.

Lemma pair_val_inj (p q : string * string) : pair_val p = pair_val q -> p = q.
Proof. destruct p, q. unfold pair_val. simpl. now intros [= -> ->]. Qed.

Lemma map_pair_val_inj (l1 l2 : list (string * string)) :
  map pair_val l1 = map pair_val l2 -> l1 = l2.
Proof.
  revert l2. induction l1 as [|p l1 IH]; intros [|q l2]; try discriminate;
    [reflexivity|].
  cbn [map]. intros Heq. f_equal; [apply pair_val_inj | apply IH]; congruence.
Qed.

Lemma pair_eq_deep (fuel : nat) (h : heap) (p q : string * string) :
  py_eq_deep (S (S fuel)) h (pair_val p) (pair_val q) = Ok (bool_decide (p = q)).
Proof.
  destruct p as [a b], q as [a' b']. unfold pair_val. cbn.
  destruct (String.eqb_spec a a') as [->|Ha].
  - destruct (String.eqb_spec b b') as [->|Hb].
    + now rewrite bool_decide_eq_true_2.
    + rewrite bool_decide_eq_false_2; [reflexivity | congruence].
  - rewrite bool_decide_eq_false_2; [reflexivity | congruence].
Qed.

Lemma pairs_eq_deep (fuel : nat) (h : heap) :
  forall l1 l2 : list (string * string),
    (fix go (la lb : list val) {struct la} : result bool :=
       match la, lb with
       | [], [] => Ok true
       | x :: xs, y :: ys =>
           match py_eq_deep (S (S fuel)) h x y with
           | Ok true => go xs ys
           | r => r
           end
       | _, _ => Ok false
       end) (map pair_val l1) (map pair_val l2)
    = Ok (bool_decide (l1 = l2)).
Proof.
  induction l1 as [|p l1 IH]; intros [|q l2]; cbn [map].
  - now rewrite bool_decide_eq_true_2.
  - now rewrite bool_decide_eq_false_2.
  - now rewrite bool_decide_eq_false_2.
  - rewrite pair_eq_deep. destruct (decide (p = q)) as [->|Hpq].
    + rewrite bool_decide_eq_true_2 by reflexivity. rewrite IH.
      f_equal. apply bool_decide_ext. split; [now intros -> | now intros [= ->]].
    + rewrite !bool_decide_eq_false_2; [reflexivity | congruence | exact Hpq].
Qed.

Lemma classes_eq_deep (fuel : nat) (h : heap) (c1 c2 : loc)
    (l1 l2 : list (string * string)) :
  h !! c1 = Some (OList (map pair_val l1)) ->
  h !! c2 = Some (OList (map pair_val l2)) ->
  py_eq_deep (S (S (S fuel))) h (VRef c1) (VRef c2) = Ok (bool_decide (l1 = l2)).
Proof.
  intros H1 H2. cbn [py_eq_deep]. destruct (Nat.eqb_spec c1 c2) as [->|Hne].
  - rewrite H1 in H2. injection H2 as H2. apply map_pair_val_inj in H2.
    now rewrite bool_decide_eq_true_2.
  - rewrite H1, H2. rewrite !length_map.
    destruct (Nat.eqb_spec (length l1) (length l2)) as [Hlen|Hlen].
    + apply pairs_eq_deep.
    + rewrite bool_decide_eq_false_2; [reflexivity | congruence].
Qed.

Lemma built_inj (h : heap) (dev : val) (d1 d2 : device) :
  built h dev d1 -> built h dev d2 -> d1 = d2.
Proof.
  intros (r1 & c1 & -> & Hr1 & Hc1) (r2 & c2 & [= <-] & Hr2 & Hc2).
  destruct d1 as [[v1 v1'] [p1 p1'] [s1 s1'] cl1], d2 as [[v2 v2'] [p2 p2'] [s2 s2'] cl2].
  unfold pair_val in *. simpl in *.
  rewrite Hr1 in Hr2. injection Hr2; intros; subst.
  rewrite Hc1 in Hc2. injection Hc2 as Hcl. apply map_pair_val_inj in Hcl.
  congruence.
Qed.

Lemma device_eq_deep (fuel : nat) (h : heap) (x y : val) (d1 d2 : device) :
  built h x d1 -> built h y d2 ->
  py_eq_deep (S (S (S (S fuel)))) h x y = Ok (bool_decide (d1 = d2)).
Proof.
  intros Hx Hy. pose proof Hx as (r1 & c1 & -> & Hr1 & Hc1).
  pose proof Hy as (r2 & c2 & -> & Hr2 & Hc2).
  destruct (Nat.eqb_spec r1 r2) as [->|Hne].
  - rewrite (built_inj _ _ _ _ Hx Hy). cbn [py_eq_deep].
    now rewrite Nat.eqb_refl, bool_decide_eq_true_2.
  - remember (S (S (S fuel))) as f3 eqn:Ef. cbn [py_eq_deep].
    rewrite (proj2 (Nat.eqb_neq _ _) Hne), Hr1, Hr2.
    cbn -[py_eq_deep]. subst f3.
    rewrite !pair_eq_deep, (classes_eq_deep fuel h c1 c2 _ _ Hc1 Hc2).
    destruct d1, d2; simpl;
      repeat case_bool_decide; simpl; try reflexivity; exfalso; congruence.
Qed.

Lemma built_grown (h more : heap) (dev : val) (d : device) :
  built h dev d -> built (h ++ more) dev d.
Proof.
  intros (r & c & -> & Hr & Hc). exists r, c.
  repeat split; auto; now apply lookup_app_l_Some.
Qed.

Lemma built_describes (h : heap) (dev : val) (d : device) :
  built h dev d -> describes h dev d.
Proof.
  intros (r & c & -> & Hr & Hc). eexists r, _, c.
  split; [reflexivity|]. split; [exact Hr|]. repeat split; auto.
Qed.

Lemma built_device_with (h : heap) (dev : val) (d : device) :
  built h dev d ->
  device_with h dev (map (fun p => [VStr (fst p); VStr (snd p)]) (classes d)).
Proof.
  intros (r & c & -> & Hr & Hc). eexists r, _, c.
  split; [reflexivity|]. split; [exact Hr|]. split; [reflexivity|].
  now rewrite map_map.
Qed.

Lemma is_nonhub_built (h : heap) (dev : val) (d : device) :
  built h dev d -> classes d <> [] ->
  is_nonhub dev h = (h, Ok (negb (is_hub d))).
Proof.
  intros Hb Hne. apply is_nonhub_device; [now apply built_device_with|].
  destruct (classes d); [contradiction | discriminate].
Qed.

Lemma equal_in_built (h : heap) (x y : val) (d1 d2 : device) :
  built h x d1 -> built h y d2 ->
  py_eq_deep recursion_limit h x y = Ok (bool_decide (d1 = d2)).
Proof.
  intros Hx Hy.
  change recursion_limit
    with (S (S (S (S (Nat.pred (Nat.pred (Nat.pred (Nat.pred recursion_limit)))))))).
  now apply device_eq_deep.
Qed.

Lemma comparable_built (h : heap) (x : val) (d : device)
    (others : list val) (ds : list device) :
  built h x d -> Forall2 (built h) others ds -> comparable h x others.
Proof.
  intros Hx Hall. unfold comparable.
  induction Hall as [|y d' others ds Hy _ IH]; constructor; [|exact IH].
  eexists. now apply (equal_in_built h x y d d').
Qed.

Lemma among_built (h : heap) (x : val) (d : device)
    (others : list val) (ds : list device) :
  built h x d -> Forall2 (built h) others ds ->
  existsb (equal_in h x) others = bool_decide (elem_of d ds).
Proof.
  intros Hx Hall. induction Hall as [|y d' others ds Hy _ IH].
  - cbn [existsb]. symmetry. apply bool_decide_eq_false_2, not_elem_of_nil.
  - cbn [existsb]. rewrite IH. unfold equal_in.
    rewrite (equal_in_built h x y d d' Hx Hy).
    rewrite (bool_decide_ext _ _ (elem_of_cons ds d d')).
    rewrite bool_decide_or. now destruct (bool_decide (d = d')).
Qed.

Lemma filterM_related {A B} (keep : A -> M bool) (q : B -> bool)
    (R : A -> B -> Prop) (h : heap) (xs : list A) (ds : list B) :
  Forall2 R xs ds -> (forall x d, R x d -> keep x h = (h, Ok (q d))) ->
  exists ys, filterM keep xs h = (h, Ok ys) /\ Forall2 R ys (List.filter q ds).
Proof.
  intros Hall Hkeep. induction Hall as [|x d xs ds Hx _ (ys & Hys & Hrel)].
  - exists []. split; [reflexivity | constructor].
  - exists (if q d then x :: ys else ys). split.
    + cbn [filterM]. now rewrite (bind_ok _ _ _ _ _ (Hkeep x d Hx)), (bind_ok _ _ _ _ _ Hys).
    + cbn [List.filter]. destruct (q d); [now constructor | exact Hrel].
Qed.

Lemma get_usb_devices_built (h : heap) (infos : list val) (ds : list device) :
  Forall2 (built h) infos ds -> Forall (fun d => classes d <> []) ds ->
  exists kept,
    get_usb_devices infos h = (h ++ [OList kept], Ok (VRef (length h)))
    /\ Forall2 (built h) kept (List.filter (fun d => negb (is_hub d)) ds).
Proof.
  intros Hall Hne.
  destruct (filterM_related is_nonhub (fun d => negb (is_hub d))
              (fun x d => built h x d /\ classes d <> []) h infos ds)
    as (kept & Hrun & Hrel).
  - clear - Hall Hne. induction Hall; inversion Hne; subst; constructor; auto.
  - intros x d [Hb Hc]. now apply is_nonhub_built.
  - exists kept. split.
    + unfold get_usb_devices. now rewrite (bind_ok _ _ _ _ _ Hrun).
    + eapply Forall2_impl; [exact Hrel|]. now intros x d [Hb _].
Qed.

Lemma not_in_built (h : heap) (ro rs : loc) (others source : list val)
    (dso dss : list device) :
  h !! ro = Some (OList others) -> h !! rs = Some (OList source) ->
  Forall2 (built h) others dso -> Forall2 (built h) source dss ->
  exists kept,
    not_in (VRef ro) (VRef rs) h = (h ++ [OList kept], Ok (VRef (length h)))
    /\ Forall2 (built h) kept
         (List.filter (fun d => negb (bool_decide (elem_of d dso))) dss).
Proof.
  intros Hro Hrs Ho Hs.
  destruct (filterM_related
              (fun i => let* found := reading (fun h0 => py_contains_deep h0 i (VRef ro))
                        in ret (negb found))
              (fun d => negb (bool_decide (elem_of d dso)))
              (built h) h source dss Hs)
    as (kept & Hrun & Hrel).
  - intros x d Hx. unfold bind, reading.
    rewrite (contains_deep_list h x ro others Hro (comparable_built h x d _ _ Hx Ho)).
    unfold ret. now rewrite (among_built h x d others dso Hx Ho).
  - exists kept. split; [|exact Hrel]. unfold not_in.
    unfold bind at 1, reading at 1, iterate. rewrite Hrs.
    now rewrite (bind_ok _ _ _ _ _ Hrun).
Qed.

Lemma diff_lists_built (h : heap) (r1 r2 : loc) (l1 l2 : list val)
    (ds1 ds2 : list device) :
  h !! r1 = Some (OList l1) -> h !! r2 = Some (OList l2) ->
  Forall2 (built h) l1 ds1 -> Forall2 (built h) l2 ds2 ->
  exists kept,
    diff_lists (VRef r1) (VRef r2) h = (h ++ [OList kept], Ok (VRef (length h)))
    /\ Forall2 (built h) kept (changed ds1 ds2).
Proof.
  intros H1 H2 Hb1 Hb2. unfold diff_lists, bind at 1, reading at 1, py_len.
  rewrite H1. unfold bind at 1, reading at 1. rewrite H2. unfold changed.
  rewrite <- (Forall2_length _ _ _ Hb1), <- (Forall2_length _ _ _ Hb2).
  destruct (length l2 <? length l1)%nat.
  - now apply (not_in_built h r2 r1 l2 l1 ds2 ds1).
  - now apply (not_in_built h r1 r2 l1 l2 ds1 ds2).
Qed.

End Script.

Lemma table_format_wildcards :
  Forall (fun ks => leading_wildcard ks = true) (keystrings_of TABLE_FORMAT).
Proof.
  assert (Hks : keystrings_of TABLE_FORMAT
                = [":idVendor:0"; ":idProduct:0"; ":idVendor:1"; ":idProduct:1";
                   ":serial:1"; ":classes::1"]%string)
    by (vm_compute; reflexivity).
  rewrite Hks. repeat (constructor; [vm_compute; reflexivity|]). constructor.
Qed.

(** X18.  What the script prints when run with neither [--json] nor
    [--csv].  The devices listed before and after the prompt are
    compared with hubs left out; the devices taken are those of the
    longer of the two lists that the other list does not have (those of
    the second list when the lengths are equal).  If there is none, the
    script ends with [IndexError] and prints no table; otherwise it
    prints the table of these devices. *)
Theorem X18_what_the_script_prints
    (h : heap) (before after : list val) (ds1 ds2 : list device) :
  Forall2 (built h) before ds1 -> Forall2 (built h) after ds2 ->
  Forall (fun d => classes d <> []) ds1 -> Forall (fun d => classes d <> []) ds2 ->
  (main before after h).2
  = match changed (List.filter (fun d => negb (is_hub d)) ds1)
                  (List.filter (fun d => negb (is_hub d)) ds2) with
    | [] => Raise IndexError
    | d :: ds => Ok (device_table (d :: ds))
    end.
Proof.
  intros Hb1 Hb2 Hc1 Hc2.
  destruct (get_usb_devices_built h before ds1 Hb1 Hc1) as (k1 & E1 & R1).
  set (h1 := h ++ [OList k1]) in *.
  assert (Hb2' : Forall2 (built h1) after ds2).
  { eapply Forall2_impl; [exact Hb2|]. intros x d. apply built_grown. }
  destruct (get_usb_devices_built h1 after ds2 Hb2' Hc2) as (k2 & E2 & R2).
  set (h2 := h1 ++ [OList k2]) in *.
  assert (L1 : h2 !! length h = Some (OList k1)).
  { unfold h2, h1. rewrite <- app_assoc, lookup_app_r, Nat.sub_diag by lia.
    reflexivity. }
  assert (L2 : h2 !! length h1 = Some (OList k2)).
  { unfold h2. rewrite lookup_app_r, Nat.sub_diag by lia. reflexivity. }
  assert (R1' : Forall2 (built h2) k1 (List.filter (fun d => negb (is_hub d)) ds1)).
  { eapply Forall2_impl; [exact R1|]. intros x d Hx. unfold h2, h1.
    now apply built_grown, built_grown. }
  assert (R2' : Forall2 (built h2) k2 (List.filter (fun d => negb (is_hub d)) ds2)).
  { eapply Forall2_impl; [exact R2|]. intros x d. apply built_grown. }
  destruct (diff_lists_built h2 _ _ k1 k2 _ _ L1 L2 R1' R2') as (kept & E3 & R3).
  set (h3 := h2 ++ [OList kept]) in *.
  assert (L3 : h3 !! length h2 = Some (OList kept)).
  { unfold h3. rewrite lookup_app_r, Nat.sub_diag by lia. reflexivity. }
  unfold main.
  rewrite (bind_ok _ _ _ _ _ E1), (bind_ok _ _ _ _ _ E2), (bind_ok _ _ _ _ _ E3).
  destruct R3 as [|x d kept ds Hx Hrest].
  - unfold print_devices.
    now rewrite (expansion_of_no_record TABLE_FORMAT (length h2) true h3 L3
                   table_format_wildcards).
  - apply (table_of_devices h3 (length h2) (x :: kept) (d :: ds) L3);
      [discriminate|].
    constructor.
    + unfold h3. now apply built_describes, built_grown.
    + eapply Forall2_impl; [exact Hrest|]. intros y d' Hy. unfold h3.
      now apply built_describes, built_grown.
Qed.

Lemma X18_witness :
  (main [VRef 3%nat] [VRef 1%nat; VRef 3%nat] Ex.usb).2
  = match changed (List.filter (fun d => negb (is_hub d)) [Ex.root_hub])
                  (List.filter (fun d => negb (is_hub d)) [Ex.board; Ex.root_hub]) with
    | [] => Raise IndexError
    | d :: ds => Ok (device_table (d :: ds))
    end.
Proof.
  assert (Hboard : built Ex.usb (VRef 1%nat) Ex.board)
    by (exists 1%nat, 0%nat; repeat split; reflexivity).
  assert (Hhub : built Ex.usb (VRef 3%nat) Ex.root_hub)
    by (exists 3%nat, 2%nat; repeat split; reflexivity).
  apply (X18_what_the_script_prints Ex.usb [VRef 3%nat] [VRef 1%nat; VRef 3%nat]
           [Ex.root_hub] [Ex.board; Ex.root_hub]).
  - constructor; [exact Hhub | constructor].
  - constructor; [exact Hboard | constructor; [exact Hhub | constructor]].
  - constructor; [discriminate | constructor].
  - constructor; [discriminate | constructor; [discriminate | constructor]].
Defined.
